(** * product-gen: the puppeteer-based site crawler

    A shallow embedding of the crawler whose output the generators consume:
    [findChromePath], [navigateWithRetry], [discoverRoutes], [scrapePage]
    (with the in-page [extractComponent] walk), [extractNavigation],
    [extractGlobalStyles] and the orchestrator [scrapeLovableApp].

    JavaScript strings are modelled by [string]; one [ascii] stands for one
    UTF-16 code unit (code units below 256), so [length] is the [.length] of
    the source and [slice0] cuts where [String.prototype.slice] cuts. *)

From Stdlib Require Import Strings.String Strings.Ascii Lists.List Arith.PeanoNat
  Bool.Bool micromega.Lia ZArith.BinInt Numbers.DecimalString.
Import ListNotations.

Local Open Scope string_scope.
Local Open Scope list_scope.

Set Implicit Arguments.
Set Warnings "-register-all,-abstract-large-number".

(* ------------------------------------------------------------------ *)
(** ** JavaScript string primitives used by the crawler *)
(* ------------------------------------------------------------------ *)

Module Js.

(** [s.startsWith(p)] *)
Fixpoint startsWith (s p : string) {struct p} : bool :=
  match p with
  | EmptyString => true
  | String c p' =>
      match s with
      | EmptyString => false
      | String d s' => Ascii.eqb c d && startsWith s' p'
      end
  end.

(** [s.includes(sub)]: [sub] occurs at some offset of [s]. *)
Fixpoint includes (s sub : string) : bool :=
  startsWith s sub ||
  match s with
  | EmptyString => false
  | String _ s' => includes s' sub
  end.

(** [s.slice(0, n)] for a non-negative [n]. *)
Fixpoint slice0 (n : nat) (s : string) : string :=
  match n, s with
  | S n', String c s' => String c (slice0 n' s')
  | _, _ => EmptyString
  end.

(** White space and line terminators removed by [String.prototype.trim],
    among the code units below 256: TAB, LF, VT, FF, CR, SP and NBSP. *)
Definition isWhiteSpace (c : ascii) : bool :=
  let n := nat_of_ascii c in
  ((9 <=? n)%nat && (n <=? 13)%nat) || (n =? 32)%nat || (n =? 160)%nat.

Fixpoint trimStart (s : string) : string :=
  match s with
  | EmptyString => EmptyString
  | String c s' => if isWhiteSpace c then trimStart s' else s
  end.

(** Drops the white space at the end: a character is kept when it is not
    white space or when something is kept after it. *)
Fixpoint trimEnd (s : string) : string :=
  match s with
  | EmptyString => EmptyString
  | String c s' =>
      match trimEnd s' with
      | EmptyString => if isWhiteSpace c then EmptyString else String c EmptyString
      | t => String c t
      end
  end.

(** [s.trim()] *)
Definition trim (s : string) : string := trimEnd (trimStart s).

Definition lowerChar (c : ascii) : ascii :=
  let n := nat_of_ascii c in
  if ((65 <=? n)%nat && (n <=? 90)%nat)%bool then ascii_of_nat (n + 32) else c.

(** [s.toLowerCase()] on the ASCII letters (element names are ASCII). *)
Fixpoint toLowerCase (s : string) : string :=
  match s with
  | EmptyString => EmptyString
  | String c s' => String (lowerChar c) (toLowerCase s')
  end.

(** [xs.join(sep)] *)
Fixpoint join (sep : string) (xs : list string) : string :=
  match xs with
  | [] => EmptyString
  | [x] => x
  | x :: rest => (x ++ sep ++ join sep rest)%string
  end.

(** [new Set(...)] holds its members in insertion order; [add] of a member
    already present changes nothing. The members are kept as the list
    that spreading the set ([[...set]]) yields. *)
Definition JsSet := list string.

Definition has (set : JsSet) (x : string) : bool :=
  existsb (String.eqb x) set.

Definition add (set : JsSet) (x : string) : JsSet :=
  if has set x then set else set ++ [x].

(** [[...new Set(xs)]] *)
Definition spreadSet (xs : list string) : list string :=
  fold_left add xs [].

End Js.

(** First occurrences of a list, written as a specification: an element is
    kept exactly when it did not occur earlier ([seen] holds what did). *)
Fixpoint firsts (seen : list string) (l : list string) : list string :=
  match l with
  | [] => []
  | x :: l' =>
      if existsb (String.eqb x) seen then firsts seen l'
      else x :: firsts (x :: seen) l'
  end.

Definition first_occurrences (l : list string) : list string := firsts [] l.

(* ------------------------------------------------------------------ *)
(** ** The rendered document, as the in-page scripts see it *)
(* ------------------------------------------------------------------ *)

Module Dom.

(** A child node of an element: an element, a text node
    ([nodeType === Node.TEXT_NODE]) or any other node (comment, ...). *)
Inductive ChildNode (E : Type) : Type :=
| ElementChild (e : E)
| TextChild (textContent : string)
| OtherChild (textContent : string).

Arguments ElementChild {E} e.
Arguments TextChild {E} textContent.
Arguments OtherChild {E} textContent.

Record Attr : Type := mkAttr { name : string; value : string }.

(** [tagName] is what the DOM reports: upper case for an element of the HTML
    namespace in an HTML document, the name as written for elements of other
    namespaces (inline SVG or MathML). *)
Inductive Element : Type :=
  mkElement {
    tagName : string;
    attributes : list Attr;
    classList : list string;
    childNodes : list (ChildNode Element)
  }.

(** [el.children]: the child nodes that are elements, in order. *)
Definition children (el : Element) : list Element :=
  flat_map (fun n => match n with ElementChild e => [e] | _ => [] end)
           (childNodes el).

Inductive CSSRule : Type :=
| CSSStyleRule (selectorText cssText : string)
| CSSOtherRule (cssText : string).

End Dom.

(** A value thrown by JavaScript: an [Error] with its message, or any other
    value. *)
Inductive JsThrown : Type :=
| JsError (message : string)
| JsNonError (shown : string).

(** How an evaluation completes. *)
Inductive Completion (A : Type) : Type :=
| Normal (a : A)
| Throw (e : JsThrown).

Arguments Normal {A} a.
Arguments Throw {A} e.

(** A style sheet; reading [cssRules] of a cross-origin sheet throws. *)
Record StyleSheet : Type := mkSheet { cssRules : Completion (list Dom.CSSRule) }.

(** An anchor inside the navigation landmark: [textContent] and
    [getAttribute("href")]. *)
Record NavAnchor : Type :=
  mkNavAnchor { linkText : string; hrefAttribute : option string }.

Record Body : Type := mkBody { bodyElement : Dom.Element; innerText : string }.

Record Document : Type :=
  mkDocument {
    docTitle : string;
    docContent : string;
    (** [document.body] / [document.querySelector("body")] *)
    body : option Body;
    (** [.href] (the resolved absolute URL) of every element of
        [document.querySelectorAll("a[href]")], in document order *)
    anchors : list string;
    styleSheets : list StyleSheet;
    (** the anchors of [querySelector("nav") ?? querySelector("[role='navigation']")] *)
    landmark : option (list NavAnchor)
  }.

(* ------------------------------------------------------------------ *)
(** ** Output types ([ScrapedComponent], [ScrapedPage], [ScrapedApp]) *)
(* ------------------------------------------------------------------ *)

Inductive ComponentData : Type :=
  mkComponent {
    tag : string;
    classes : list string;
    text : string;
    attributes : list (string * string);
    children : list ComponentData
  }.

Record NavigationItem : Type :=
  mkNavigationItem { label : string; href : string }.

Record ScrapedPage : Type :=
  mkScrapedPage {
    url : string;
    title : string;
    html : string;
    screenshot : string;
    components : list ComponentData;
    routes : list string;
    textContent : string
  }.

Record ScrapedApp : Type :=
  mkScrapedApp {
    baseUrl : string;
    pages : list ScrapedPage;
    navigation : list NavigationItem;
    globalStyles : string
  }.

(* ------------------------------------------------------------------ *)
(** ** In-page extraction scripts *)
(* ------------------------------------------------------------------ *)

Definition isFilteredTag (tagName : string) : bool :=
  String.eqb tagName "SCRIPT" || String.eqb tagName "STYLE"
  || String.eqb tagName "NOSCRIPT".

Definition isAllowedAttr (name : string) : bool :=
  Js.startsWith name "data-" || String.eqb name "role"
  || String.eqb name "aria-label" || String.eqb name "placeholder"
  || String.eqb name "type" || String.eqb name "href"
  || String.eqb name "src" || String.eqb name "alt".

(** [attrs[k] = v] on a plain object: overwrite in place, or append. *)
Fixpoint assign (attrs : list (string * string)) (k v : string)
  : list (string * string) :=
  match attrs with
  | [] => [(k, v)]
  | (k', v') :: rest =>
      if String.eqb k k' then (k, v) :: rest else (k', v') :: assign rest k v
  end.

Definition collectAttrs (l : list Dom.Attr) : list (string * string) :=
  fold_left (fun attrs attr =>
               if isAllowedAttr (Dom.name attr)
               then assign attrs (Dom.name attr) (Dom.value attr)
               else attrs) l [].

(** The [directText] loop: every text node among [el.childNodes] adds its
    trimmed content. *)
Definition collectDirectText (nodes : list (Dom.ChildNode Dom.Element)) : string :=
  fold_left (fun directText node =>
               match node with
               | Dom.TextChild t => (directText ++ Js.trim t)%string
               | _ => directText
               end) nodes "".

Fixpoint extractComponent (el : Dom.Element) : option ComponentData :=
  if isFilteredTag (Dom.tagName el) then None
  else
    let attrs := collectAttrs (Dom.attributes el) in
    let children :=
      (fix each (nodes : list (Dom.ChildNode Dom.Element)) : list ComponentData :=
         match nodes with
         | [] => []
         | Dom.ElementChild child :: rest =>
             match extractComponent child with
             | Some extracted => extracted :: each rest
             | None => each rest
             end
         | _ :: rest => each rest
         end) (Dom.childNodes el) in
    let directText := collectDirectText (Dom.childNodes el) in
    Some {| tag := Js.toLowerCase (Dom.tagName el);
            classes := Dom.classList el;
            text := Js.slice0 200 directText;
            attributes := attrs;
            children := children |}.

(** The loop [for (const child of xs.children) { ... push ... }] over a list
    of elements. *)
Definition extractEach (els : list Dom.Element) : list ComponentData :=
  fold_left (fun acc child =>
               match extractComponent child with
               | Some extracted => acc ++ [extracted]
               | None => acc
               end) els [].

(** The script evaluated for [components]. *)
Definition extractComponents (doc : Document) : list ComponentData :=
  match body doc with
  | None => []
  | Some b => extractEach (Dom.children (bodyElement b))
  end.

(** The script evaluated for [textContent]:
    [document.body?.innerText?.slice(0, 10000) ?? ""]. *)
Definition extractVisibleText (doc : Document) : string :=
  match body doc with
  | None => ""
  | Some b => Js.slice0 10000 (innerText b)
  end.

(** The script of [discoverRoutes], given the origin string. *)
Definition collectLinks (orig : string) (doc : Document) : list string :=
  fold_left (fun hrefs href =>
               if Js.startsWith href orig && negb (Js.includes href "#")
               then hrefs ++ [href] else hrefs)
            (anchors doc) [].

(** The script of [extractNavigation]. *)
Definition extractItems (links : list NavAnchor) : list NavigationItem :=
  fold_left (fun items link =>
               items ++ [ {| label := Js.trim (linkText link);
                             href := match hrefAttribute link with
                                     | Some h => h
                                     | None => ""
                                     end |} ])
            links [].

Definition navigationScript (doc : Document) : list NavigationItem :=
  match landmark doc with
  | None => []
  | Some links => extractItems links
  end.

Definition keepsRule (rule : Dom.CSSRule) : bool :=
  match rule with
  | Dom.CSSStyleRule selectorText _ =>
      String.eqb selectorText ":root"
      || Js.startsWith selectorText "body"
      || Js.startsWith selectorText "html"
  | Dom.CSSOtherRule _ => false
  end.

Definition ruleText (rule : Dom.CSSRule) : string :=
  match rule with
  | Dom.CSSStyleRule _ cssText => cssText
  | Dom.CSSOtherRule cssText => cssText
  end.

(** The body of the [try] of [extractGlobalStyles] for one sheet; a throw
    leaves [styles] as it was when the rules were asked for. *)
Definition pushSheetRules (styles : list string) (sheet : StyleSheet)
  : Completion (list string) :=
  match cssRules sheet with
  | Throw e => Throw e
  | Normal rules =>
      Normal (fold_left (fun styles rule =>
                           if keepsRule rule then styles ++ [ruleText rule]
                           else styles) rules styles)
  end.

(** The loop of [extractGlobalStyles] over [document.styleSheets]. *)
Definition collectStyles (sheets : list StyleSheet) : list string :=
  fold_left (fun styles sheet =>
               match pushSheetRules styles sheet with
               | Normal styles' => styles'
               | Throw _ => styles          (* catch { } *)
               end) sheets [].

(** The script of [extractGlobalStyles]. *)
Definition globalStylesScript (doc : Document) : string :=
  Js.join (String "010"%char EmptyString) (collectStyles (styleSheets doc)).

(* ------------------------------------------------------------------ *)
(** ** Locating the browser binary *)
(* ------------------------------------------------------------------ *)

Definition candidates : list string :=
  [ "/usr/bin/google-chrome";
    "/usr/bin/google-chrome-stable";
    "/usr/bin/chromium";
    "/usr/bin/chromium-browser";
    "/Applications/Google Chrome.app/Contents/MacOS/Google Chrome";
    "C:\Program Files\Google\Chrome\Application\chrome.exe" ].

(** [CHROME_PATH] is [process.env.CHROME_PATH]: [None] when unset; an
    empty string is falsy. The function reads nothing else. *)
Definition findChromePath (CHROME_PATH : option string) : string :=
  match CHROME_PATH with
  | Some p => if String.eqb p "" then nth 0 candidates "" else p
  | None => nth 0 candidates ""
  end.

(* ------------------------------------------------------------------ *)
(** ** The browser: what the crawler drives, and what answers it *)
(* ------------------------------------------------------------------ *)

Definition NAVIGATION_WAIT_MS : nat := 3000.
Definition PAGE_LOAD_WAIT_MS : nat := 5000.
Definition NAV_TIMEOUT_MS : nat := 60000.
Definition NAV_RETRIES : nat := 2.

Inductive WaitUntil : Type := networkidle2 | domcontentloaded.

(** What one [page.goto] does: it throws or not, and the URL the page is on
    afterwards (redirects, or a load that timed out half way). *)
Record GotoResult : Type :=
  mkGoto { thrown : option JsThrown; landed : string }.

(** One [page.goto] call as it happened. *)
Record GotoEvent : Type :=
  mkGotoEvent { target : string; waitUntil : WaitUntil; failure : option JsThrown }.

(** Everything outside the crawler. Browser operations are numbered in the
    order the crawler issues them; the answer to an operation may depend on
    its number (time) and on the URL the page is on. *)
Record World : Type :=
  mkWorld {
    (** [process.env.CHROME_PATH] *)
    CHROME_PATH : option string;
    (** [puppeteer.launch({executablePath, ...})]: [Some e] when it throws *)
    launch : string -> option JsThrown;
    (** [page.goto(url, {waitUntil, timeout})] issued as operation [n] *)
    goto : nat -> string -> WaitUntil -> GotoResult;
    (** any other browser operation issued as operation [n] throws
        (a crashed rendering context, a closed target) *)
    fault : nat -> option JsThrown;
    (** the document operation [n] sees when the page is on a URL *)
    render : nat -> string -> Document;
    (** [page.screenshot] *)
    capture : nat -> string -> string;
    (** [new URL(u).origin], which throws on an invalid URL *)
    originOf : string -> Completion string
  }.

Inductive Session : Type := NotAcquired | Open | Released.

Record Browser : Type :=
  mkBrowser {
    clock : nat;
    session : Session;
    pageUrl : string;
    gotoLog : list GotoEvent;
    slept : nat
  }.

Definition initial : Browser :=
  {| clock := 0; session := NotAcquired; pageUrl := "about:blank";
     gotoLog := []; slept := 0 |}.

(** Computations of the crawler: state passing with exceptions. *)
Definition M (A : Type) : Type := Browser -> Completion A * Browser.

Definition ret {A} (a : A) : M A := fun s => (Normal a, s).

Definition throw {A} (e : JsThrown) : M A := fun s => (Throw e, s).

Definition bind {A B} (m : M A) (k : A -> M B) : M B :=
  fun s =>
    match m s with
    | (Normal a, s') => k a s'
    | (Throw e, s') => (Throw e, s')
    end.

Notation "x <- m ;; k" := (bind m (fun x => k))
  (at level 61, m at next level, right associativity).
Notation "m ;; k" := (bind m (fun _ => k))
  (at level 61, right associativity).

(** [try { body } catch (err) { handler }] *)
Definition try_catch {A} (body : M A) (handler : JsThrown -> M A) : M A :=
  fun s =>
    match body s with
    | (Normal a, s') => (Normal a, s')
    | (Throw e, s') => handler e s'
    end.

(** [try { body } finally { cleanup }] *)
Definition try_finally {A} (body : M A) (cleanup : M unit) : M A :=
  fun s =>
    let (r, s1) := body s in
    match cleanup s1 with
    | (Normal _, s2) => (r, s2)
    | (Throw e, s2) => (Throw e, s2)
    end.

Definition liftC {A} (c : Completion A) : M A :=
  match c with
  | Normal a => ret a
  | Throw e => throw e
  end.

(** [for (const x of xs) { acc = step(acc, x) }] *)
Fixpoint forOf {A B} (xs : list A) (acc : B) (step : B -> A -> M B) : M B :=
  match xs with
  | [] => ret acc
  | x :: rest => acc' <- step acc x ;; forOf rest acc' step
  end.

Section Crawler.

Variable w : World.

(** Issues a browser operation: takes its number, fails if the world says so. *)
Definition operation : M nat :=
  fun s =>
    let n := clock s in
    let s' := {| clock := S n; session := session s; pageUrl := pageUrl s;
                 gotoLog := gotoLog s; slept := slept s |} in
    match fault w n with
    | Some e => (Throw e, s')
    | None => (Normal n, s')
    end.

Definition puppeteer_launch : M unit :=
  fun s =>
    match launch w (findChromePath (CHROME_PATH w)) with
    | Some e => (Throw e, s)
    | None => (Normal tt,
               {| clock := clock s; session := Open; pageUrl := pageUrl s;
                  gotoLog := gotoLog s; slept := slept s |})
    end.

(** [browser.close()], taken to succeed: it ends the session. *)
Definition browser_close : M unit :=
  fun s => (Normal tt,
            {| clock := clock s; session := Released; pageUrl := pageUrl s;
               gotoLog := gotoLog s; slept := slept s |}).

Definition browser_newPage : M unit :=
  _ <- operation ;;
  fun s => (Normal tt,
            {| clock := clock s; session := session s; pageUrl := "about:blank";
               gotoLog := gotoLog s; slept := slept s |}).

Definition page_setViewport (width height : nat) : M unit :=
  _ <- operation ;; ret tt.

Definition page_goto (url : string) (wait : WaitUntil) : M unit :=
  fun s =>
    let n := clock s in
    let r := goto w n url wait in
    let s' := {| clock := S n; session := session s; pageUrl := landed r;
                 gotoLog := gotoLog s ++ [mkGotoEvent url wait (thrown r)];
                 slept := slept s |} in
    match thrown r with
    | Some e => (Throw e, s')
    | None => (Normal tt, s')
    end.

Definition page_url : M string := fun s => (Normal (pageUrl s), s).

(** [page.evaluate(script)]: the script runs on the document the page shows. *)
Definition page_evaluate {A} (script : Document -> A) : M A :=
  n <- operation ;;
  fun s => (Normal (script (render w n (pageUrl s))), s).

Definition page_title : M string := page_evaluate docTitle.

Definition page_content : M string := page_evaluate docContent.

Definition page_screenshot : M string :=
  n <- operation ;;
  fun s => (Normal (capture w n (pageUrl s)), s).

Definition delay (ms : nat) : M unit :=
  fun s => (Normal tt,
            {| clock := clock s; session := session s; pageUrl := pageUrl s;
               gotoLog := gotoLog s; slept := slept s + ms |}).

Definition isTimeout (err : JsThrown) : bool :=
  match err with
  | JsError message => Js.includes message "timeout"
  | JsNonError _ => false
  end.

(** The [for] loop of [navigateWithRetry], with [remaining] iterations left
    before [attempt <= NAV_RETRIES] fails. *)
Fixpoint navigateLoop (remaining attempt : nat) (url : string) : M unit :=
  match remaining with
  | 0 => ret tt
  | S remaining' =>
      try_catch (page_goto url networkidle2)
        (fun err =>
           if negb (isTimeout err) || (attempt =? NAV_RETRIES)%nat
           then throw err
           else
             try_catch (page_goto url domcontentloaded ;; delay PAGE_LOAD_WAIT_MS)
               (fun _ => navigateLoop remaining' (S attempt) url))
  end.

Definition navigateWithRetry (url : string) : M unit :=
  navigateLoop (S NAV_RETRIES) 0 url.

Definition discoverRoutes (baseUrl : string) : M (list string) :=
  origin <- liftC (originOf w baseUrl) ;;
  links <- page_evaluate (collectLinks origin) ;;
  ret (Js.spreadSet links).

Definition scrapePage (url : string) : M ScrapedPage :=
  current <- page_url ;;
  (if String.eqb current url then ret tt
   else navigateWithRetry url ;; delay NAVIGATION_WAIT_MS) ;;
  title <- page_title ;;
  html <- page_content ;;
  screenshotBuffer <- page_screenshot ;;
  components <- page_evaluate extractComponents ;;
  textContent <- page_evaluate extractVisibleText ;;
  routes <- discoverRoutes url ;;
  ret {| url := url; title := title; html := html;
         screenshot := screenshotBuffer; components := components;
         routes := routes; textContent := textContent |}.

Definition extractNavigation : M (list NavigationItem) :=
  page_evaluate navigationScript.

Definition extractGlobalStyles : M string :=
  page_evaluate globalStylesScript.

(** The frontier the orchestrator builds: [[...new Set([url, ...routes])]]. *)
Definition uniqueRoutesOf (url : string) (routes : list string) : list string :=
  Js.spreadSet (url :: routes).

(** The start of the [try] block: the page is opened and the entry loaded. *)
Definition loadEntry (url : string) : M unit :=
  browser_newPage ;;
  page_setViewport 1440 900 ;;
  navigateWithRetry url ;;
  delay PAGE_LOAD_WAIT_MS.

(** The part of the [try] block up to the routes of the entry page. *)
Definition openEntry (url : string) : M (list string) :=
  loadEntry url ;;
  discoverRoutes url.

(** The rest of the [try] block, from the routes of the entry page on. *)
Definition scrapeAll (url : string) (routes : list string) : M ScrapedApp :=
  let uniqueRoutes := uniqueRoutesOf url routes in
  pages <- forOf uniqueRoutes []
             (fun pages route =>
                scrapedPage <- scrapePage route ;;
                ret (pages ++ [scrapedPage])) ;;
  navigation <- extractNavigation ;;
  globalStyles <- extractGlobalStyles ;;
  ret {| baseUrl := url; pages := pages; navigation := navigation;
         globalStyles := globalStyles |}.

(** The whole [try] block. *)
Definition tryBlock (url : string) : M ScrapedApp :=
  routes <- openEntry url ;; scrapeAll url routes.

Definition scrapeLovableApp (url : string) : M ScrapedApp :=
  puppeteer_launch ;;
  try_finally (tryBlock url) browser_close.

End Crawler.

(* ------------------------------------------------------------------ *)
(** ** Specification-side readings of the scripts *)
(* ------------------------------------------------------------------ *)

(** The test of the [discoverRoutes] script on one resolved href. *)
Definition admitted (orig href : string) : bool :=
  Js.startsWith href orig && negb (Js.includes href "#").

(** The text nodes that are immediate children of an element. *)
Definition directTextNodes (el : Dom.Element) : list string :=
  flat_map (fun n => match n with Dom.TextChild t => [t] | _ => [] end)
           (Dom.childNodes el).

(** The direct text before truncation: the trimmed text nodes, one after
    the other. *)
Definition directTextOf (el : Dom.Element) : string :=
  String.concat "" (map Js.trim (directTextNodes el)).



(** All the nodes of a component tree, the root first. *)
Fixpoint nodesOf (c : ComponentData) : list ComponentData :=
  c :: (fix all (cs : list ComponentData) : list ComponentData :=
          match cs with
          | [] => []
          | c' :: rest => nodesOf c' ++ all rest
          end) (children c).

Definition nodesOfAll (cs : list ComponentData) : list ComponentData :=
  flat_map nodesOf cs.

Definition isPrunedTag (tag : string) : bool :=
  String.eqb tag "script" || String.eqb tag "style" || String.eqb tag "noscript".

(** What the children loop amounts to: the extractions that are not [null]. *)
Definition extractedOf (els : list Dom.Element) : list ComponentData :=
  flat_map (fun el => match extractComponent el with
                      | Some c => [c]
                      | None => []
                      end) els.

(** [P x rest] for every element [x] of a list and the elements after it. *)
Fixpoint eachWithRest {A : Type} (P : A -> list A -> Prop) (l : list A) : Prop :=
  match l with
  | [] => True
  | x :: rest => P x rest /\ eachWithRest P rest
  end.

Fixpoint lastOf {A : Type} (l : list A) : option A :=
  match l with
  | [] => None
  | [x] => Some x
  | _ :: rest => lastOf rest
  end.

(** What a completion threw, if it did. *)
Definition thrownBy {A : Type} (r : Completion A) : option JsThrown :=
  match r with
  | Normal _ => None
  | Throw e => Some e
  end.

(** The state once [puppeteer.launch] has answered. *)
Definition launched (s : Browser) : Browser :=
  {| clock := clock s; session := Open; pageUrl := pageUrl s;
     gotoLog := gotoLog s; slept := slept s |}.

Definition released (s : Browser) : Browser :=
  {| clock := clock s; session := Released; pageUrl := pageUrl s;
     gotoLog := gotoLog s; slept := slept s |}.


Fixpoint replicate (n : nat) (c : ascii) : string :=
  match n with
  | 0 => EmptyString
  | S n' => String c (replicate n' c)
  end.

Fixpoint allWhite (s : string) : bool :=
  match s with
  | EmptyString => true
  | String c s' => Js.isWhiteSpace c && allWhite s'
  end.

Definition startsWhite (s : string) : bool :=
  match s with
  | EmptyString => false
  | String c _ => Js.isWhiteSpace c
  end.

Fixpoint endsWhite (s : string) : bool :=
  match s with
  | EmptyString => false
  | String c EmptyString => Js.isWhiteSpace c
  | String _ s' => endsWhite s'
  end.

(** Element names as an HTML document reports them: no lower-case letter,
    here and below. *)
Definition isLowerLetter (c : ascii) : bool :=
  let n := nat_of_ascii c in ((97 <=? n)%nat && (n <=? 122)%nat)%bool.

Fixpoint upperName (s : string) : bool :=
  match s with
  | EmptyString => true
  | String c s' => negb (isLowerLetter c) && upperName s'
  end.

Fixpoint htmlNames (el : Dom.Element) : bool :=
  upperName (Dom.tagName el)
  && (fix all (nodes : list (Dom.ChildNode Dom.Element)) : bool :=
        match nodes with
        | [] => true
        | Dom.ElementChild child :: rest => htmlNames child && all rest
        | _ :: rest => all rest
        end) (Dom.childNodes el).

(** What holds of a failed [goto] of a navigation that completed with [r]:
    a strict load that failed otherwise than by a timeout is the last load
    and its error is thrown; a lenient load that failed, however it
    failed, is followed by another load. *)
Definition eventRule (r : Completion unit) (ev : GotoEvent)
  (after : list GotoEvent) : Prop :=
  forall e,
    failure ev = Some e ->
    (waitUntil ev = networkidle2 -> isTimeout e = false ->
     after = [] /\ r = Throw e)
    /\ (waitUntil ev = domcontentloaded -> after <> []).

(** The state after one [goto]. *)
Definition afterGoto (w : World) (url : string) (wait : WaitUntil) (s : Browser)
  : Browser :=
  {| clock := S (clock s); session := session s;
     pageUrl := landed (goto w (clock s) url wait);
     gotoLog := gotoLog s ++ [mkGotoEvent url wait (thrown (goto w (clock s) url wait))];
     slept := slept s |}.

Definition upperChar (c : ascii) : ascii :=
  if isLowerLetter c then ascii_of_nat (nat_of_ascii c - 32) else c.

Fixpoint toUpperCase (s : string) : string :=
  match s with
  | EmptyString => EmptyString
  | String c s' => String (upperChar c) (toUpperCase s')
  end.

Fixpoint allLower (s : string) : bool :=
  match s with
  | EmptyString => true
  | String c s' => isLowerLetter c && allLower s'
  end.

(* ------------------------------------------------------------------ *)
(** ** Sample documents and worlds *)
(* ------------------------------------------------------------------ *)

Module Sample.

Definition textElement (tagName : string) (t : string) : Dom.Element :=
  Dom.mkElement tagName [] [] [Dom.TextChild t].

(** [<p>Hello <b>big</b> world</p>] *)
Definition hello : Dom.Element :=
  Dom.mkElement "P" [] []
    [ Dom.TextChild "Hello "; Dom.ElementChild (textElement "B" "big");
      Dom.TextChild " world" ].



Definition emptyDocument : Document :=
  {| docTitle := ""; docContent := ""; body := None; anchors := [];
     styleSheets := []; landmark := None |}.

Definition withBody (el : Dom.Element) (visible : string) : Document :=
  {| docTitle := ""; docContent := "";
     body := Some {| bodyElement := el; innerText := visible |};
     anchors := []; styleSheets := []; landmark := None |}.


(** [<body><div><svg><style>.a{fill:red}</style></svg></div>
    <script>run()</script></body>]: the [style] element is in the SVG
    namespace, so the DOM reports its name as written. *)
Definition svgBody : Dom.Element :=
  Dom.mkElement "BODY" [] []
    [ Dom.ElementChild
        (Dom.mkElement "DIV" [] []
           [ Dom.ElementChild
               (Dom.mkElement "svg" [] []
                  [ Dom.ElementChild (textElement "style" ".a{fill:red}") ]) ]);
      Dom.ElementChild (textElement "SCRIPT" "run()") ].

Definition svgPage : Document := withBody svgBody "".

Definition sheets : list StyleSheet :=
  [ mkSheet (Normal [ Dom.CSSStyleRule ":root" ":root { --bg: #fff; }";
                      Dom.CSSStyleRule ".card" ".card { margin: 0; }";
                      Dom.CSSStyleRule "body" "body { margin: 0; }" ]);
    mkSheet (Throw (JsError "SecurityError: Cannot access rules"));
    mkSheet (Normal [ Dom.CSSOtherRule "@media print { html { color: black; } }";
                      Dom.CSSStyleRule "html, body" "html, body { height: 100%; }" ]) ].


(** A disk on which only Chromium is installed. *)
Definition onlyChromium (path : string) : bool :=
  String.eqb path "/usr/bin/chromium".


Definition linking (title : string) (hrefs : list string) : Document :=
  {| docTitle := title; docContent := ""; body := None; anchors := hrefs;
     styleSheets := []; landmark := None |}.

(** A small site: the entry page links to two pages of the site and to one
    page elsewhere; the two pages link further. *)
Definition site (url : string) : Document :=
  if String.eqb url "http://a.com/" then
    linking "home" [ "http://a.com/about"; "http://other.org/x";
                     "http://a.com/pricing" ]
  else if String.eqb url "http://a.com/about" then
    linking "about" [ "http://a.com/team"; "http://a.com/" ]
  else if String.eqb url "http://a.com/pricing" then
    linking "pricing" [ "http://a.com/checkout" ]
  else emptyDocument.

Definition origin (u : string) : Completion string :=
  if Js.startsWith u "http://a.com/" then Normal "http://a.com"
  else Throw (JsError "Invalid URL").

(** A world in which every load succeeds at once and nothing fails. *)
Definition serving (pagesOf : string -> Document) : World :=
  {| CHROME_PATH := None;
     launch := fun _ => None;
     goto := fun _ url _ => {| thrown := None; landed := url |};
     fault := fun _ => None;
     render := fun _ url => pagesOf url;
     capture := fun _ _ => "";
     originOf := origin |}.

Definition timeoutError : JsThrown :=
  JsError "Navigation timeout of 60000 ms exceeded".

Definition refusedError : JsThrown :=
  JsError "net::ERR_CONNECTION_REFUSED at http://a.com/".

Definition answering (answer : nat -> WaitUntil -> option JsThrown) : World :=
  {| CHROME_PATH := None;
     launch := fun _ => None;
     goto := fun n url wait => {| thrown := answer n wait; landed := url |};
     fault := fun _ => None;
     render := fun _ url => site url;
     capture := fun _ _ => "";
     originOf := origin |}.

(** The network never goes idle, the content always parses. *)
Definition slowIdle : World :=
  answering (fun _ wait => match wait with
                           | networkidle2 => Some timeoutError
                           | domcontentloaded => None
                           end).

(** Nothing ever loads in time. *)
Definition unreachable : World := answering (fun _ _ => Some timeoutError).

(** The connection is refused at once. *)
Definition refusing : World := answering (fun _ _ => Some refusedError).


(** The site is served, but the rendering context dies at operation 12,
    while the second page is extracted. *)
Definition crashing : World :=
  {| CHROME_PATH := None;
     launch := fun _ => None;
     goto := fun _ url _ => {| thrown := None; landed := url |};
     fault := fun n => if (n =? 12)%nat then Some (JsError "Target closed") else None;
     render := fun _ url => site url;
     capture := fun _ _ => "";
     originOf := origin |}.

(** No browser can be started. *)
Definition noBrowser : World :=
  {| CHROME_PATH := None;
     launch := fun _ => Some (JsError "Failed to launch the browser process");
     goto := fun _ url _ => {| thrown := None; landed := url |};
     fault := fun _ => None;
     render := fun _ url => site url;
     capture := fun _ _ => "";
     originOf := origin |}.

End Sample.

(* ------------------------------------------------------------------ *)
(** ** Further readings of the crawler *)
(* ------------------------------------------------------------------ *)

(** Nothing of the navigation has moved between two states: the same loads
    made, the same page shown, the same time slept, the same session. *)
Definition sameNavigation (s s' : Browser) : Prop :=
  gotoLog s' = gotoLog s /\ pageUrl s' = pageUrl s
  /\ slept s' = slept s /\ session s' = session s.

Definition toPair (a : Dom.Attr) : string * string := (Dom.name a, Dom.value a).

(** The menu item made of one anchor of the landmark. *)
Definition itemOf (link : NavAnchor) : NavigationItem :=
  {| label := Js.trim (linkText link);
     href := match hrefAttribute link with Some h => h | None => "" end |}.

Definition isUpperLetter (c : ascii) : bool :=
  let n := nat_of_ascii c in ((65 <=? n)%nat && (n <=? 90)%nat)%bool.

Fixpoint noUpperLetter (s : string) : bool :=
  match s with
  | EmptyString => true
  | String c s' => negb (isUpperLetter c) && noUpperLetter s'
  end.

(** What every node of an extracted tree satisfies. *)
Definition wellFormedNode (n : ComponentData) : Prop :=
  String.length (text n) <= 200
  /\ noUpperLetter (tag n) = true
  /\ NoDup (map fst (attributes n))
  /\ forall k v, In (k, v) (attributes n) -> isAllowedAttr k = true.

(** The completion policies of the loads of one navigation, in order: strict
    and lenient in turn, for [n] loads. *)
Fixpoint policies (n : nat) : list WaitUntil :=
  match n with
  | 0 => []
  | 1 => [networkidle2]
  | S (S n') => networkidle2 :: domcontentloaded :: policies n'
  end.

(* ------------------------------------------------------------------ *)
(** ** More sample documents *)
(* ------------------------------------------------------------------ *)

Module Gallery.

(** [<a class="btn" href="/a" data-id="7" onclick="go()" role="button">] *)
Definition buttonAttrs : list Dom.Attr :=
  [ Dom.mkAttr "class" "btn"; Dom.mkAttr "href" "/a"; Dom.mkAttr "data-id" "7";
    Dom.mkAttr "onclick" "go()"; Dom.mkAttr "role" "button" ].

(** [<body><nav><a href="/a" ...> Home </a><a>About</a></nav>
    <MAIN><p>Hello <b>big</b> world</p></MAIN></body>] *)
Definition homeBody : Dom.Element :=
  Dom.mkElement "BODY" [] []
    [ Dom.ElementChild
        (Dom.mkElement "NAV" [] ["top"]
           [ Dom.ElementChild
               (Dom.mkElement "A" buttonAttrs ["btn"] [Dom.TextChild " Home "]);
             Dom.ElementChild (Sample.textElement "A" "About") ]);
      Dom.ElementChild
        (Dom.mkElement "MAIN" [] [] [Dom.ElementChild Sample.hello]) ].

Definition home : Document :=
  {| docTitle := "Home"; docContent := "<html>...</html>";
     body := Some {| bodyElement := homeBody; innerText := "Home About Hello big world" |};
     anchors := [ "http://a.com/a" ];
     styleSheets := Sample.sheets;
     landmark := Some [ {| linkText := " Home "; hrefAttribute := Some "/a" |};
                        {| linkText := "About"; hrefAttribute := None |} ] |}.

Definition other : Document :=
  {| docTitle := "A"; docContent := "<html>a</html>";
     body := Some {| bodyElement := Sample.svgBody; innerText := "a" |};
     anchors := [ "http://a.com/" ];
     styleSheets := [];
     landmark := Some [ {| linkText := "Back"; hrefAttribute := Some "/" |} ] |}.

Definition site (url : string) : Document :=
  if String.eqb url "http://a.com/" then home else other.

End Gallery.

(** A computation that leaves the navigation as it found it, however it
    completes. *)
Definition Quiet {A : Type} (m : M A) : Prop :=
  forall s r s', m s = (r, s') -> sameNavigation s s'.

(** The part of [scrapePage] after the navigation: the page is read. *)
Definition readPage (w : World) (url : string) : M ScrapedPage :=
  title <- page_title w ;;
  html <- page_content w ;;
  screenshotBuffer <- page_screenshot w ;;
  components <- page_evaluate w extractComponents ;;
  textContent <- page_evaluate w extractVisibleText ;;
  routes <- discoverRoutes w url ;;
  ret {| url := url; title := title; html := html;
         screenshot := screenshotBuffer; components := components;
         routes := routes; textContent := textContent |}.

Definition isStrict (ev : GotoEvent) : bool :=
  match waitUntil ev with networkidle2 => true | domcontentloaded => false end.

(** The time slept by a navigation whose last load used a given policy. *)
Definition settleDelay (wait : WaitUntil) : nat :=
  match wait with
  | networkidle2 => 0
  | domcontentloaded => PAGE_LOAD_WAIT_MS
  end.

(** A computation whose loads, however it completes, all have a target that
    satisfies [P]. *)
Definition LoadsOnly {A : Type} (P : string -> Prop) (m : M A) : Prop :=
  forall s r s',
    m s = (r, s') ->
    exists new,
      gotoLog s' = gotoLog s ++ new /\ Forall (fun ev => P (target ev)) new.

(* ------------------------------------------------------------------ *)
(** ** Configuration ([config.ts]) *)
(* ------------------------------------------------------------------ *)

Module Config.

(** [process.env], once [dotenv] has filled it. *)
Definition Env : Type := string -> option string.

Record JiraConfig : Type :=
  mkJiraConfig { baseUrl : string; email : string; apiToken : string;
                 projectKey : string }.

Record AppConfig : Type :=
  mkAppConfig { openaiApiKey : string; jira : JiraConfig; outputDir : string }.

(** A string used as a condition: only the empty string is falsy. *)
Definition truthy (s : string) : bool := negb (String.eqb s "").

(** [value ?? fallback] *)
Definition orElse (value : option string) (fallback : string) : string :=
  match value with
  | Some v => v
  | None => fallback
  end.

Definition missingKey : JsThrown :=
  JsError "OPENAI_API_KEY is required. Set it in .env or as environment variable.".

Definition loadConfig (env : Env) : Completion AppConfig :=
  match env "OPENAI_API_KEY" with
  | None => Throw missingKey
  | Some openaiApiKey =>
      if truthy openaiApiKey then
        Normal {| openaiApiKey := openaiApiKey;
                  jira := {| baseUrl := orElse (env "JIRA_BASE_URL") "";
                             email := orElse (env "JIRA_EMAIL") "";
                             apiToken := orElse (env "JIRA_API_TOKEN") "";
                             projectKey := orElse (env "JIRA_PROJECT_KEY") "" |};
                  outputDir := orElse (env "OUTPUT_DIR") "./output" |}
      else Throw missingKey
  end.

Definition validateJiraConfig (config : AppConfig) : bool :=
  truthy (baseUrl (jira config)) && truthy (email (jira config))
  && truthy (apiToken (jira config)) && truthy (projectKey (jira config)).

(** A variable that is set to something other than the empty string. *)
Definition isSet (env : Env) (name : string) : Prop :=
  exists v, env name = Some v /\ v <> "".

(** An environment given as a list of settings, the first one winning. *)
Fixpoint envOf (settings : list (string * string)) : Env :=
  fun name =>
    match settings with
    | [] => None
    | (n, v) :: rest => if String.eqb name n then Some v else envOf rest name
    end.

End Config.

(* ------------------------------------------------------------------ *)
(** ** Effects in general, JSON values, the backlog types *)
(* ------------------------------------------------------------------ *)

(** State passing with exceptions over any state. *)
Module Eff.

Definition t (S A : Type) : Type := S -> Completion A * S.

Definition ret {S A} (a : A) : t S A := fun s => (Normal a, s).

Definition throw {S A} (e : JsThrown) : t S A := fun s => (Throw e, s).

Definition bind {S A B} (m : t S A) (k : A -> t S B) : t S B :=
  fun s =>
    match m s with
    | (Normal a, s') => k a s'
    | (Throw e, s') => (Throw e, s')
    end.

(** [for (const x of xs) { acc = step(acc, x) }] *)
Fixpoint forOf {S A B} (xs : list A) (acc : B) (step : B -> A -> t S B) : t S B :=
  match xs with
  | [] => ret acc
  | x :: rest => bind (step acc x) (fun acc' => forOf rest acc' step)
  end.

End Eff.

Notation "x <~ m ;; k" := (Eff.bind m (fun x => k))
  (at level 61, m at next level, right associativity).

Module Json.

(** A value as [JSON.stringify] is given it; the members of an object are
    in insertion order. Numbers are the integers. *)
Inductive t : Type :=
| Null
| Bool (b : bool)
| Number (z : Z)
| Str (s : string)
| Array (items : list t)
| Object (members : list (string * t)).

(** [object[k] = v]: overwrite in place, or append. *)
Fixpoint set (members : list (string * t)) (k : string) (v : t)
  : list (string * t) :=
  match members with
  | [] => [(k, v)]
  | (k', v') :: rest =>
      if String.eqb k k' then (k, v) :: rest else (k', v') :: set rest k v
  end.

(** [object[k]] *)
Fixpoint get (members : list (string * t)) (k : string) : option t :=
  match members with
  | [] => None
  | (k', v) :: rest => if String.eqb k k' then Some v else get rest k
  end.

End Json.

Module Subtask.
Record t : Type := mk { title : string; description : string }.
End Subtask.

Inductive Priority : Type := highest | high | medium | low | lowest.

Module UserStory.
Record t : Type :=
  mk { id : string; epic : string; title : string; description : string;
       asA : string; iWant : string; soThat : string;
       acceptanceCriteria : list string; priority : Priority;
       storyPoints : Z; labels : list string; featureId : string;
       subtasks : list Subtask.t }.
End UserStory.

Module Epic.
Record t : Type :=
  mk { name : string; description : string; stories : list UserStory.t }.
End Epic.

(* ------------------------------------------------------------------ *)
(** ** The Jira client ([JiraClient]) *)
(* ------------------------------------------------------------------ *)

Module Jira.

Module Issue.
Record t : Type := mk { key : string; id : string; self : string }.
End Issue.

Module Field.
Record Schema : Type := mkSchema { type : string; custom : option string }.
Record t : Type := mk { id : string; name : string; schema : option Schema }.
End Field.

Record CreateResponse : Type :=
  mkCreateResponse { epics : list Issue.t; stories : list Issue.t;
                     subtasks : list Issue.t }.

(** What [fetch] is called with; [body] is the value handed to
    [JSON.stringify], when there is one. *)
Record Request : Type :=
  mkRequest { url : string; method : string; headers : list (string * string);
              body : option Json.t }.

(** What comes back: a response that is [ok], with the body [resp.json()]
    gives; a response that is not, with its status and what [resp.text()]
    gives; or a [fetch], or the reading of the body, that throws. *)
Inductive Answer (T : Type) : Type :=
| Ok (payload : T)
| NotOk (status : nat) (errorText : Completion string)
| Rejected (e : JsThrown).

Arguments Ok {T} payload.
Arguments NotOk {T} status errorText.
Arguments Rejected {T} e.

(** The server and the platform. Requests are numbered as they are sent. *)
Record Server : Type :=
  mkServer {
    (** [Buffer.from(s).toString("base64")] *)
    base64 : string -> string;
    (** [new Date().toISOString().slice(0, 10)] *)
    todayISO : string;
    fieldsAnswer : nat -> Request -> Answer (list Field.t);
    issueAnswer : nat -> Request -> Answer Issue.t
  }.

(** The fields of the client, and the requests it has sent so far. *)
Record Client : Type :=
  mkClient { baseUrl : string; auth : string; projectKey : string;
             epicNameFieldId : option string;
             storyPointsFieldId : option string;
             sent : list Request }.

(** [s.replace(/\/$/, "")] *)
Fixpoint dropFinalSlash (s : string) : string :=
  match s with
  | EmptyString => EmptyString
  | String c EmptyString =>
      if Ascii.eqb c "/" then EmptyString else String c EmptyString
  | String c s' => String c (dropFinalSlash s')
  end.

Definition showNat (n : nat) : string :=
  NilZero.string_of_uint (Nat.to_uint n).

Definition mapPriority (priority : Priority) : string :=
  match priority with
  | highest => "Highest"
  | high => "High"
  | medium => "Medium"
  | low => "Low"
  | lowest => "Lowest"
  end.

(** The Atlassian document holding one paragraph of text. *)
Definition document (text : string) : Json.t :=
  Json.Object
    [ ("type", Json.Str "doc");
      ("version", Json.Number 1);
      ("content",
       Json.Array
         [ Json.Object
             [ ("type", Json.Str "paragraph");
               ("content",
                Json.Array
                  [ Json.Object [ ("type", Json.Str "text");
                                  ("text", Json.Str text) ] ]) ] ]) ].

Definition storyDescription (story : UserStory.t) : string :=
  Js.join (String "010"%char EmptyString)
    ([ ("**As a** " ++ UserStory.asA story)%string;
       ("**I want** " ++ UserStory.iWant story)%string;
       ("**So that** " ++ UserStory.soThat story)%string;
       "";
       UserStory.description story;
       "";
       "## Acceptance Criteria" ]
     ++ map (fun ac => ("- " ++ ac)%string) (UserStory.acceptanceCriteria story)).

(** [if (id) fields[id] = value] for a field id that may be [null]. *)
Definition setIfKnown (fields : list (string * Json.t)) (id : option string)
  (value : Json.t) : list (string * Json.t) :=
  match id with
  | Some k => if Config.truthy k then Json.set fields k value else fields
  | None => fields
  end.

Section WithServer.

Variable server : Server.

Definition constructor (config : Config.JiraConfig) : Client :=
  {| baseUrl := dropFinalSlash (Config.baseUrl config);
     auth := base64 server
               (Config.email config ++ ":" ++ Config.apiToken config)%string;
     projectKey := Config.projectKey config;
     epicNameFieldId := None;
     storyPointsFieldId := None;
     sent := [] |}.

Definition request {T : Type} (answer : nat -> Request -> Answer T)
  (path : string) (method : option string) (body : option Json.t)
  : Eff.t Client T :=
  fun this =>
    let req :=
      {| url := (baseUrl this ++ path)%string;
         method := Config.orElse method "GET";
         headers := [ ("Authorization", ("Basic " ++ auth this)%string);
                      ("Content-Type", "application/json");
                      ("Accept", "application/json") ];
         body := body |} in
    let this' :=
      {| baseUrl := baseUrl this; auth := auth this;
         projectKey := projectKey this;
         epicNameFieldId := epicNameFieldId this;
         storyPointsFieldId := storyPointsFieldId this;
         sent := sent this ++ [req] |} in
    match answer (List.length (sent this)) req with
    | Ok payload => (Normal payload, this')
    | NotOk status (Normal errorText) =>
        (Throw (JsError ("Jira API error (" ++ showNat status ++ "): "
                         ++ errorText)%string), this')
    | NotOk status (Throw e) => (Throw e, this')
    | Rejected e => (Throw e, this')
    end.

Definition customIncludes (field : Field.t) (part : string) : bool :=
  match Field.schema field with
  | Some schema =>
      match Field.custom schema with
      | Some custom => Js.includes custom part
      | None => false
      end
  | None => false
  end.

Definition isEpicNameField (field : Field.t) : bool :=
  String.eqb (Field.name field) "Epic Name" || customIncludes field "gh-epic-label".

Definition isStoryPointsField (field : Field.t) : bool :=
  String.eqb (Field.name field) "Story Points"
  || String.eqb (Field.name field) "Story point estimate"
  || customIncludes field "story-point".

(** The body of the loop of [initialize] for one field. *)
Definition noteField (this : Client) (field : Field.t) : Client :=
  let epicName :=
    if isEpicNameField field then Some (Field.id field)
    else epicNameFieldId this in
  let storyPoints :=
    if isStoryPointsField field then Some (Field.id field)
    else storyPointsFieldId this in
  {| baseUrl := baseUrl this; auth := auth this; projectKey := projectKey this;
     epicNameFieldId := epicName; storyPointsFieldId := storyPoints;
     sent := sent this |}.

Definition initialize : Eff.t Client unit :=
  fields <~ request (fieldsAnswer server) "/rest/api/3/field" None None ;;
  fun this => (Normal tt, fold_left noteField fields this).

Definition epicFields (this : Client) (name description : string)
  : list (string * Json.t) :=
  let fields :=
    [ ("project", Json.Object [ ("key", Json.Str (projectKey this)) ]);
      ("summary", Json.Str name);
      ("description", document description);
      ("issuetype", Json.Object [ ("name", Json.Str "Epic") ]) ] in
  let fields := setIfKnown fields (epicNameFieldId this) (Json.Str name) in
  Json.set fields "customfield_10015" (Json.Str (todayISO server)).

Definition storyFields (this : Client) (story : UserStory.t) (epicKey : string)
  : list (string * Json.t) :=
  let fields :=
    [ ("project", Json.Object [ ("key", Json.Str (projectKey this)) ]);
      ("summary", Json.Str (UserStory.title story));
      ("description", document (storyDescription story));
      ("issuetype", Json.Object [ ("name", Json.Str "Story") ]);
      ("priority",
       Json.Object [ ("name", Json.Str (mapPriority (UserStory.priority story))) ]);
      ("labels", Json.Array (map Json.Str (UserStory.labels story)));
      ("parent", Json.Object [ ("key", Json.Str epicKey) ]) ] in
  let fields :=
    setIfKnown fields (storyPointsFieldId this)
               (Json.Number (UserStory.storyPoints story)) in
  Json.set fields "customfield_10015" (Json.Str (todayISO server)).

Definition subtaskFields (this : Client) (title description parentKey : string)
  : list (string * Json.t) :=
  [ ("project", Json.Object [ ("key", Json.Str (projectKey this)) ]);
    ("summary", Json.Str title);
    ("description", document description);
    ("issuetype", Json.Object [ ("name", Json.Str "Sub-task") ]);
    ("parent", Json.Object [ ("key", Json.Str parentKey) ]);
    ("customfield_10015", Json.Str (todayISO server)) ].

Definition postIssue (fields : list (string * Json.t)) : Eff.t Client Issue.t :=
  request (issueAnswer server) "/rest/api/3/issue" (Some "POST")
          (Some (Json.Object [ ("fields", Json.Object fields) ])).

Definition createEpic (name description : string) : Eff.t Client Issue.t :=
  fun this => postIssue (epicFields this name description) this.

Definition createStory (story : UserStory.t) (epicKey : string)
  : Eff.t Client Issue.t :=
  fun this => postIssue (storyFields this story epicKey) this.

Definition createSubtask (title description parentKey : string)
  : Eff.t Client Issue.t :=
  fun this => postIssue (subtaskFields this title description parentKey) this.

Definition pushEpic (result : CreateResponse) (issue : Issue.t) : CreateResponse :=
  {| epics := epics result ++ [issue]; stories := stories result;
     subtasks := subtasks result |}.

Definition pushStory (result : CreateResponse) (issue : Issue.t) : CreateResponse :=
  {| epics := epics result; stories := stories result ++ [issue];
     subtasks := subtasks result |}.

Definition pushSubtask (result : CreateResponse) (issue : Issue.t) : CreateResponse :=
  {| epics := epics result; stories := stories result;
     subtasks := subtasks result ++ [issue] |}.

(** The loop over the subtasks of one story. *)
Definition createSubtasks (storyKey : string) (result : CreateResponse)
  (subs : list Subtask.t) : Eff.t Client CreateResponse :=
  Eff.forOf subs result
    (fun result subtask =>
       subtaskIssue <~ createSubtask (Subtask.title subtask)
                         (Subtask.description subtask) storyKey ;;
       Eff.ret (pushSubtask result subtaskIssue)).

(** The loop over the stories of one epic. *)
Definition createStories (epicKey : string) (result : CreateResponse)
  (sts : list UserStory.t) : Eff.t Client CreateResponse :=
  Eff.forOf sts result
    (fun result story =>
       storyIssue <~ createStory story epicKey ;;
       createSubtasks (Issue.key storyIssue) (pushStory result storyIssue)
                      (UserStory.subtasks story)).

Definition createAllFromEpics (eps : list Epic.t) : Eff.t Client CreateResponse :=
  _ <~ initialize ;;
  Eff.forOf eps {| epics := []; stories := []; subtasks := [] |}
    (fun result epic =>
       epicIssue <~ createEpic (Epic.name epic) (Epic.description epic) ;;
       createStories (Issue.key epicIssue) (pushEpic result epicIssue)
                     (Epic.stories epic)).

End WithServer.

End Jira.

(* ------------------------------------------------------------------ *)
(** ** Readings of the Jira client *)
(* ------------------------------------------------------------------ *)

Module JiraSpec.

Import Jira.

Definition subtaskCount (sts : list UserStory.t) : nat :=
  list_sum (map (fun story => List.length (UserStory.subtasks story)) sts).

Definition storyCount (eps : list Epic.t) : nat :=
  list_sum (map (fun epic => List.length (Epic.stories epic)) eps).

Definition allSubtaskCount (eps : list Epic.t) : nat :=
  list_sum (map (fun epic => subtaskCount (Epic.stories epic)) eps).

(** The settings of a client, that is all of it but the requests sent. *)
Definition sameSettings (this this' : Client) : Prop :=
  baseUrl this' = baseUrl this /\ auth this' = auth this
  /\ projectKey this' = projectKey this
  /\ epicNameFieldId this' = epicNameFieldId this
  /\ storyPointsFieldId this' = storyPointsFieldId this.

(** A request that creates an issue, as this client sends it. *)
Definition isIssuePost (this : Client) (req : Request) : Prop :=
  url req = (baseUrl this ++ "/rest/api/3/issue")%string
  /\ method req = "POST"
  /\ In ("Authorization", ("Basic " ++ auth this)%string) (headers req)
  /\ exists fields, body req = Some (Json.Object [("fields", Json.Object fields)]).

(** Between two states of a client, [n] requests were sent, all of them
    satisfying [P], and the settings did not change. *)
Definition Grew (P : Request -> Prop) (n : nat) (this this' : Client) : Prop :=
  sameSettings this this'
  /\ exists new,
       sent this' = sent this ++ new /\ List.length new = n /\ Forall P new.

(** How an answer that is not [ok] is thrown. *)
Definition thrownFor {T : Type} (answer : Answer T) (e : JsThrown) : Prop :=
  match answer with
  | Ok _ => False
  | NotOk status (Normal errorText) =>
      e = JsError ("Jira API error (" ++ showNat status ++ "): " ++ errorText)%string
  | NotOk _ (Throw e') => e = e'
  | Rejected e' => e = e'
  end.

Definition isOk {T : Type} (answer : Answer T) : Prop :=
  match answer with
  | Ok _ => True
  | _ => False
  end.

(** A computation that only creates issues: when it returns, every request
    it sent was answered [ok]; when it throws, the last request it sent is
    the one that was not, the ones before it were, and the error is the
    one made for that answer. Requests are numbered from the number of
    requests sent before. *)
Definition Creates (server : Server) {A : Type} (m : Eff.t Client A) : Prop :=
  forall this r this',
    m this = (r, this') ->
    exists new,
      sent this' = sent this ++ new
      /\ match r with
         | Normal _ =>
             forall i req, nth_error new i = Some req ->
               isOk (issueAnswer server (List.length (sent this) + i) req)
         | Throw e =>
             exists before last,
               new = before ++ [last]
               /\ (forall i req, nth_error before i = Some req ->
                     isOk (issueAnswer server (List.length (sent this) + i) req))
               /\ thrownFor (issueAnswer server
                               (List.length (sent this) + List.length before) last) e
         end.

(** The last of the fields that pass a test, as the loop of [initialize]
    leaves it. *)
Definition lastMatching (test : Field.t -> bool) (fields : list Field.t)
  (before : option string) : option string :=
  match lastOf (filter test fields) with
  | Some field => Some (Field.id field)
  | None => before
  end.

Definition ends_with_slash (s : string) : bool :=
  match lastOf (list_ascii_of_string s) with
  | Some c => Ascii.eqb c "/"
  | None => false
  end.

End JiraSpec.

(* ------------------------------------------------------------------ *)
(** ** Sample backlogs and servers *)
(* ------------------------------------------------------------------ *)

Module Desk.

Definition fieldList : list Jira.Field.t :=
  [ Jira.Field.mk "customfield_10011" "Epic Name" None;
    Jira.Field.mk "customfield_10016" "Story Points" None;
    Jira.Field.mk "summary" "Summary" (Some (Jira.Field.mkSchema "string" None));
    Jira.Field.mk "customfield_10099" "Epic Label"
      (Some (Jira.Field.mkSchema "string"
               (Some "com.pyxis.greenhopper.jira:gh-epic-label"))) ].

(** The issue the server makes of request number [n]. *)
Definition issueOf (n : nat) : Jira.Issue.t :=
  Jira.Issue.mk ("PG-" ++ Jira.showNat n) (Jira.showNat (10000 + n))
                ("https://x.atlassian.net/rest/api/3/issue/" ++ Jira.showNat (10000 + n)).

(** A server that answers every request. *)
Definition obliging : Jira.Server :=
  {| Jira.base64 := fun s => s;
     Jira.todayISO := "2026-01-31";
     Jira.fieldsAnswer := fun _ _ => Jira.Ok fieldList;
     Jira.issueAnswer := fun n _ => Jira.Ok (issueOf n) |}.

(** A server that refuses the fourth request. *)
Definition refusingFourth : Jira.Server :=
  {| Jira.base64 := fun s => s;
     Jira.todayISO := "2026-01-31";
     Jira.fieldsAnswer := fun _ _ => Jira.Ok fieldList;
     Jira.issueAnswer :=
       fun n _ => if (n =? 3)%nat
                  then Jira.NotOk 400 (Normal "project is required")
                  else Jira.Ok (issueOf n) |}.

Definition story (id title : string) (subs : list Subtask.t) : UserStory.t :=
  UserStory.mk id "Checkout" title "Details" "shopper" "to pay" "I get my goods"
               ["Given a cart, When I pay, Then I see a receipt"]
               high 3%Z ["frontend"] "F-001" subs.

Definition backlog : list Epic.t :=
  [ Epic.mk "Checkout" "Paying for a cart"
      [ story "US-001" "Pay by card"
          [ Subtask.mk "Form" "Card form"; Subtask.mk "API" "Charge call" ];
        story "US-002" "See receipt" [] ];
    Epic.mk "Account" "Managing the account" [] ].

Definition config : Config.JiraConfig :=
  Config.mkJiraConfig "https://x.atlassian.net/" "a@x.io" "t" "PG".

End Desk.


(* ------------------------------------------------------------------ *)
(** ** JSON text *)
(* ------------------------------------------------------------------ *)

Module JsonText.

Definition quotationMark : ascii := "034"%char.
Definition reverseSolidus : ascii := "092"%char.

(** A quotation mark, and a line feed. *)
Definition dq : string := String quotationMark "".
Definition nl : string := String "010"%char "".

(** A text between quotation marks, as a template writes it. *)
Definition q (s : string) : string := (dq ++ s ++ dq)%string.

Definition hexDigit (n : nat) : ascii :=
  nth n [ "0"; "1"; "2"; "3"; "4"; "5"; "6"; "7"; "8"; "9";
          "a"; "b"; "c"; "d"; "e"; "f" ]%char "0"%char.

(** How a quoted JSON string writes one code unit: the two-character
    escapes, [\u00xx] for the other control characters, the code unit
    itself otherwise. *)
Definition escape (c : ascii) : string :=
  let n := nat_of_ascii c in
  if (n =? 8)%nat then "\b"
  else if (n =? 9)%nat then "\t"
  else if (n =? 10)%nat then "\n"
  else if (n =? 12)%nat then "\f"
  else if (n =? 13)%nat then "\r"
  else if (n =? 34)%nat then String reverseSolidus dq
  else if (n =? 92)%nat then "\\"
  else if (n <? 32)%nat
       then ("\u00" ++ String (hexDigit (n / 16))
                         (String (hexDigit (n mod 16)) ""))%string
  else String c "".

Fixpoint escapes (s : string) : string :=
  match s with
  | EmptyString => EmptyString
  | String c s' => (escape c ++ escapes s')%string
  end.

Definition quote (s : string) : string := (dq ++ escapes s ++ dq)%string.

Definition showZ (z : Z) : string :=
  if (z <? 0)%Z then ("-" ++ Jira.showNat (Z.to_nat (- z)))%string
  else Jira.showNat (Z.to_nat z).

(** The text of a value, with [gap] as one level of indentation and
    [indent] the indentation reached; an empty [gap] writes no line breaks. *)
Fixpoint serialize (gap indent : string) (v : Json.t) : string :=
  let stepback := indent in
  let indent := (indent ++ gap)%string in
  let separator :=
    if String.eqb gap "" then "," else ("," ++ nl ++ indent)%string in
  let wrap (opening closing : string) (partial : list string) : string :=
    match partial with
    | [] => (opening ++ closing)%string
    | _ =>
        if String.eqb gap ""
        then (opening ++ Js.join separator partial ++ closing)%string
        else (opening ++ nl ++ indent ++ Js.join separator partial
              ++ nl ++ stepback ++ closing)%string
    end in
  match v with
  | Json.Null => "null"
  | Json.Bool true => "true"
  | Json.Bool false => "false"
  | Json.Number z => showZ z
  | Json.Str s => quote s
  | Json.Array items => wrap "[" "]" (map (serialize gap indent) items)
  | Json.Object members =>
      wrap "{" "}"
           (map (fun member =>
                   (quote (fst member)
                    ++ (if String.eqb gap "" then ":" else ": ")
                    ++ serialize gap indent (snd member))%string)
                members)
  end.

(** [JSON.stringify(value, null, space)] with a number for [space]: the gap
    is that many spaces, ten at most. *)
Definition stringify (v : Json.t) (space : nat) : string :=
  serialize (replicate (Nat.min 10 space) " "%char) "" v.

End JsonText.

(* ------------------------------------------------------------------ *)
(** ** The generated project (generators/code.ts) *)
(* ------------------------------------------------------------------ *)

Module GeneratedFile.
Record t : Type := mk { path : string; content : string; description : string }.
End GeneratedFile.

Module GeneratedProject.
Record t : Type :=
  mk { files : list GeneratedFile.t; setupInstructions : string }.
End GeneratedProject.

Module Code.

Import JsonText.

Definition strings (xs : list string) : Json.t := Json.Array (map Json.Str xs).

Definition entries (xs : list (string * string)) : Json.t :=
  Json.Object (map (fun kv => (fst kv, Json.Str (snd kv))) xs).

Definition getScaffoldFiles : list GeneratedFile.t :=
  [ {| GeneratedFile.path := "package.json";
       GeneratedFile.description := "Project dependencies";
       GeneratedFile.content :=
         stringify
           (Json.Object
              [ ("name", Json.Str "generated-app");
                ("version", Json.Str "0.1.0");
                ("private", Json.Bool true);
                ("type", Json.Str "module");
                ("scripts",
                 entries [ ("dev", "vite");
                           ("build", "vue-tsc && vite build");
                           ("preview", "vite preview") ]);
                ("dependencies",
                 entries [ ("vue", "^3.5.13");
                           ("vue-router", "^4.5.0");
                           ("pinia", "^2.3.0");
                           ("primevue", "^4.3.1");
                           ("primeicons", "^7.0.0");
                           ("@primevue/themes", "^4.3.1") ]);
                ("devDependencies",
                 entries [ ("@vitejs/plugin-vue", "^5.2.1");
                           ("typescript", "^5.7.3");
                           ("vue-tsc", "^2.2.0");
                           ("vite", "^6.1.0");
                           ("tailwindcss", "^3.4.17");
                           ("autoprefixer", "^10.4.20");
                           ("postcss", "^8.4.49") ]) ])
           2 |};
    {| GeneratedFile.path := "vite.config.ts";
       GeneratedFile.description := "Vite configuration";
       GeneratedFile.content :=
         Js.join nl
        [ "import { defineConfig } from 'vite'";
          "import vue from '@vitejs/plugin-vue'";
          "";
          "export default defineConfig({";
          "  plugins: [vue()],";
          "  resolve: {";
          "    alias: {";
          "      '@': '/src',";
          "    },";
          "  },";
          "})";
          "" ] |};
    {| GeneratedFile.path := "tsconfig.json";
       GeneratedFile.description := "TypeScript configuration";
       GeneratedFile.content :=
         stringify
           (Json.Object
              [ ("compilerOptions",
                 Json.Object
                   [ ("target", Json.Str "ES2020");
                     ("useDefineForClassFields", Json.Bool true);
                     ("module", Json.Str "ESNext");
                     ("lib", strings [ "ES2020"; "DOM"; "DOM.Iterable" ]);
                     ("skipLibCheck", Json.Bool true);
                     ("moduleResolution", Json.Str "bundler");
                     ("allowImportingTsExtensions", Json.Bool true);
                     ("isolatedModules", Json.Bool true);
                     ("moduleDetection", Json.Str "force");
                     ("noEmit", Json.Bool true);
                     ("jsx", Json.Str "preserve");
                     ("strict", Json.Bool true);
                     ("noUnusedLocals", Json.Bool true);
                     ("noUnusedParameters", Json.Bool true);
                     ("noFallthroughCasesInSwitch", Json.Bool true);
                     ("paths", Json.Object [ ("@/*", strings [ "./src/*" ]) ]) ]);
                ("include",
                 strings [ "src/**/*.ts"; "src/**/*.tsx"; "src/**/*.vue" ]) ])
           2 |};
    {| GeneratedFile.path := "index.html";
       GeneratedFile.description := "HTML entry point";
       GeneratedFile.content :=
         Js.join nl
        [ "<!DOCTYPE html>";
          ("<html lang=" ++ q "en" ++ ">")%string;
          "  <head>";
          ("    <meta charset=" ++ q "UTF-8" ++ " />")%string;
          ("    <link rel=" ++ q "icon" ++ " type=" ++ q "image/svg+xml"
           ++ " href=" ++ q "/vite.svg" ++ " />")%string;
          ("    <meta name=" ++ q "viewport" ++ " content="
           ++ q "width=device-width, initial-scale=1.0" ++ " />")%string;
          "    <title>Generated App</title>";
          "  </head>";
          "  <body>";
          ("    <div id=" ++ q "app" ++ "></div>")%string;
          ("    <script type=" ++ q "module" ++ " src=" ++ q "/src/main.ts"
           ++ "></script>")%string;
          "  </body>";
          "</html>";
          "" ] |};
    {| GeneratedFile.path := "src/main.ts";
       GeneratedFile.description := "Application entry point with PrimeVue setup";
       GeneratedFile.content :=
         Js.join nl
        [ "import { createApp } from 'vue'";
          "import { createPinia } from 'pinia'";
          "import PrimeVue from 'primevue/config'";
          "import Aura from '@primevue/themes/aura'";
          "import router from './router'";
          "import App from './App.vue'";
          "";
          "import 'primeicons/primeicons.css'";
          "";
          "const app = createApp(App)";
          "";
          "app.use(createPinia())";
          "app.use(router)";
          "app.use(PrimeVue, {";
          "  theme: {";
          "    preset: Aura,";
          "  },";
          "})";
          "";
          "app.mount('#app')";
          "" ] |};
    {| GeneratedFile.path := "env.d.ts";
       GeneratedFile.description := "TypeScript env declarations";
       GeneratedFile.content :=
         Js.join nl
        [ ("/// <reference types=" ++ q "vite/client" ++ " />")%string;
          "" ] |} ].

(** What the disk is asked to do: [mkdir(path, { recursive: true })] and
    [writeFile(path, data, "utf-8")]. *)
Inductive FsOp : Type :=
| Mkdir (path : string)
| WriteFile (path data : string).

(** The disk: whether the operation asked of it after [n] others is
    refused, and with what error. *)
Definition Disk : Type := nat -> FsOp -> option JsThrown.

(** The state is the list of the operations asked so far, a refused one
    included. *)
Definition perform (disk : Disk) (op : FsOp) : Eff.t (list FsOp) unit :=
  fun asked =>
    match disk (List.length asked) op with
    | None => (Normal tt, asked ++ [op])
    | Some e => (Throw e, asked ++ [op])
    end.

(** One line of the project structure in the README. *)
Definition structureLine (f : GeneratedFile.t) : string :=
  ("- `" ++ GeneratedFile.path f ++ "`: " ++ GeneratedFile.description f)%string.

Section WithDisk.

(** [JSON.parse(text) as GeneratedFile[]]: the value of the text at the type
    the code asserts of it, [None] when the text is not JSON and the parser
    throws. *)
Variable JSON_parse : string -> option (list GeneratedFile.t).

(** [join] and [dirname] of the [path] module. *)
Variable join : string -> string -> string.
Variable dirname : string -> string.

Variable disk : Disk.

Definition mkdir (path : string) : Eff.t (list FsOp) unit :=
  perform disk (Mkdir path).

Definition writeFile (path data : string) : Eff.t (list FsOp) unit :=
  perform disk (WriteFile path data).

Definition writeGeneratedProject (filesJson outputDir : string)
  : Eff.t (list FsOp) GeneratedProject.t :=
  let codeDir := join outputDir "code" in
  _ <~ mkdir codeDir ;;
  let files :=
    match JSON_parse filesJson with
    | Some files => files
    | None =>
        [ {| GeneratedFile.path := "src/App.vue";
             GeneratedFile.content := filesJson;
             GeneratedFile.description := "Generated application code" |} ]
    end in
  let scaffoldFiles := getScaffoldFiles in
  let existingPaths := Js.spreadSet (map GeneratedFile.path files) in
  let files :=
    fold_left (fun files sf =>
                 if negb (Js.has existingPaths (GeneratedFile.path sf))
                 then files ++ [sf] else files)
              scaffoldFiles files in
  _ <~ Eff.forOf files tt
         (fun _ file =>
            let fullPath := join codeDir (GeneratedFile.path file) in
            _ <~ mkdir (dirname fullPath) ;;
            writeFile fullPath (GeneratedFile.content file)) ;;
  let setupInstructions :=
    Js.join nl
      [ "# Generated Vue 3 + PrimeVue Project";
        "";
        "## Setup";
        "";
        "```bash";
        ("cd " ++ codeDir)%string;
        "npm install";
        "npm run dev";
        "```";
        "";
        "## Project Structure";
        "";
        Js.join nl (map structureLine files);
        "" ] in
  let readmePath := join codeDir "README.md" in
  _ <~ writeFile readmePath setupInstructions ;;
  Eff.ret {| GeneratedProject.files := files;
             GeneratedProject.setupInstructions := setupInstructions |}.

End WithDisk.

End Code.

Module CodeSpec.

Section Plan.

Variable JSON_parse : string -> option (list GeneratedFile.t).
Variable join : string -> string -> string.
Variable dirname : string -> string.

(** The files the project starts from: the parsed ones, or the raw text as
    one component. *)
Definition provided (filesJson : string) : list GeneratedFile.t :=
  match JSON_parse filesJson with
  | Some files => files
  | None => [ GeneratedFile.mk "src/App.vue" filesJson "Generated application code" ]
  end.

(** What writing one file asks of the disk. *)
Definition fileOps (codeDir : string) (f : GeneratedFile.t) : list Code.FsOp :=
  [ Code.Mkdir (dirname (join codeDir (GeneratedFile.path f)));
    Code.WriteFile (join codeDir (GeneratedFile.path f)) (GeneratedFile.content f) ].

(** What writing a whole project asks of the disk. *)
Definition plan (outputDir : string) (project : GeneratedProject.t)
  : list Code.FsOp :=
  let codeDir := join outputDir "code" in
  Code.Mkdir codeDir
  :: flat_map (fileOps codeDir) (GeneratedProject.files project)
  ++ [ Code.WriteFile (join codeDir "README.md")
                      (GeneratedProject.setupInstructions project) ].

End Plan.

Definition paths (files : list GeneratedFile.t) : list string :=
  map GeneratedFile.path files.

(** The disk refused [op], asked after [before]. *)
Definition refusedAt (disk : Code.Disk) (asked before : list Code.FsOp)
           (op : Code.FsOp) (e : JsThrown) : Prop :=
  disk (List.length (asked ++ before)) op = Some e.

End CodeSpec.

Module Studio.

(** A path library for paths that need no normalising. *)
Definition join (a b : string) : string := (a ++ "/" ++ b)%string.

Fixpoint dirname (p : string) : string :=
  match p with
  | EmptyString => EmptyString
  | String c rest =>
      if Js.includes rest "/" then String c (dirname rest) else EmptyString
  end.

Definition appVue : GeneratedFile.t :=
  GeneratedFile.mk "src/App.vue" "<template><router-view /></template>" "Root component".

Definition ownIndex : GeneratedFile.t :=
  GeneratedFile.mk "index.html" "<!DOCTYPE html><title>Shop</title>" "Entry page".

(** A parser that knows one text. *)
Definition parse (text : string) : option (list GeneratedFile.t) :=
  if String.eqb text "[two files]" then Some [ appVue; ownIndex ] else None.

Definition sound : Code.Disk := fun _ _ => None.


End Studio.


(* ------------------------------------------------------------------ *)
(** ** The analyzer (analyzer/claude.ts) *)
(* ------------------------------------------------------------------ *)

Module Anthropic.

(** A block of a message sent: a text, or an image given as base64 data
    ([source: { type: "base64", media_type, data }]). *)
Inductive ContentBlockParam : Type :=
| TextParam (text : string)
| ImageParam (media_type data : string).

(** The content of a message sent: a string or a list of blocks. *)
Inductive Content : Type :=
| Plain (text : string)
| Blocks (blocks : list ContentBlockParam).

Record MessageParam : Type :=
  mkMessageParam { role : string; content : Content }.

Record Params : Type :=
  mkParams { model : string; max_tokens : nat; messages : list MessageParam }.

(** A block of a reply: a text, or a block of another type. *)
Inductive ContentBlock : Type :=
| TextBlock (text : string)
| OtherBlock (type : string).

Record Message : Type := mkMessage { replyContent : list ContentBlock }.

(** The service: its answer to the request sent after [n] others. *)
Definition Service : Type := nat -> Params -> Completion Message.

(** [client.messages.create(params)]; the state is the list of the
    requests sent so far. *)
Definition create (service : Service) (params : Params)
  : Eff.t (list Params) Message :=
  fun sent => (service (List.length sent) params, sent ++ [params]).

End Anthropic.

Module Analyzer.

Import JsonText.

Definition MODEL : string := "claude-sonnet-4-20250514".


(** [response.content[0].type === "text" ? response.content[0].text : ""];
    reading [type] of a missing first block is a [TypeError]. *)
Definition firstText (response : Anthropic.Message) : Eff.t (list Anthropic.Params) string :=
  match Anthropic.replyContent response with
  | [] => Eff.throw (JsError "Cannot read properties of undefined (reading 'type')")
  | Anthropic.TextBlock text :: _ => Eff.ret text
  | Anthropic.OtherBlock _ :: _ => Eff.ret ""
  end.





Definition pageContext (p : ScrapedPage) : string :=
  ("Page " ++ dq ++ title p ++ dq ++ ": " ++ Js.slice0 2000 (textContent p))%string.

Definition codePrompt (prd : Json.t) (app : ScrapedApp) : string :=
  let pagesContext := Js.join (nl ++ nl)%string (map pageContext (pages app)) in
  Js.join nl
    [ "You are a senior Vue.js developer. Generate a Vue 3 + PrimeVue project structure based on the following PRD and app analysis.";
      "";
      "PRD:";
      stringify prd 2;
      "";
      "App pages context:";
      pagesContext;
      "";
      "Generate a JSON array of files for a Vue 3 project using:";
      "- Vue 3 with Composition API and <script setup>";
      "- PrimeVue 4 as the component library";
      "- Vue Router for navigation";
      "- Pinia for state management";
      "- TypeScript";
      "";
      "Each file should be:";
      "[";
      "  {";
      ("    " ++ q "path" ++ ": " ++ q "src/components/ExampleComponent.vue"
       ++ ",")%string;
      ("    " ++ q "content" ++ ": " ++ q "full file content here" ++ ",")%string;
      ("    " ++ q "description" ++ ": " ++ q "What this file does")%string;
      "  }";
      "]";
      "";
      "Include:";
      "1. Main App.vue with router-view";
      "2. Router configuration matching the app's navigation";
      "3. Vue components for each screen/feature";
      "4. Pinia stores for state management";
      "5. TypeScript interfaces for data models";
      "6. PrimeVue component usage (DataTable, Dialog, Button, InputText, etc.)";
      "";
      "Use PrimeVue's unstyled mode with Tailwind CSS for custom styling.";
      "";
      "Respond ONLY with the JSON array, no markdown fences." ].

Section WithService.

Variable client : Anthropic.Service.

(** [JSON.parse]: the value of a text, or the [SyntaxError] thrown. A [PRD]
    is kept as the value parsed, which is what [JSON.stringify] is given
    later. *)
Variable JSON_parse : string -> Completion Json.t.

Definition parse (text : string) : Eff.t (list Anthropic.Params) Json.t :=
  fun sent => (JSON_parse text, sent).


Definition generateVueCode (prd : Json.t) (app : ScrapedApp)
  : Eff.t (list Anthropic.Params) string :=
  response <~ Anthropic.create client
                {| Anthropic.model := MODEL;
                   Anthropic.max_tokens := 8192;
                   Anthropic.messages :=
                     [ {| Anthropic.role := "user";
                          Anthropic.content := Anthropic.Plain (codePrompt prd app) |} ] |} ;;
  firstText response.

End WithService.

End Analyzer.

Module AnalyzerSpec.

(** A request of one user message. *)
Definition userMessage (content : Anthropic.Content) : Anthropic.Params :=
  {| Anthropic.model := Analyzer.MODEL;
     Anthropic.max_tokens := 8192;
     Anthropic.messages :=
       [ {| Anthropic.role := "user"; Anthropic.content := content |} ] |}.



(** What [generateVueCode] lets through of the pages: each title, and the
    first 2000 code units of each text. *)
Definition digest (app : ScrapedApp) : list (string * string) :=
  map (fun p => (title p, Js.slice0 2000 (textContent p))) (pages app).

End AnalyzerSpec.

Module Booth.

Definition page (n : string) (shot : string) : ScrapedPage :=
  mkScrapedPage ("http://a.com/" ++ n) n "<html></html>" shot [] [] ("Text of " ++ n).

(** Seven pages; the second has no screenshot. *)
Definition sevenPages : ScrapedApp :=
  mkScrapedApp "http://a.com"
    [ page "1" "iVBOR1"; page "2" ""; page "3" "iVBOR3"; page "4" "iVBOR4";
      page "5" "iVBOR5"; page "6" "iVBOR6"; page "7" "iVBOR7" ]
    [ mkNavigationItem "Home" "/" ] "".

Definition wordy (n : nat) : ScrapedApp :=
  mkScrapedApp "http://a.com"
    [ mkScrapedPage "http://a.com/" "Home" "<html></html>" "" [] []
                    (replicate n "x"%char) ]
    [] "".

Definition prd : Json.t := Json.Object [ ("title", Json.Str "Shop") ].

(** A service that answers with a block that is no text. *)
Definition curt : Anthropic.Service :=
  fun _ _ => Normal (Anthropic.mkMessage [ Anthropic.OtherBlock "tool_use" ]).

(** A service that answers with a text. *)
Definition chatty : Anthropic.Service :=
  fun _ _ => Normal (Anthropic.mkMessage [ Anthropic.TextBlock "{}" ]).

(** A parser that knows the empty object. *)
Definition parse (text : string) : Completion Json.t :=
  if String.eqb text "{}" then Normal (Json.Object [])
  else Throw (JsError "Unexpected end of JSON input").

End Booth.

(* ------------------------------------------------------------------ *)
(** ** The component tree against the DOM tree *)
(* ------------------------------------------------------------------ *)



Module Attic.


End Attic.

(* ------------------------------------------------------------------ *)
(** ** Parents and children among the issues *)
(* ------------------------------------------------------------------ *)

Module JiraLinks.

Import Jira.

(** The key an object of fields names as the parent of the issue, when it
    names one: [fields.parent.key]. *)
Definition parentIn (fields : list (string * Json.t)) : option string :=
  match Json.get fields "parent" with
  | Some (Json.Object parent) =>
      match Json.get parent "key" with
      | Some (Json.Str k) => Some k
      | _ => None
      end
  | _ => None
  end.

(** The parent a request names: [body.fields.parent.key]. *)
Definition parentKeyOf (req : Request) : option string :=
  match body req with
  | Some (Json.Object members) =>
      match Json.get members "fields" with
      | Some (Json.Object fields) => parentIn fields
      | _ => None
      end
  | _ => None
  end.

(** The keys of the issues the server made of the requests [reqs], sent
    after [n] others, in order. *)
Fixpoint returned (server : Server) (n : nat) (reqs : list Request) : list string :=
  match reqs with
  | [] => []
  | req :: rest =>
      match issueAnswer server n req with
      | Ok issue => Issue.key issue :: returned server (S n) rest
      | _ => returned server (S n) rest
      end
  end.

(** Every parent named in [reqs] is one of [known], or the key of an issue
    the server made of an earlier request of [reqs]. *)
Fixpoint linkedFrom (server : Server) (n : nat) (known : list string)
         (reqs : list Request) : Prop :=
  match reqs with
  | [] => True
  | req :: rest =>
      (forall k, parentKeyOf req = Some k -> In k known)
      /\ linkedFrom server (S n) (known ++ returned server n [req]) rest
  end.

End JiraLinks.

(* ------------------------------------------------------------------ *)
(** ** Strings: what the primitives compute *)
(* ------------------------------------------------------------------ *)



Lemma slice0_length (n : nat) (s : string) :
  String.length (Js.slice0 n s) = Nat.min n (String.length s).
Proof.
  revert s; induction n as [|n IH]; intros [|c s]; simpl; try reflexivity.
  now rewrite IH.
Qed.

Lemma slice0_prefix (n : nat) (s : string) :
  exists rest, s = (Js.slice0 n s ++ rest)%string.
Proof.
  revert s; induction n as [|n IH]; intros s.
  - exists s. now destruct s.
  - destruct s as [|c s]; simpl.
    + now exists EmptyString.
    + destruct (IH s) as [rest H]. exists rest. now rewrite <- H.
Qed.

Lemma slice0_short (n : nat) (s : string) :
  String.length s <= n -> Js.slice0 n s = s.
Proof.
  revert s; induction n as [|n IH]; intros [|c s]; simpl; intros H;
    try reflexivity; try lia.
  rewrite IH; [reflexivity | lia].
Qed.

Lemma append_empty_r (s : string) : (s ++ "")%string = s.
Proof. induction s; simpl; congruence. Qed.

Lemma append_assoc (a b c : string) :
  ((a ++ b) ++ c)%string = (a ++ b ++ c)%string.
Proof. induction a; simpl; congruence. Qed.

(* ------------------------------------------------------------------ *)
(** ** Sets: spreading a [Set] keeps first occurrences *)
(* ------------------------------------------------------------------ *)

Lemma has_In (set : list string) (x : string) :
  Js.has set x = true <-> In x set.
Proof.
  unfold Js.has. rewrite existsb_exists. split.
  - intros [y [Hin Heq]]. apply String.eqb_eq in Heq. now subst.
  - intros H. exists x. split; [assumption | apply String.eqb_refl].
Qed.

Lemma firsts_ext (seen seen' l : list string) :
  (forall x, In x seen <-> In x seen') -> firsts seen l = firsts seen' l.
Proof.
  revert seen seen'; induction l as [|x l IH]; intros seen seen' H; simpl.
  - reflexivity.
  - assert (E : existsb (String.eqb x) seen = existsb (String.eqb x) seen').
    { apply eq_true_iff_eq. fold (Js.has seen x) (Js.has seen' x).
      now rewrite !has_In. }
    rewrite E. destruct (existsb (String.eqb x) seen').
    + now apply IH.
    + f_equal. apply IH. intros y; simpl. now rewrite H.
Qed.

Lemma fold_add_firsts (xs acc : list string) :
  fold_left Js.add xs acc = acc ++ firsts acc xs.
Proof.
  revert acc; induction xs as [|x xs IH]; intros acc; simpl.
  - now rewrite app_nil_r.
  - rewrite IH. unfold Js.add, Js.has.
    destruct (existsb (String.eqb x) acc) eqn:E.
    + reflexivity.
    + rewrite <- app_assoc. simpl. do 2 f_equal.
      apply firsts_ext. intros y. rewrite in_app_iff. simpl. tauto.
Qed.

Lemma spreadSet_first_occurrences (xs : list string) :
  Js.spreadSet xs = first_occurrences xs.
Proof. unfold Js.spreadSet. now rewrite fold_add_firsts. Qed.

Lemma firsts_In (seen l : list string) (x : string) :
  In x (firsts seen l) <-> In x l /\ ~ In x seen.
Proof.
  revert seen; induction l as [|y l IH]; intros seen; simpl.
  - tauto.
  - destruct (existsb (String.eqb y) seen) eqn:E.
    + fold (Js.has seen y) in E. apply has_In in E. rewrite IH.
      split; [tauto|]. intros [[-> | H] Hn]; [contradiction | tauto].
    + assert (Hy : ~ In y seen).
      { intros H. apply has_In in H. unfold Js.has in H. congruence. }
      simpl. rewrite IH. simpl.
      destruct (String.eqb_spec y x) as [-> | Hne]; [tauto|].
      split; [intros [H | H]; tauto | intros [[H | H] Hn]; tauto].
Qed.

Lemma firsts_NoDup (seen l : list string) : NoDup (firsts seen l).
Proof.
  revert seen; induction l as [|y l IH]; intros seen; simpl.
  - constructor.
  - destruct (existsb (String.eqb y) seen); [apply IH|].
    constructor; [|apply IH].
    rewrite firsts_In. simpl. tauto.
Qed.


(* ------------------------------------------------------------------ *)
(** ** Loops that push onto an array *)
(* ------------------------------------------------------------------ *)

Lemma fold_push {A B : Type} (keep : A -> bool) (item : A -> B)
      (xs : list A) (acc : list B) :
  fold_left (fun acc x => if keep x then acc ++ [item x] else acc) xs acc
  = acc ++ map item (filter keep xs).
Proof.
  revert acc; induction xs as [|x xs IH]; intros acc; simpl.
  - now rewrite app_nil_r.
  - rewrite IH. destruct (keep x); simpl; [|reflexivity].
    now rewrite <- app_assoc.
Qed.

Lemma collectLinks_filter (orig : string) (doc : Document) :
  collectLinks orig doc = filter (admitted orig) (anchors doc).
Proof.
  unfold collectLinks.
  rewrite (fold_push (admitted orig) (fun h => h)). simpl. apply map_id.
Qed.





(* ------------------------------------------------------------------ *)
(** ** Style extraction *)
(* ------------------------------------------------------------------ *)





(* ------------------------------------------------------------------ *)
(** ** Component extraction *)
(* ------------------------------------------------------------------ *)

Lemma concat_empty_cons (x : string) (xs : list string) :
  String.concat "" (x :: xs) = (x ++ String.concat "" xs)%string.
Proof.
  destruct xs as [|y ys]; simpl; [now rewrite append_empty_r | reflexivity].
Qed.

Lemma collectDirectText_from (nodes : list (Dom.ChildNode Dom.Element)) (acc : string) :
  fold_left (fun directText node =>
               match node with
               | Dom.TextChild t => (directText ++ Js.trim t)%string
               | _ => directText
               end) nodes acc
  = (acc ++ String.concat ""
       (map Js.trim
          (flat_map (fun n => match n with Dom.TextChild t => [t] | _ => [] end)
                    nodes)))%string.
Proof.
  revert acc; induction nodes as [|node nodes IH]; intros acc.
  - simpl. now rewrite append_empty_r.
  - cbn [fold_left flat_map]. rewrite IH. destruct node as [e | t | t]; try reflexivity.
    cbn [app map]. now rewrite concat_empty_cons, append_assoc.
Qed.

Lemma collectDirectText_direct (el : Dom.Element) :
  collectDirectText (Dom.childNodes el) = directTextOf el.
Proof.
  unfold collectDirectText, directTextOf, directTextNodes.
  now rewrite collectDirectText_from.
Qed.

(** The recursive extractor, one level unfolded. *)
Lemma extractComponent_eq (el : Dom.Element) :
  extractComponent el =
  if isFilteredTag (Dom.tagName el) then None
  else Some {| tag := Js.toLowerCase (Dom.tagName el);
               classes := Dom.classList el;
               text := Js.slice0 200 (directTextOf el);
               attributes := collectAttrs (Dom.attributes el);
               children := extractedOf (Dom.children el) |}.
Proof.
  destruct el as [tagName attrs classList nodes]. cbn [extractComponent Dom.tagName
    Dom.attributes Dom.classList Dom.childNodes].
  destruct (isFilteredTag tagName); [reflexivity|].
  rewrite <- collectDirectText_direct. cbn [Dom.childNodes].
  do 2 f_equal. unfold extractedOf, Dom.children. cbn [Dom.childNodes].
  induction nodes as [|node nodes IH]; [reflexivity|].
  destruct node as [child | t | t]; cbn [flat_map app]; try exact IH.
  destruct (extractComponent child); cbn [flat_map app]; now rewrite IH.
Qed.

Lemma extractEach_extractedOf (els : list Dom.Element) :
  extractEach els = extractedOf els.
Proof.
  unfold extractEach, extractedOf.
  assert (G : forall acc,
             fold_left (fun acc child =>
                          match extractComponent child with
                          | Some extracted => acc ++ [extracted]
                          | None => acc
                          end) els acc
             = acc ++ flat_map (fun el => match extractComponent el with
                                          | Some c => [c]
                                          | None => []
                                          end) els).
  { induction els as [|el els IH]; intros acc; simpl.
    - now rewrite app_nil_r.
    - rewrite IH. destruct (extractComponent el); simpl; [|reflexivity].
      now rewrite <- app_assoc. }
  apply G.
Qed.


(* ------------------------------------------------------------------ *)
(** ** Trimming *)
(* ------------------------------------------------------------------ *)

Lemma trimStart_spec (s : string) :
  exists ws, s = (ws ++ Js.trimStart s)%string /\ allWhite ws = true
             /\ startsWhite (Js.trimStart s) = false.
Proof.
  induction s as [|c s [ws [E [W N]]]]; cbn [Js.trimStart].
  - now exists EmptyString.
  - destruct (Js.isWhiteSpace c) eqn:Wc.
    + exists (String c ws). cbn [append allWhite].
      split; [now rewrite <- E | split; [now rewrite Wc, W | assumption]].
    + exists EmptyString. cbn [append allWhite startsWhite]. auto.
Qed.

Lemma trimEnd_spec (s : string) :
  exists ws, s = (Js.trimEnd s ++ ws)%string /\ allWhite ws = true
             /\ endsWhite (Js.trimEnd s) = false.
Proof.
  induction s as [|c s [ws [E [W N]]]]; cbn [Js.trimEnd].
  - now exists EmptyString.
  - destruct (Js.trimEnd s) as [|d t] eqn:T.
    + destruct (Js.isWhiteSpace c) eqn:Wc.
      * exists (String c ws). cbn [append allWhite endsWhite] in *.
        split; [now rewrite <- E | split; [now rewrite Wc, W | reflexivity]].
      * exists ws. cbn [append allWhite endsWhite] in *.
        split; [now rewrite <- E | split; assumption].
    + exists ws. cbn [append] in *.
      split; [now rewrite <- E | split; [assumption|]].
      cbn [endsWhite] in *. exact N.
Qed.

Lemma trimEnd_keeps_start (s : string) :
  startsWhite s = false -> startsWhite (Js.trimEnd s) = false.
Proof.
  destruct s as [|c s]; cbn [Js.trimEnd startsWhite]; [reflexivity|]. intros H.
  destruct (Js.trimEnd s); [rewrite H|]; cbn [startsWhite]; auto.
Qed.

(** [trim] takes white space off both ends and nothing else. *)
Lemma trim_spec (s : string) :
  exists front back,
    s = (front ++ Js.trim s ++ back)%string
    /\ allWhite front = true /\ allWhite back = true
    /\ startsWhite (Js.trim s) = false /\ endsWhite (Js.trim s) = false.
Proof.
  unfold Js.trim.
  destruct (trimStart_spec s) as [front [E1 [W1 N1]]].
  destruct (trimEnd_spec (Js.trimStart s)) as [back [E2 [W2 N2]]].
  exists front, back. rewrite <- E2, <- E1.
  repeat split; auto using trimEnd_keeps_start.
Qed.

(** C10. The direct text is the trimmed text nodes, each trimmed on its own
    and set one after the other with nothing between them; around a child
    element the two neighbouring text nodes lose the white space that
    separated them. *)
Theorem directText_trims_each_node (el : Dom.Element) (c : ComponentData) :
  extractComponent el = Some c ->
  text c = Js.slice0 200 (String.concat "" (map Js.trim (directTextNodes el)))
  /\ forall a mid b,
       Dom.childNodes el = [Dom.TextChild a; Dom.ElementChild mid; Dom.TextChild b] ->
       text c = Js.slice0 200 (Js.trim a ++ Js.trim b)%string.
Proof.
  rewrite extractComponent_eq.
  destruct (isFilteredTag (Dom.tagName el)); [discriminate|].
  intros H.
  assert (Ht : text c = Js.slice0 200 (directTextOf el)).
  { apply (f_equal (option_map text)) in H. cbn [option_map text] in H.
    now injection H. }
  clear H. rewrite Ht. split; [reflexivity|].
  intros a mid b Hnodes. unfold directTextOf, directTextNodes. rewrite Hnodes.
  reflexivity.
Qed.

(** [<p>Hello <b>big</b> world</p>] gives [Helloworld]. *)
Lemma directText_trims_each_node_witness :
  extractComponent Sample.hello <> None
  /\ option_map text (extractComponent Sample.hello) = Some "Helloworld".
Proof.
  destruct (extractComponent Sample.hello) as [c|] eqn:E; [|discriminate E].
  split; [discriminate|].
  destruct (directText_trims_each_node Sample.hello E) as [_ H].
  simpl. f_equal.
  exact (H "Hello " (Sample.textElement "B" "big") " world" eq_refl).
Defined.

Lemma replicate_length (n : nat) (c : ascii) :
  String.length (replicate n c) = n.
Proof. induction n; simpl; congruence. Qed.




(* ------------------------------------------------------------------ *)
(** ** Pruned elements *)
(* ------------------------------------------------------------------ *)

(** C5. An inline SVG [style] element, whose DOM name is [style] and not
    [STYLE], passes the test of the extractor: the component tree of the
    page holds a node with tag [style], next to a pruned HTML [script]. *)
Theorem svg_style_is_extracted :
  extractComponents Sample.svgPage
  = [ {| tag := "div"; classes := []; text := ""; attributes := [];
         children :=
           [ {| tag := "svg"; classes := []; text := ""; attributes := [];
                children :=
                  [ {| tag := "style"; classes := []; text := ".a{fill:red}";
                       attributes := []; children := [] |} ] |} ] |} ]
  /\ exists n, In n (nodesOfAll (extractComponents Sample.svgPage))
               /\ isPrunedTag (tag n) = true.
Proof.
  split; [vm_compute; reflexivity|].
  exists {| tag := "style"; classes := []; text := ".a{fill:red}";
            attributes := []; children := [] |}.
  split; [vm_compute; tauto | reflexivity].
Qed.

(** Induction on an element, with the property at hand for its children. *)
Lemma Element_children_ind (P : Dom.Element -> Prop) :
  (forall el, (forall child, In child (Dom.children el) -> P child) -> P el) ->
  forall el, P el.
Proof.
  intros step. fix IH 1. intros [tagName attrs cls nodes]. apply step.
  unfold Dom.children. cbn [Dom.childNodes].
  induction nodes as [|node nodes IHnodes]; intros child Hin; [contradiction|].
  destruct node as [e | t | t]; cbn [flat_map app] in Hin.
  - destruct Hin as [<- | Hin]; [apply IH | now apply IHnodes].
  - now apply IHnodes.
  - now apply IHnodes.
Qed.

Lemma nodesOf_eq (c : ComponentData) :
  nodesOf c = c :: nodesOfAll (children c).
Proof.
  now destruct c.
Qed.

Lemma htmlNames_eq (el : Dom.Element) :
  htmlNames el = upperName (Dom.tagName el) && forallb htmlNames (Dom.children el).
Proof.
  destruct el as [tagName attrs cls nodes].
  cbn [htmlNames Dom.tagName Dom.childNodes]. f_equal.
  unfold Dom.children. cbn [Dom.childNodes].
  induction nodes as [|node nodes IH]; [reflexivity|].
  destruct node as [e | t | t]; cbn [flat_map app forallb]; now rewrite IH.
Qed.

Lemma lowerChar_inv (c : ascii) :
  isLowerLetter c = false -> isLowerLetter (Js.lowerChar c) = true ->
  c = upperChar (Js.lowerChar c).
Proof.
  destruct c as [[] [] [] [] [] [] [] []]; vm_compute; intros H1 H2;
    first [reflexivity | discriminate].
Qed.

Lemma toLowerCase_inv (t : string) :
  upperName t = true -> allLower (Js.toLowerCase t) = true ->
  t = toUpperCase (Js.toLowerCase t).
Proof.
  induction t as [|c t IH]; [reflexivity|].
  cbn [upperName Js.toLowerCase allLower toUpperCase].
  rewrite !andb_true_iff, negb_true_iff. intros [Hc Ht] [Hl Hr].
  now rewrite <- lowerChar_inv, <- IH.
Qed.

Lemma upper_tag_not_pruned (t : string) :
  upperName t = true -> isFilteredTag t = false ->
  isPrunedTag (Js.toLowerCase t) = false.
Proof.
  intros Hupper Hkept.
  destruct (isPrunedTag (Js.toLowerCase t)) eqn:Hpruned; [|reflexivity].
  unfold isPrunedTag in Hpruned. rewrite !orb_true_iff, !String.eqb_eq in Hpruned.
  assert (Hlower : allLower (Js.toLowerCase t) = true).
  { destruct Hpruned as [[-> | ->] | ->]; reflexivity. }
  rewrite (toLowerCase_inv t Hupper Hlower) in Hkept.
  destruct Hpruned as [[H | H] | H]; rewrite H in Hkept; discriminate Hkept.
Qed.

Lemma In_extractedOf (els : list Dom.Element) (c : ComponentData) :
  In c (extractedOf els) <-> exists el, In el els /\ extractComponent el = Some c.
Proof.
  unfold extractedOf. rewrite in_flat_map. split.
  - intros [el [Hin Hc]]. exists el. split; [assumption|].
    destruct (extractComponent el); [|contradiction].
    destruct Hc as [-> | []]. reflexivity.
  - intros [el [Hin Hc]]. exists el. split; [assumption|]. rewrite Hc. now left.
Qed.

(** On a tree whose element names are all upper case, as in a document made
    of HTML elements only, no [script], [style] or [noscript] comes out. *)
Lemma html_tree_holds_no_pruned_tag (el : Dom.Element) :
  htmlNames el = true ->
  forall c, extractComponent el = Some c ->
  forall n, In n (nodesOf c) -> isPrunedTag (tag n) = false.
Proof.
  induction el as [el IH] using Element_children_ind.
  rewrite htmlNames_eq, andb_true_iff, forallb_forall. intros [Hname Hchildren] c.
  rewrite extractComponent_eq.
  destruct (isFilteredTag (Dom.tagName el)) eqn:Hkept; [discriminate|].
  intros Hc. injection Hc as <-. intros n. rewrite nodesOf_eq. cbn [children].
  intros [<- | Hin].
  - cbn [tag]. now apply upper_tag_not_pruned.
  - unfold nodesOfAll in Hin. apply in_flat_map in Hin.
    destruct Hin as [c' [Hc' Hn]]. apply In_extractedOf in Hc'.
    destruct Hc' as [child [Hchild Hextract]].
    exact (IH child Hchild (Hchildren child Hchild) c' Hextract n Hn).
Qed.

Lemma html_page_holds_no_pruned_tag (doc : Document) (b : Body) :
  body doc = Some b ->
  forallb htmlNames (Dom.children (bodyElement b)) = true ->
  forall n, In n (nodesOfAll (extractComponents doc)) -> isPrunedTag (tag n) = false.
Proof.
  intros Hb Hnames n. unfold extractComponents. rewrite Hb, extractEach_extractedOf.
  unfold nodesOfAll. rewrite in_flat_map. intros [c [Hc Hn]].
  apply In_extractedOf in Hc. destruct Hc as [el [Hel Hextract]].
  rewrite forallb_forall in Hnames.
  exact (html_tree_holds_no_pruned_tag el (Hnames el Hel) Hextract n Hn).
Qed.

(** The children of an extracted node are the extractions of the element
    children that are not pruned, and nothing stands for a pruned one. *)
Lemma children_are_extractions (el : Dom.Element) (c : ComponentData) :
  extractComponent el = Some c ->
  children c = extractedOf (Dom.children el)
  /\ List.length (children c)
     = List.length (filter (fun child => negb (isFilteredTag (Dom.tagName child)))
                           (Dom.children el)).
Proof.
  rewrite extractComponent_eq.
  destruct (isFilteredTag (Dom.tagName el)); [discriminate|].
  intros Hc. injection Hc as <-. cbn [children]. split; [reflexivity|].
  induction (Dom.children el) as [|child rest IH]; [reflexivity|].
  unfold extractedOf in *. cbn [flat_map filter].
  rewrite (extractComponent_eq child).
  destruct (isFilteredTag (Dom.tagName child)); cbn [negb app List.length];
    now rewrite IH.
Qed.

(* ------------------------------------------------------------------ *)
(** ** The browser binary *)
(* ------------------------------------------------------------------ *)

(** C9. Without the environment override the function answers the first
    candidate and asks the disk nothing: with only [/usr/bin/chromium]
    installed, a candidate of the list, it still answers
    [/usr/bin/google-chrome], which is not there. *)
Theorem findChromePath_never_probes :
  findChromePath None = "/usr/bin/google-chrome"
  /\ In "/usr/bin/chromium" candidates
  /\ Sample.onlyChromium "/usr/bin/chromium" = true
  /\ existsb Sample.onlyChromium candidates = true
  /\ Sample.onlyChromium (findChromePath None) = false.
Proof.
  split; [reflexivity|]. split; [simpl; tauto|]. repeat split.
Qed.

Lemma findChromePath_override (path : string) :
  path <> "" -> findChromePath (Some path) = path.
Proof.
  intros H. unfold findChromePath.
  destruct (String.eqb_spec path ""); [contradiction | reflexivity].
Qed.

(* ------------------------------------------------------------------ *)
(** ** Navigation with retries *)
(* ------------------------------------------------------------------ *)


Lemma lastOf_cons {A : Type} (x : A) (l : list A) :
  l <> [] -> lastOf (x :: l) = lastOf l.
Proof. destruct l; [contradiction | reflexivity]. Qed.

Lemma lastOf_nonempty {A : Type} (l : list A) (x : A) :
  lastOf l = Some x -> l <> [].
Proof. destruct l; [discriminate | discriminate]. Qed.

Section Navigation.

Variable w : World.
Variable url : string.


Lemma page_goto_run (wait : WaitUntil) (s : Browser) :
  page_goto w url wait s =
  (match thrown (goto w (clock s) url wait) with
   | Some e => Throw e
   | None => Normal tt
   end, afterGoto w url wait s).
Proof.
  unfold page_goto, afterGoto.
  now destruct (thrown (goto w (clock s) url wait)).
Qed.

(** One turn of the loop, by cases on what the two loads answer. *)
Lemma navigateLoop_step (remaining attempt : nat) (s : Browser) :
  navigateLoop w (S remaining) attempt url s =
  match thrown (goto w (clock s) url networkidle2) with
  | None => (Normal tt, afterGoto w url networkidle2 s)
  | Some err =>
      if negb (isTimeout err) || (attempt =? NAV_RETRIES)%nat
      then (Throw err, afterGoto w url networkidle2 s)
      else
        let s1 := afterGoto w url networkidle2 s in
        match thrown (goto w (clock s1) url domcontentloaded) with
        | None => delay PAGE_LOAD_WAIT_MS (afterGoto w url domcontentloaded s1)
        | Some _ =>
            navigateLoop w remaining (S attempt) url (afterGoto w url domcontentloaded s1)
        end
  end.
Proof.
  cbn [navigateLoop]. unfold try_catch at 1. rewrite page_goto_run.
  destruct (thrown (goto w (clock s) url networkidle2)) as [err|]; [|reflexivity].
  destruct (negb (isTimeout err) || (attempt =? NAV_RETRIES)%nat); [reflexivity|].
  unfold try_catch, bind. rewrite page_goto_run. cbv zeta.
  now destruct (thrown (goto w (clock (afterGoto w url networkidle2 s)) url domcontentloaded)).
Qed.

Lemma navigateLoop_events (remaining : nat) :
  forall attempt s r s',
    attempt + remaining = S NAV_RETRIES ->
    remaining <> 0 ->
    navigateLoop w remaining attempt url s = (r, s') ->
    exists new last,
      gotoLog s' = gotoLog s ++ new
      /\ session s' = session s
      /\ eachWithRest (eventRule r) new
      /\ lastOf new = Some last
      /\ failure last = thrownBy r
      /\ List.length new < 2 * remaining.
Proof.
  induction remaining as [|remaining IH]; intros attempt s r s' Hsum Hpos Hrun;
    [contradiction|].
  rewrite navigateLoop_step in Hrun.
  destruct (thrown (goto w (clock s) url networkidle2)) as [err|] eqn:Hstrict.
  2:{ injection Hrun as <- <-.
      exists [mkGotoEvent url networkidle2 None], (mkGotoEvent url networkidle2 None).
      split; [cbn; now rewrite Hstrict|]. split; [reflexivity|]. split.
      { cbn [eachWithRest]. split; [|exact I]. intros e He. discriminate He. }
      split; [reflexivity|]. split; [reflexivity | cbn [List.length]; lia]. }
  destruct (negb (isTimeout err) || (attempt =? NAV_RETRIES)%nat) eqn:Hgive.
  { injection Hrun as <- <-.
    exists [mkGotoEvent url networkidle2 (Some err)],
           (mkGotoEvent url networkidle2 (Some err)).
    split; [cbn; now rewrite Hstrict|]. split; [reflexivity|]. split.
    { cbn [eachWithRest]. split; [|exact I]. intros e He. cbn in He.
      injection He as <-. split; [auto | discriminate]. }
    split; [reflexivity|]. split; [reflexivity | cbn [List.length]; lia]. }
  apply orb_false_iff in Hgive. destruct Hgive as [Htimeout Hattempt].
  apply negb_false_iff in Htimeout. apply Nat.eqb_neq in Hattempt.
  cbv zeta in Hrun.
  destruct (thrown (goto w (clock (afterGoto w url networkidle2 s)) url domcontentloaded))
    as [err2|] eqn:Hlenient.
  - destruct (IH (S attempt)
                (afterGoto w url domcontentloaded (afterGoto w url networkidle2 s)) r s')
      as [new [last [Hlog [Hsession [Hrule [Hlast [Hfail Hlen]]]]]]];
      [lia | lia | exact Hrun |].
    exists (mkGotoEvent url networkidle2 (Some err)
            :: mkGotoEvent url domcontentloaded (Some err2) :: new), last.
    split.
    { rewrite Hlog. unfold afterGoto in *. cbn [gotoLog clock] in *.
      rewrite Hlenient, Hstrict. now rewrite <- !app_assoc. }
    split; [rewrite Hsession; reflexivity|].
    split.
    { cbn [eachWithRest]. split; [|split; [|exact Hrule]].
      - intros e He. cbn in He. injection He as <-. split; cbn; congruence.
      - intros e He. split; cbn; [discriminate|].
        intros _. now apply lastOf_nonempty with last. }
    split.
    { rewrite !lastOf_cons; [assumption| |discriminate].
      now apply lastOf_nonempty with last. }
    split; [assumption | cbn [List.length]; lia].
  - unfold delay in Hrun. injection Hrun as <- <-.
    exists [mkGotoEvent url networkidle2 (Some err);
            mkGotoEvent url domcontentloaded None],
           (mkGotoEvent url domcontentloaded None).
    split.
    { unfold afterGoto in *. cbn [gotoLog clock] in *.
      rewrite Hlenient, Hstrict. now rewrite <- app_assoc. }
    split; [reflexivity|]. split.
    { cbn [eachWithRest]. split; [|split; [|exact I]].
      - intros e He. cbn in He. injection He as <-. split; cbn; congruence.
      - intros e He. discriminate He. }
    split; [reflexivity|]. split; [reflexivity | cbn [List.length]; lia].
Qed.

End Navigation.

Lemma lastOf_In {A : Type} (l : list A) (x : A) : lastOf l = Some x -> In x l.
Proof.
  induction l as [|y l IH]; [discriminate|].
  destruct l as [|z l].
  - intros H. injection H as ->. now left.
  - intros H. right. now apply IH.
Qed.

Lemma navigateWithRetry_events (w : World) (url : string) (s : Browser)
      (r : Completion unit) (s' : Browser) :
  navigateWithRetry w url s = (r, s') ->
  exists new last,
    gotoLog s' = gotoLog s ++ new
    /\ session s' = session s
    /\ eachWithRest (eventRule r) new
    /\ lastOf new = Some last
    /\ failure last = thrownBy r
    /\ List.length new <= 2 * NAV_RETRIES + 1.
Proof.
  intros Hrun. unfold navigateWithRetry in Hrun.
  destruct (navigateLoop_events w url (remaining := S NAV_RETRIES) 0 s
              eq_refl (Nat.neq_succ_0 _) Hrun)
    as [new [last [Hlog [Hsession [Hrule [Hlast [Hfail Hlen]]]]]]].
  exists new, last. repeat split; try assumption.
  unfold NAV_RETRIES in *. lia.
Qed.




(** The run in which the first strict load times out and the lenient load
    that follows succeeds. *)
Lemma navigateWithRetry_fallback (w : World) (url : string) (s : Browser)
      (err : JsThrown) :
  thrown (goto w (clock s) url networkidle2) = Some err ->
  isTimeout err = true ->
  thrown (goto w (S (clock s)) url domcontentloaded) = None ->
  navigateWithRetry w url s =
  delay PAGE_LOAD_WAIT_MS
    (afterGoto w url domcontentloaded (afterGoto w url networkidle2 s)).
Proof.
  intros Hstrict Htimeout Hlenient.
  unfold navigateWithRetry. rewrite navigateLoop_step, Hstrict, Htimeout.
  cbn [negb orb Nat.eqb NAV_RETRIES]. cbv zeta.
  unfold afterGoto at 1. cbn [clock]. now rewrite Hlenient.
Qed.

(** C3. A navigation always ends on a load, and completes as that load did:
    it returns when the load succeeded and throws the error of the load when
    it failed; at most [2 * NAV_RETRIES + 1] loads are made. If every
    strict load times out and every lenient load succeeds, the navigation
    returns after two loads, the strict one and its lenient retry, within
    the [NAV_RETRIES + 1] attempts; if no load that was made succeeded, it
    throws the error of the last one. *)
Theorem navigateWithRetry_outcome (w : World) (url : string) (s s' : Browser)
        (r : Completion unit) :
  navigateWithRetry w url s = (r, s') ->
  exists new last,
    gotoLog s' = gotoLog s ++ new
    /\ lastOf new = Some last
    /\ failure last = thrownBy r
    /\ List.length new <= 2 * NAV_RETRIES + 1
    /\ ((forall n, exists e, thrown (goto w n url networkidle2) = Some e
                             /\ isTimeout e = true) ->
        (forall n, thrown (goto w n url domcontentloaded) = None) ->
        r = Normal tt
        /\ List.length new <= NAV_RETRIES + 1
        /\ map waitUntil new = [networkidle2; domcontentloaded])
    /\ ((forall ev, In ev new -> failure ev <> None) ->
        exists e, r = Throw e /\ failure last = Some e).
Proof.
  intros Hrun.
  destruct (navigateWithRetry_events w url s Hrun)
    as [new [last [Hnew [_ [_ [Hlast [Hfail Hlen]]]]]]].
  exists new, last.
  split; [exact Hnew|]. split; [exact Hlast|]. split; [exact Hfail|].
  split; [exact Hlen|]. split.
  - intros Hstrict Hlenient.
    destruct (Hstrict (clock s)) as [err [Herr Htimeout]].
    rewrite (navigateWithRetry_fallback w url s Herr Htimeout (Hlenient _)) in Hrun.
    unfold delay in Hrun. injection Hrun as <- <-.
    unfold afterGoto in Hnew. cbn [gotoLog] in Hnew.
    rewrite <- app_assoc in Hnew. apply app_inv_head in Hnew. subst new.
    split; [reflexivity|]. split; [cbn; unfold NAV_RETRIES; lia | reflexivity].
  - intros Hall. specialize (Hall last (lastOf_In _ Hlast)).
    destruct r as [[] | e]; cbn in Hfail; [congruence|].
    exists e. split; [reflexivity | assumption].
Qed.

(** A site whose network never goes idle is loaded; a site that never
    answers in time makes the navigation throw the last timeout. *)
Lemma navigateWithRetry_outcome_witness :
  fst (navigateWithRetry Sample.slowIdle "http://a.com/" initial) = Normal tt
  /\ fst (navigateWithRetry Sample.unreachable "http://a.com/" initial)
     = Throw Sample.timeoutError.
Proof.
  split.
  - destruct (@navigateWithRetry_outcome Sample.slowIdle "http://a.com/" initial
                (snd (navigateWithRetry Sample.slowIdle "http://a.com/" initial))
                (fst (navigateWithRetry Sample.slowIdle "http://a.com/" initial))
                eq_refl)
      as [new [last [_ [_ [_ [_ [Hslow _]]]]]]].
    apply Hslow.
    + intros n. exists Sample.timeoutError. split; reflexivity.
    + intros n. reflexivity.
  - destruct (@navigateWithRetry_outcome Sample.unreachable "http://a.com/" initial
                (snd (navigateWithRetry Sample.unreachable "http://a.com/" initial))
                (fst (navigateWithRetry Sample.unreachable "http://a.com/" initial))
                eq_refl)
      as [new [last [Hlog [Hlast [_ [_ [_ Hnone]]]]]]].
    cbn in Hlog. subst new. cbn in Hlast. injection Hlast as <-.
    destruct Hnone as [e [Hr He]].
    + intros ev Hin. cbn in Hin.
      repeat (destruct Hin as [<- | Hin]; [discriminate|]). contradiction.
    + cbn in He. injection He as <-. exact Hr.
Defined.

(* ------------------------------------------------------------------ *)
(** ** The orchestrator *)
(* ------------------------------------------------------------------ *)

Lemma bind_normal {A B : Type} (m : M A) (k : A -> M B) (s s' : Browser) (b : B) :
  bind m k s = (Normal b, s') ->
  exists a s1, m s = (Normal a, s1) /\ k a s1 = (Normal b, s').
Proof.
  unfold bind. destruct (m s) as [[a | e] s1]; intros H.
  - now exists a, s1.
  - discriminate H.
Qed.

Ltac bind_inv H :=
  let a := fresh "a" in
  let s := fresh "s" in
  let Hm := fresh "Hm" in
  apply bind_normal in H; destruct H as [a [s [Hm H]]].

Section Orchestrator.

Variable w : World.

Lemma discoverRoutes_normal (baseUrl : string) (s s' : Browser) (found : list string) :
  discoverRoutes w baseUrl s = (Normal found, s') ->
  exists orig,
    originOf w baseUrl = Normal orig
    /\ found = first_occurrences
                 (filter (admitted orig) (anchors (render w (clock s) (pageUrl s)))).
Proof.
  unfold discoverRoutes. intros H.
  bind_inv H. bind_inv H. unfold ret in H. injection H as <- <-.
  destruct (originOf w baseUrl) as [orig | e]; [|discriminate Hm].
  cbn in Hm. unfold ret in Hm. injection Hm as <- <-.
  exists orig. split; [reflexivity|].
  unfold page_evaluate in Hm0. bind_inv Hm0.
  injection Hm0 as <- <-.
  unfold operation in Hm. destruct (fault w (clock s)); [discriminate Hm|].
  injection Hm as <- <-. cbn [pageUrl].
  now rewrite spreadSet_first_occurrences, collectLinks_filter.
Qed.

Lemma scrapePage_normal (route : string) (s s' : Browser) (p : ScrapedPage) :
  scrapePage w route s = (Normal p, s') ->
  url p = route
  /\ exists sp sp', discoverRoutes w route sp = (Normal (routes p), sp').
Proof.
  unfold scrapePage. intros H.
  do 8 bind_inv H. unfold ret in H. injection H as <- <-.
  split; [reflexivity|]. cbn [routes]. eauto.
Qed.

Lemma scrape_loop (xs : list string) :
  forall acc s found s',
    forOf xs acc
      (fun pages route =>
         scrapedPage <- scrapePage w route ;; ret (pages ++ [scrapedPage])) s
    = (Normal found, s') ->
    map url found = map url acc ++ xs
    /\ forall p, In p found ->
         In p acc
         \/ exists sp sp', discoverRoutes w (url p) sp = (Normal (routes p), sp').
Proof.
  induction xs as [|x xs IH]; intros acc s found s' H; cbn [forOf] in H.
  - unfold ret in H. injection H as <- <-. rewrite app_nil_r. auto.
  - bind_inv H. bind_inv Hm. unfold ret in Hm. injection Hm as <- <-.
    apply scrapePage_normal in Hm0. destruct Hm0 as [Hurl Hroutes].
    apply IH in H. destruct H as [Hmap Hin].
    split.
    + rewrite Hmap, map_app. cbn [map]. rewrite Hurl, <- app_assoc. reflexivity.
    + intros p Hp. destruct (Hin p Hp) as [Hacc | Hdisc]; [|now right].
      apply in_app_or in Hacc. destruct Hacc as [Hacc | [<- | []]]; [now left|].
      right. now rewrite Hurl.
Qed.

(** What a crawl that returns has done. *)
Lemma tryBlock_normal (entry : string) (s s' : Browser) (app : ScrapedApp) :
  tryBlock w entry s = (Normal app, s') ->
  exists s0 s1 discovered,
    loadEntry w entry s = (Normal tt, s0)
    /\ discoverRoutes w entry s0 = (Normal discovered, s1)
    /\ baseUrl app = entry
    /\ map url (pages app) = uniqueRoutesOf entry discovered
    /\ forall p, In p (pages app) ->
         exists sp sp', discoverRoutes w (url p) sp = (Normal (routes p), sp').
Proof.
  unfold tryBlock, openEntry. intros H.
  bind_inv H. bind_inv Hm. destruct a0.
  unfold scrapeAll in H. do 3 bind_inv H. unfold ret in H. injection H as <- <-.
  apply scrape_loop in Hm1. destruct Hm1 as [Hmap Hin].
  exists s1, s0, a. repeat split; try assumption.
  intros p Hp. destruct (Hin p Hp) as [[] | Hdisc]. exact Hdisc.
Qed.

Lemma scrapeLovableApp_run (entry : string) (s : Browser) :
  scrapeLovableApp w entry s =
  match launch w (findChromePath (CHROME_PATH w)) with
  | Some e => (Throw e, s)
  | None => (fst (tryBlock w entry (launched s)),
             released (snd (tryBlock w entry (launched s))))
  end.
Proof.
  unfold scrapeLovableApp, bind, puppeteer_launch.
  destruct (launch w _); [reflexivity|].
  unfold try_finally, browser_close. fold (launched s).
  now destruct (tryBlock w entry (launched s)).
Qed.

End Orchestrator.

Lemma uniqueRoutesOf_entry_first (entry : string) (discovered : list string) :
  uniqueRoutesOf entry discovered = entry :: firsts [entry] discovered.
Proof.
  unfold uniqueRoutesOf. rewrite spreadSet_first_occurrences. reflexivity.
Qed.





(** C7. The orchestrator completes exactly as its [try] block does, on a
    state in which the session is released: whether the block returns, the
    navigation fails or an extraction throws in the middle of the loop.
    When it returns, the result holds one snapshot for each member of the
    frontier, in order; when it throws, the caller gets the error and
    nothing else. If the browser cannot be started there is no session,
    and the error of the launch is thrown. *)
Theorem session_released_on_every_exit (w : World) (entry : string)
        (s s' : Browser) (r : Completion ScrapedApp) :
  scrapeLovableApp w entry s = (r, s') ->
  match launch w (findChromePath (CHROME_PATH w)) with
  | Some e => r = Throw e /\ s' = s
  | None =>
      session s' = Released
      /\ (exists sb, tryBlock w entry (launched s) = (r, sb) /\ s' = released sb)
      /\ forall app,
           r = Normal app ->
           exists s0 s1 discovered,
             loadEntry w entry (launched s) = (Normal tt, s0)
             /\ discoverRoutes w entry s0 = (Normal discovered, s1)
             /\ map url (pages app) = uniqueRoutesOf entry discovered
             /\ List.length (pages app)
                = List.length (uniqueRoutesOf entry discovered)
  end.
Proof.
  rewrite scrapeLovableApp_run.
  destruct (launch w _) as [e|].
  - intros H. injection H as <- <-. auto.
  - destruct (tryBlock w entry (launched s)) as [r0 sb] eqn:Hbody. cbn [fst snd].
    intros H. injection H as <- <-.
    split; [reflexivity|]. split; [now exists sb|].
    intros app ->.
    destruct (tryBlock_normal _ _ _ Hbody)
      as [s0 [s1 [discovered [Hload [Hdisc [_ [Hmap _]]]]]]].
    exists s0, s1, discovered.
    split; [exact Hload|]. split; [exact Hdisc|]. split; [exact Hmap|].
    now rewrite <- Hmap, length_map.
Qed.

(** A rendering context that dies while the second page is extracted, and
    a browser that does not start. *)
Lemma session_released_on_every_exit_witness :
  (exists s',
     scrapeLovableApp Sample.crashing "http://a.com/" initial
     = (Throw (JsError "Target closed"), s')
     /\ session s' = Released)
  /\ scrapeLovableApp Sample.noBrowser "http://a.com/" initial
     = (Throw (JsError "Failed to launch the browser process"), initial).
Proof.
  split.
  - destruct (scrapeLovableApp Sample.crashing "http://a.com/" initial)
      as [r s'] eqn:Hrun.
    pose proof (@session_released_on_every_exit _ _ _ _ _ Hrun) as H.
    cbn [Sample.crashing launch] in H. destruct H as [Hreleased _].
    exists s'. split; [|exact Hreleased].
    vm_compute in Hrun. injection Hrun as <- <-. reflexivity.
  - destruct (scrapeLovableApp Sample.noBrowser "http://a.com/" initial)
      as [r s'] eqn:Hrun.
    pose proof (@session_released_on_every_exit _ _ _ _ _ Hrun) as H.
    cbn [Sample.noBrowser launch] in H. destruct H as [-> ->]. reflexivity.
Defined.

(* ------------------------------------------------------------------ *)
(** ** The navigation landmark *)
(* ------------------------------------------------------------------ *)

Lemma extractItems_map (links : list NavAnchor) :
  extractItems links = map itemOf links.
Proof.
  unfold extractItems. fold itemOf.
  assert (G : forall acc,
             fold_left (fun items link => items ++ [itemOf link]) links acc
             = acc ++ map itemOf links).
  { induction links as [|l links IH]; intros acc; cbn [fold_left map].
    - now rewrite app_nil_r.
    - now rewrite IH, <- app_assoc. }
  apply G.
Qed.

(** X1. Without a navigation landmark the menu is empty. With one, the menu
    has one item for each anchor of the landmark, in document order, none
    dropped; its label carries no white space at either end, and its href
    is the attribute as written, or empty when the anchor has none. *)
Theorem extractNavigation_flat (doc : Document) :
  (landmark doc = None -> navigationScript doc = [])
  /\ forall links,
       landmark doc = Some links ->
       navigationScript doc = map itemOf links
       /\ List.length (navigationScript doc) = List.length links
       /\ (forall item, In item (navigationScript doc) ->
             startsWhite (label item) = false /\ endsWhite (label item) = false)
       /\ (forall i link,
             nth_error links i = Some link ->
             hrefAttribute link = None ->
             option_map href (nth_error (navigationScript doc) i) = Some "").
Proof.
  unfold navigationScript. split.
  - intros H. now rewrite H.
  - intros links H. rewrite H, extractItems_map.
    split; [reflexivity|]. split; [apply length_map|]. split.
    + intros item Hin. apply in_map_iff in Hin. destruct Hin as [link [<- _]].
      cbn [itemOf label].
      destruct (trim_spec (linkText link)) as [front [back [_ [_ [_ [Hs He]]]]]].
      now split.
    + intros i link Hi Hnone. rewrite nth_error_map, Hi. cbn [option_map].
      unfold itemOf. cbn [href]. now rewrite Hnone.
Qed.

Lemma extractNavigation_flat_witness :
  navigationScript Gallery.home
  = [ {| label := "Home"; href := "/a" |}; {| label := "About"; href := "" |} ]
  /\ option_map href (nth_error (navigationScript Gallery.home) 1) = Some "".
Proof.
  destruct (extractNavigation_flat Gallery.home) as [_ H].
  destruct (H _ eq_refl) as [Hmenu [_ [_ Hhref]]].
  split; [rewrite Hmenu; reflexivity|].
  apply (Hhref 1 {| linkText := "About"; hrefAttribute := None |}); reflexivity.
Defined.

(* ------------------------------------------------------------------ *)
(** ** The attribute allow-list *)
(* ------------------------------------------------------------------ *)

Lemma assign_In (attrs : list (string * string)) (k v k' v' : string) :
  In (k', v') (assign attrs k v) -> (k' = k /\ v' = v) \/ In (k', v') attrs.
Proof.
  induction attrs as [|[k0 v0] attrs IH]; cbn [assign In].
  - intros [H | []]. injection H as <- <-. now left.
  - destruct (String.eqb_spec k k0) as [-> | Hne]; cbn [In].
    + intros [H | H]; [injection H as <- <-; now left | right; now right].
    + intros [H | H]; [right; now left|].
      destruct (IH H) as [Hnew | Hold]; [now left | right; now right].
Qed.

Lemma assign_keys (attrs : list (string * string)) (k v : string) :
  map fst (assign attrs k v)
  = if existsb (String.eqb k) (map fst attrs) then map fst attrs
    else map fst attrs ++ [k].
Proof.
  induction attrs as [|[k0 v0] attrs IH]; cbn [assign map fst existsb app].
  - reflexivity.
  - destruct (String.eqb_spec k k0) as [-> | Hne]; cbn [map fst orb].
    + reflexivity.
    + rewrite IH. now destruct (existsb (String.eqb k) (map fst attrs)).
Qed.

Lemma assign_fresh (attrs : list (string * string)) (k v : string) :
  ~ In k (map fst attrs) -> assign attrs k v = attrs ++ [(k, v)].
Proof.
  induction attrs as [|[k0 v0] attrs IH]; cbn [assign map fst In app].
  - reflexivity.
  - intros H. destruct (String.eqb_spec k k0) as [-> | Hne]; [tauto|].
    rewrite IH; tauto.
Qed.

Lemma assign_NoDup (attrs : list (string * string)) (k v : string) :
  NoDup (map fst attrs) -> NoDup (map fst (assign attrs k v)).
Proof.
  intros H. rewrite assign_keys.
  destruct (existsb (String.eqb k) (map fst attrs)) eqn:E; [assumption|].
  apply NoDup_app; [assumption | repeat constructor; intros [] |].
  intros x Hx [Heq | []]. subst x.
  apply (has_In (map fst attrs) k) in Hx. unfold Js.has in Hx. congruence.
Qed.

Lemma collectAttrs_from (l : list Dom.Attr) :
  forall acc,
    let result :=
      fold_left (fun attrs attr =>
                   if isAllowedAttr (Dom.name attr)
                   then assign attrs (Dom.name attr) (Dom.value attr)
                   else attrs) l acc in
    (forall k v, In (k, v) result ->
       In (k, v) acc \/ (isAllowedAttr k = true /\ In (Dom.mkAttr k v) l))
    /\ (NoDup (map fst acc) -> NoDup (map fst result))
    /\ (NoDup (map fst acc ++ map Dom.name l) ->
        result = acc ++ map toPair (filter (fun a => isAllowedAttr (Dom.name a)) l)).
Proof.
  induction l as [|[name value] l IH]; intros acc; cbn [fold_left].
  - cbn. split; [auto|]. split; [auto|]. intros _. now rewrite app_nil_r.
  - cbn [Dom.name Dom.value filter].
    destruct (isAllowedAttr name) eqn:Hallowed.
    + destruct (IH (assign acc name value)) as [Hin [Hnodup Heq]].
      split; [|split].
      * intros k v Hkv. destruct (Hin k v Hkv) as [Hacc | [Hk Hl]].
        -- destruct (assign_In _ _ _ _ _ Hacc) as [[-> ->] | Hold];
             [right; split; [assumption | now left] | now left].
        -- right. split; [assumption | now right].
      * intros Hacc. apply Hnodup. now apply assign_NoDup.
      * intros Hall. cbn [map Dom.name] in Hall.
        assert (Hfresh : ~ In name (map fst acc)).
        { intros Hin'. apply NoDup_remove_2 in Hall. apply Hall.
          apply in_or_app. now left. }
        rewrite Heq.
        -- rewrite assign_fresh by assumption. cbn [map toPair Dom.name Dom.value].
           now rewrite <- app_assoc.
        -- rewrite assign_fresh by assumption. rewrite map_app. cbn [map fst].
           rewrite <- app_assoc. cbn [app].
           apply NoDup_remove_1 in Hall as Hrest.
           apply NoDup_remove_2 in Hall.
           clear - Hall Hrest Hfresh.
           revert Hall Hrest. generalize (map fst acc) as ks.
           generalize (map Dom.name l) as ns. intros ns ks.
           induction ks as [|k0 ks IHks]; cbn [app]; intros Hall Hrest.
           ++ constructor; assumption.
           ++ inversion Hrest as [|? ? Hk0 Hks]; subst.
              constructor.
              ** intros Hin'. apply Hk0. apply in_app_or in Hin'.
                 apply in_or_app. destruct Hin' as [H | [<- | H]]; auto.
                 exfalso. apply Hall. now left.
              ** apply IHks; [|assumption]. intros Hin'. apply Hall. now right.
    + destruct (IH acc) as [Hin [Hnodup Heq]].
      split; [|split].
      * intros k v Hkv. destruct (Hin k v Hkv) as [Hacc | [Hk Hl]];
          [now left | right; split; [assumption | now right]].
      * assumption.
      * intros Hall. apply Heq. cbn [map Dom.name] in Hall.
        now apply NoDup_remove_1 in Hall.
Qed.

(** X2. The attributes kept for an element are on the allow-list and are
    attributes of the element, with their values; no key is kept twice;
    and when the names of the element's attributes are distinct, as the DOM
    has them, the result is the allowed attributes in their order. *)
Theorem collectAttrs_allow_list (l : list Dom.Attr) :
  (forall k v, In (k, v) (collectAttrs l) ->
     isAllowedAttr k = true /\ In (Dom.mkAttr k v) l)
  /\ NoDup (map fst (collectAttrs l))
  /\ (NoDup (map Dom.name l) ->
      collectAttrs l
      = map toPair (filter (fun a => isAllowedAttr (Dom.name a)) l)).
Proof.
  destruct (collectAttrs_from l []) as [Hin [Hnodup Heq]].
  split; [|split].
  - intros k v Hkv. destruct (Hin k v Hkv) as [[] | H]. exact H.
  - apply Hnodup. constructor.
  - intros H. exact (Heq H).
Qed.

Lemma collectAttrs_allow_list_witness :
  collectAttrs Gallery.buttonAttrs
  = [("href", "/a"); ("data-id", "7"); ("role", "button")].
Proof.
  rewrite (proj2 (proj2 (collectAttrs_allow_list Gallery.buttonAttrs))).
  - reflexivity.
  - repeat constructor; cbn; intuition discriminate.
Defined.

(* ------------------------------------------------------------------ *)
(** ** What every snapshot satisfies *)
(* ------------------------------------------------------------------ *)

Lemma lowerChar_not_upper (c : ascii) : isUpperLetter (Js.lowerChar c) = false.
Proof.
  destruct c as [[] [] [] [] [] [] [] []]; vm_compute; reflexivity.
Qed.

Lemma toLowerCase_noUpper (t : string) : noUpperLetter (Js.toLowerCase t) = true.
Proof.
  induction t as [|c t IH]; [reflexivity|].
  cbn [Js.toLowerCase noUpperLetter]. now rewrite lowerChar_not_upper, IH.
Qed.

Lemma extracted_nodes_wellFormed (el : Dom.Element) :
  forall c, extractComponent el = Some c ->
  forall n, In n (nodesOf c) -> wellFormedNode n.
Proof.
  induction el as [el IH] using Element_children_ind. intros c.
  rewrite extractComponent_eq.
  destruct (isFilteredTag (Dom.tagName el)); [discriminate|].
  assert (Hlen : String.length (Js.slice0 200 (directTextOf el)) <= 200).
  { rewrite slice0_length. apply Nat.le_min_l. }
  remember (Js.slice0 200 (directTextOf el)) as txt eqn:Htxt.
  intros Hc. injection Hc as <-. intros n. rewrite nodesOf_eq. cbn [children].
  intros [<- | Hin].
  - unfold wellFormedNode. cbn [text tag attributes].
    destruct (collectAttrs_from (Dom.attributes el) []) as [Hkeys [Hnodup _]].
    split; [exact Hlen|].
    split; [apply toLowerCase_noUpper|]. split; [apply Hnodup; constructor|].
    intros k v Hkv. destruct (Hkeys k v Hkv) as [[] | [Hallowed _]]. exact Hallowed.
  - unfold nodesOfAll in Hin. apply in_flat_map in Hin.
    destruct Hin as [c' [Hc' Hn]]. apply In_extractedOf in Hc'.
    destruct Hc' as [child [Hchild Hextract]].
    exact (IH child Hchild c' Hextract n Hn).
Qed.

Lemma extractComponents_wellFormed (doc : Document) :
  forall n, In n (nodesOfAll (extractComponents doc)) -> wellFormedNode n.
Proof.
  intros n. unfold extractComponents.
  destruct (body doc) as [b|]; [|intros []].
  rewrite extractEach_extractedOf. unfold nodesOfAll. rewrite in_flat_map.
  intros [c [Hc Hn]]. apply In_extractedOf in Hc.
  destruct Hc as [el [_ Hextract]].
  exact (extracted_nodes_wellFormed el Hextract n Hn).
Qed.

Lemma extractVisibleText_bounded (doc : Document) :
  String.length (extractVisibleText doc) <= 10000.
Proof.
  unfold extractVisibleText. destruct (body doc); [|apply Nat.le_0_l].
  rewrite slice0_length. apply Nat.le_min_l.
Qed.

Section Snapshots.

Variable w : World.

Lemma page_evaluate_normal {A : Type} (script : Document -> A) (s s' : Browser) (a : A) :
  page_evaluate w script s = (Normal a, s') ->
  a = script (render w (clock s) (pageUrl s))
  /\ fault w (clock s) = None
  /\ clock s' = S (clock s) /\ sameNavigation s s'.
Proof.
  unfold page_evaluate, bind, operation.
  destruct (fault w (clock s)); [discriminate|].
  intros H. injection H as <- <-. cbn. unfold sameNavigation. cbn. auto 10.
Qed.

Lemma scrapePage_fields (route : string) (s s' : Browser) (p : ScrapedPage) :
  scrapePage w route s = (Normal p, s') ->
  exists d1 d2,
    components p = extractComponents d1 /\ textContent p = extractVisibleText d2.
Proof.
  unfold scrapePage. intros H.
  do 8 bind_inv H. unfold ret in H. injection H as <- <-. cbn [components textContent].
  apply page_evaluate_normal in Hm4. apply page_evaluate_normal in Hm5.
  destruct Hm4 as [-> _]. destruct Hm5 as [-> _]. eauto.
Qed.

Lemma scrape_loop_all (P : ScrapedPage -> Prop) :
  (forall route s p s', scrapePage w route s = (Normal p, s') -> P p) ->
  forall xs acc s found s',
    forOf xs acc
      (fun pages route =>
         scrapedPage <- scrapePage w route ;; ret (pages ++ [scrapedPage])) s
    = (Normal found, s') ->
    Forall P acc -> Forall P found.
Proof.
  intros HP xs. induction xs as [|x xs IH]; intros acc s found s' H Hacc;
    cbn [forOf] in H.
  - unfold ret in H. now injection H as <- <-.
  - bind_inv H. bind_inv Hm. unfold ret in Hm. injection Hm as <- <-.
    eapply IH; [exact H|]. apply Forall_app. split; [assumption|].
    constructor; [|constructor]. eapply HP. exact Hm0.
Qed.

Lemma scrapeLovableApp_pages (P : ScrapedPage -> Prop) :
  (forall route s p s', scrapePage w route s = (Normal p, s') -> P p) ->
  forall entry s s' app,
    scrapeLovableApp w entry s = (Normal app, s') -> Forall P (pages app).
Proof.
  intros HP entry s s' app. rewrite scrapeLovableApp_run.
  destruct (launch w _); [discriminate|].
  destruct (tryBlock w entry (launched s)) as [r sb] eqn:Hbody. cbn [fst snd].
  intros H. injection H as -> <-.
  unfold tryBlock in Hbody. bind_inv Hbody. unfold scrapeAll in Hbody.
  do 3 bind_inv Hbody. unfold ret in Hbody. injection Hbody as <- <-.
  cbn [pages]. eapply scrape_loop_all; [exact HP | exact Hm0 | constructor].
Qed.

End Snapshots.

(** X3. In the result of a crawl every snapshot holds at most 10000
    characters of visible text, and every node of every component tree, at
    any depth, holds at most 200 characters of text, a tag without
    upper-case letters, and attributes that are on the allow-list, each key
    once. *)
Theorem crawl_output_bounded (w : World) (entry : string) (s s' : Browser)
        (app : ScrapedApp) :
  scrapeLovableApp w entry s = (Normal app, s') ->
  forall p, In p (pages app) ->
    String.length (textContent p) <= 10000
    /\ forall n, In n (nodesOfAll (components p)) -> wellFormedNode n.
Proof.
  intros Hrun.
  apply (proj1 (Forall_forall _ _)).
  eapply scrapeLovableApp_pages; [|exact Hrun].
  intros route s0 p s1 Hpage. cbv beta.
  apply scrapePage_fields in Hpage. destruct Hpage as [d1 [d2 [-> ->]]].
  split; [apply extractVisibleText_bounded | apply extractComponents_wellFormed].
Qed.

Lemma crawl_output_bounded_witness :
  exists app s',
    scrapeLovableApp (Sample.serving Gallery.site) "http://a.com/" initial
    = (Normal app, s')
    /\ List.length (nodesOfAll (flat_map components (pages app))) = 9
    /\ forall p, In p (pages app) ->
         String.length (textContent p) <= 10000
         /\ forall n, In n (nodesOfAll (components p)) -> wellFormedNode n.
Proof.
  destruct (scrapeLovableApp (Sample.serving Gallery.site) "http://a.com/" initial)
    as [[app | e] s'] eqn:Hrun.
  - exists app, s'. split; [reflexivity|]. split.
    + vm_compute in Hrun. injection Hrun as <- <-. vm_compute. reflexivity.
    + eapply crawl_output_bounded. exact Hrun.
  - vm_compute in Hrun. discriminate Hrun.
Defined.

(* ------------------------------------------------------------------ *)
(** ** The loads of a navigation *)
(* ------------------------------------------------------------------ *)

Section Loads.

Variable w : World.
Variable url : string.

Lemma navigateLoop_loads (remaining : nat) :
  forall attempt s r s',
    attempt + remaining = S NAV_RETRIES ->
    remaining <> 0 ->
    navigateLoop w remaining attempt url s = (r, s') ->
    exists new last,
      gotoLog s' = gotoLog s ++ new
      /\ lastOf new = Some last
      /\ Forall (fun ev => target ev = url) new
      /\ map waitUntil new = policies (List.length new)
      /\ clock s' = clock s + List.length new
      /\ session s' = session s
      /\ slept s' = slept s + settleDelay (waitUntil last)
      /\ pageUrl s' = landed (goto w (clock s' - 1) url (waitUntil last))
      /\ (waitUntil last = domcontentloaded -> r = Normal tt).
Proof.
  induction remaining as [|remaining IH]; intros attempt s r s' Hsum Hpos Hrun;
    [contradiction|].
  rewrite navigateLoop_step in Hrun.
  destruct (thrown (goto w (clock s) url networkidle2)) as [err|] eqn:Hstrict.
  2:{ injection Hrun as <- <-.
      exists [mkGotoEvent url networkidle2 None], (mkGotoEvent url networkidle2 None).
      unfold afterGoto. cbn. rewrite Hstrict, Nat.add_0_r, Nat.sub_0_r.
      repeat split; try (constructor; [reflexivity | constructor]); try lia.
      all: try discriminate. }
  destruct (negb (isTimeout err) || (attempt =? NAV_RETRIES)%nat) eqn:Hgive.
  { injection Hrun as <- <-.
    exists [mkGotoEvent url networkidle2 (Some err)],
           (mkGotoEvent url networkidle2 (Some err)).
    unfold afterGoto. cbn. rewrite Hstrict, Nat.add_0_r, Nat.sub_0_r.
    repeat split; try (constructor; [reflexivity | constructor]); try lia.
    all: try discriminate. }
  apply orb_false_iff in Hgive. destruct Hgive as [_ Hattempt].
  apply Nat.eqb_neq in Hattempt.
  cbv zeta in Hrun.
  destruct (thrown (goto w (clock (afterGoto w url networkidle2 s)) url domcontentloaded))
    as [err2|] eqn:Hlenient.
  - apply IH in Hrun; [|lia|lia].
    destruct Hrun as [new [last [Hlog [Hlast [Htarget [Hpol [Hclock [Hsession Hrest]]]]]]]].
    exists (mkGotoEvent url networkidle2 (Some err)
            :: mkGotoEvent url domcontentloaded (Some err2) :: new), last.
    unfold afterGoto in *. cbn [gotoLog clock session slept pageUrl] in *.
    rewrite Hlenient, Hstrict in Hlog.
    split; [rewrite Hlog; now rewrite <- !app_assoc|].
    split.
    { rewrite !lastOf_cons; [assumption| |discriminate].
      now apply lastOf_nonempty with last. }
    split; [repeat (constructor; [reflexivity|]); exact Htarget|].
    split; [cbn [map waitUntil List.length policies]; now rewrite Hpol|].
    split; [cbn [List.length]; lia|]. split; [exact Hsession|]. exact Hrest.
  - unfold delay in Hrun. injection Hrun as <- <-.
    exists [mkGotoEvent url networkidle2 (Some err);
            mkGotoEvent url domcontentloaded None],
           (mkGotoEvent url domcontentloaded None).
    unfold afterGoto in *. cbn [gotoLog clock session slept pageUrl] in *.
    rewrite Hstrict, Hlenient.
    split; [now rewrite <- app_assoc|]. split; [reflexivity|].
    split; [repeat (constructor; [reflexivity|]); constructor|].
    split; [reflexivity|]. split; [cbn [List.length]; lia|].
    split; [reflexivity|]. split; [reflexivity|].
    split; [cbn [Nat.sub waitUntil]; reflexivity | reflexivity].
Qed.

End Loads.

Lemma filter_strict_policies (new : list GotoEvent) :
  List.length (filter isStrict new)
  = List.length (filter (fun p => match p with
                                  | networkidle2 => true
                                  | domcontentloaded => false
                                  end) (map waitUntil new)).
Proof.
  induction new as [|ev new IH]; [reflexivity|].
  cbn [filter map]. unfold isStrict at 1.
  destruct (waitUntil ev); cbn [List.length]; now rewrite IH.
Qed.

Lemma filter_lenient_policies (new : list GotoEvent) :
  List.length (filter (fun ev => negb (isStrict ev)) new)
  = List.length (filter (fun p => match p with
                                  | networkidle2 => false
                                  | domcontentloaded => true
                                  end) (map waitUntil new)).
Proof.
  induction new as [|ev new IH]; [reflexivity|].
  cbn [filter map]. unfold isStrict at 1.
  destruct (waitUntil ev); cbn [negb List.length]; now rewrite IH.
Qed.

(** X4. One navigation makes between one and [2 * NAV_RETRIES + 1] loads,
    all of the URL it was asked for; the loads are strict and lenient in
    turn, the first one strict, so that at most [NAV_RETRIES + 1] are strict
    and at most [NAV_RETRIES] lenient; nothing else is asked of the browser
    and the session is left as it was. *)
Theorem navigateWithRetry_loads (w : World) (url : string) (s s' : Browser)
        (r : Completion unit) :
  navigateWithRetry w url s = (r, s') ->
  exists new,
    gotoLog s' = gotoLog s ++ new
    /\ 1 <= List.length new <= 2 * NAV_RETRIES + 1
    /\ Forall (fun ev => target ev = url) new
    /\ map waitUntil new = policies (List.length new)
    /\ List.length (filter isStrict new) <= NAV_RETRIES + 1
    /\ List.length (filter (fun ev => negb (isStrict ev)) new) <= NAV_RETRIES
    /\ clock s' = clock s + List.length new
    /\ session s' = session s.
Proof.
  intros Hrun.
  destruct (navigateWithRetry_events w url s Hrun)
    as [new0 [last0 [Hlog0 [_ [_ [_ [_ Hlen]]]]]]].
  unfold navigateWithRetry in Hrun.
  apply navigateLoop_loads in Hrun; [|reflexivity|discriminate].
  destruct Hrun as [new [last [Hlog [Hlast [Htarget [Hpol [Hclock [Hsession _]]]]]]]].
  rewrite Hlog in Hlog0. apply app_inv_head in Hlog0. subst new0.
  exists new. split; [exact Hlog|]. split.
  { split; [|exact Hlen]. destruct new; [discriminate Hlast | cbn; lia]. }
  split; [exact Htarget|]. split; [exact Hpol|].
  rewrite filter_strict_policies, filter_lenient_policies, Hpol.
  split; [|split; [|split; assumption]];
    unfold NAV_RETRIES in *; revert Hlen; generalize (List.length new) as n;
    intros n Hlen; do 6 (destruct n as [|n]; [cbn; lia|]); lia.
Qed.

Lemma navigateWithRetry_loads_witness :
  exists s',
    navigateWithRetry Sample.unreachable "http://a.com/" initial
    = (Throw Sample.timeoutError, s')
    /\ map waitUntil (gotoLog s')
       = [networkidle2; domcontentloaded; networkidle2; domcontentloaded;
          networkidle2]
    /\ clock s' = 5.
Proof.
  destruct (navigateWithRetry Sample.unreachable "http://a.com/" initial)
    as [r s'] eqn:Hrun.
  destruct (navigateWithRetry_loads _ _ _ Hrun)
    as [new [Hlog [_ [_ [Hpol [_ [_ [Hclock _]]]]]]]].
  exists s'. cbn [initial gotoLog clock app] in Hlog, Hclock.
  vm_compute in Hrun. injection Hrun as <- <-.
  split; [reflexivity|]. split; reflexivity.
Defined.

(** X5. The settle delay of a navigation is slept once, and exactly when the
    navigation ended on a lenient load, which then succeeded: a navigation
    that ends on a strict load, or that throws, sleeps nothing. The page is
    left on the URL the last load landed on. *)
Theorem navigateWithRetry_settles (w : World) (url : string) (s s' : Browser)
        (r : Completion unit) :
  navigateWithRetry w url s = (r, s') ->
  exists new last,
    gotoLog s' = gotoLog s ++ new
    /\ lastOf new = Some last
    /\ slept s' = slept s + settleDelay (waitUntil last)
    /\ (waitUntil last = domcontentloaded -> r = Normal tt /\ failure last = None)
    /\ (forall e, r = Throw e ->
          waitUntil last = networkidle2 /\ slept s' = slept s)
    /\ pageUrl s' = landed (goto w (clock s' - 1) url (waitUntil last)).
Proof.
  intros Hrun.
  destruct (navigateWithRetry_events w url s Hrun)
    as [new0 [last0 [Hlog0 [_ [_ [Hlast0 [Hfail _]]]]]]].
  unfold navigateWithRetry in Hrun.
  apply navigateLoop_loads in Hrun; [|reflexivity|discriminate].
  destruct Hrun
    as [new [last [Hlog [Hlast [_ [_ [_ [_ [Hslept [Hurl Hlenient]]]]]]]]]].
  rewrite Hlog in Hlog0. apply app_inv_head in Hlog0. subst new0.
  rewrite Hlast in Hlast0. injection Hlast0 as <-.
  exists new, last. split; [exact Hlog|]. split; [exact Hlast|].
  split; [exact Hslept|]. split; [|split; [|exact Hurl]].
  - intros Hwait. specialize (Hlenient Hwait). subst r. now split.
  - intros e ->. destruct (waitUntil last) eqn:Hwait.
    + split; [reflexivity|]. rewrite Hslept. cbn. lia.
    + specialize (Hlenient eq_refl). discriminate Hlenient.
Qed.

Lemma navigateWithRetry_settles_witness :
  exists s',
    navigateWithRetry Sample.slowIdle "http://a.com/" initial = (Normal tt, s')
    /\ slept s' = PAGE_LOAD_WAIT_MS.
Proof.
  destruct (navigateWithRetry Sample.slowIdle "http://a.com/" initial)
    as [r s'] eqn:Hrun.
  destruct (navigateWithRetry_settles _ _ _ Hrun)
    as [new [last [Hlog [Hlast [Hslept _]]]]].
  vm_compute in Hrun. injection Hrun as <- <-.
  exists {| clock := 2; session := NotAcquired; pageUrl := "http://a.com/";
            gotoLog := [mkGotoEvent "http://a.com/" networkidle2
                          (Some Sample.timeoutError);
                        mkGotoEvent "http://a.com/" domcontentloaded None];
            slept := 5000 |}.
  split; reflexivity.
Defined.

(* ------------------------------------------------------------------ *)
(** ** Reading a page does not navigate *)
(* ------------------------------------------------------------------ *)

Lemma bind_run {A B : Type} (m : M A) (k : A -> M B) (s s' : Browser)
      (r : Completion B) :
  bind m k s = (r, s') ->
  (exists a s1, m s = (Normal a, s1) /\ k a s1 = (r, s'))
  \/ (exists e, m s = (Throw e, s') /\ r = Throw e).
Proof.
  unfold bind. destruct (m s) as [[a | e] s1]; intros H.
  - left. now exists a, s1.
  - right. injection H as <- <-. now exists e.
Qed.

Lemma sameNavigation_refl (s : Browser) : sameNavigation s s.
Proof. unfold sameNavigation. auto. Qed.

Lemma sameNavigation_trans (s1 s2 s3 : Browser) :
  sameNavigation s1 s2 -> sameNavigation s2 s3 -> sameNavigation s1 s3.
Proof.
  unfold sameNavigation. intros [A1 [B1 [C1 D1]]] [A2 [B2 [C2 D2]]].
  repeat split; congruence.
Qed.

Lemma Quiet_ret {A : Type} (a : A) : Quiet (ret a).
Proof. intros s r s' H. injection H as <- <-. apply sameNavigation_refl. Qed.

Lemma Quiet_liftC {A : Type} (c : Completion A) : Quiet (liftC c).
Proof.
  intros s r s' H. destruct c; injection H as <- <-; apply sameNavigation_refl.
Qed.

Lemma Quiet_bind {A B : Type} (m : M A) (k : A -> M B) :
  Quiet m -> (forall a, Quiet (k a)) -> Quiet (bind m k).
Proof.
  intros Hm Hk s r s' H. apply bind_run in H.
  destruct H as [[a [s1 [H1 H2]]] | [e [H1 _]]].
  - eapply sameNavigation_trans; [eapply Hm | eapply Hk]; eassumption.
  - eapply Hm; eassumption.
Qed.

Section Reading.

Variable w : World.

Lemma Quiet_operation : Quiet (operation w).
Proof.
  intros s r s' H. unfold operation in H.
  destruct (fault w (clock s)); injection H as <- <-; unfold sameNavigation; cbn; auto.
Qed.

Lemma Quiet_page_evaluate {A : Type} (script : Document -> A) :
  Quiet (page_evaluate w script).
Proof.
  apply Quiet_bind; [apply Quiet_operation|].
  intros n s r s' H. injection H as <- <-. apply sameNavigation_refl.
Qed.

Lemma Quiet_page_screenshot : Quiet (page_screenshot w).
Proof.
  apply Quiet_bind; [apply Quiet_operation|].
  intros n s r s' H. injection H as <- <-. apply sameNavigation_refl.
Qed.

Lemma Quiet_discoverRoutes (baseUrl : string) : Quiet (discoverRoutes w baseUrl).
Proof.
  apply Quiet_bind; [apply Quiet_liftC|]. intros orig.
  apply Quiet_bind; [apply Quiet_page_evaluate|]. intros links. apply Quiet_ret.
Qed.

Lemma Quiet_readPage (url : string) : Quiet (readPage w url).
Proof.
  unfold readPage, page_title, page_content.
  repeat (apply Quiet_bind;
          [first [apply Quiet_page_evaluate | apply Quiet_page_screenshot
                 | apply Quiet_discoverRoutes]|]; intros ?).
  apply Quiet_ret.
Qed.

Lemma scrapePage_readPage (url : string) (s : Browser) :
  scrapePage w url s =
  if String.eqb (pageUrl s) url then readPage w url s
  else ((navigateWithRetry w url ;; delay NAVIGATION_WAIT_MS) ;; readPage w url) s.
Proof.
  unfold scrapePage, page_url. unfold bind at 1.
  destruct (String.eqb (pageUrl s) url); reflexivity.
Qed.

(** X6. Taking the snapshot of a URL loads it only when the page is not on
    it already: on the URL, no load is made and nothing is slept; off it,
    the URL is navigated to first, and when that navigation throws, its
    error is the result and nothing is read; when it returns, the fixed
    wait follows and the page is read without any further load. *)
Theorem scrapePage_navigates_when_needed (url : string) (s s' : Browser)
        (r : Completion ScrapedPage) :
  scrapePage w url s = (r, s') ->
  (pageUrl s = url -> sameNavigation s s')
  /\ (pageUrl s <> url ->
      exists rn sn,
        navigateWithRetry w url s = (rn, sn)
        /\ match rn with
           | Throw e => r = Throw e /\ s' = sn
           | Normal _ =>
               gotoLog s' = gotoLog sn /\ pageUrl s' = pageUrl sn
               /\ slept s' = slept sn + NAVIGATION_WAIT_MS
               /\ session s' = session sn
           end).
Proof.
  rewrite scrapePage_readPage. intros Hrun. split.
  - intros Hon. apply String.eqb_eq in Hon. rewrite Hon in Hrun.
    eapply Quiet_readPage. exact Hrun.
  - intros Hoff. apply String.eqb_neq in Hoff. rewrite Hoff in Hrun.
    destruct (navigateWithRetry w url s) as [rn sn] eqn:Hnav.
    exists rn, sn. split; [reflexivity|].
    unfold bind at 1 2 in Hrun. rewrite Hnav in Hrun.
    destruct rn as [[] | e].
    + unfold delay at 1 in Hrun.
      pose proof (Quiet_readPage url _ Hrun) as [Hlog [Hurl [Hslept Hsession]]].
      cbn in *. auto.
    + injection Hrun as <- <-. auto.
Qed.

End Reading.

Lemma scrapePage_navigates_when_needed_witness :
  (exists p s',
     scrapePage (Sample.serving Gallery.site) "http://a.com/"
       {| clock := 7; session := Open; pageUrl := "http://a.com/";
          gotoLog := []; slept := 0 |}
     = (Normal p, s')
     /\ gotoLog s' = [] /\ slept s' = 0)
  /\ exists s',
       scrapePage Sample.refusing "http://a.com/" initial
       = (Throw Sample.refusedError, s')
       /\ clock s' = 1.
Proof.
  split.
  - destruct (scrapePage (Sample.serving Gallery.site) "http://a.com/"
                {| clock := 7; session := Open; pageUrl := "http://a.com/";
                   gotoLog := []; slept := 0 |})
      as [[p | e] s'] eqn:Hrun.
    + destruct (proj1 (@scrapePage_navigates_when_needed _ _ _ _ _ Hrun) eq_refl)
        as [Hlog [_ [Hslept _]]].
      exists p, s'. auto.
    + vm_compute in Hrun. discriminate Hrun.
  - destruct (scrapePage Sample.refusing "http://a.com/" initial)
      as [r s'] eqn:Hrun.
    destruct (proj2 (@scrapePage_navigates_when_needed _ _ _ _ _ Hrun))
      as [rn [sn [Hnav Hcase]]].
    { discriminate. }
    vm_compute in Hnav. injection Hnav as <- <-.
    destruct Hcase as [-> ->]. eexists. split; reflexivity.
Defined.

(* ------------------------------------------------------------------ *)
(** ** What a crawl loads *)
(* ------------------------------------------------------------------ *)

Lemma Quiet_LoadsOnly {A : Type} (P : string -> Prop) (m : M A) :
  Quiet m -> LoadsOnly P m.
Proof.
  intros Hm s r s' H. exists []. destruct (Hm _ _ _ H) as [Hlog _].
  rewrite app_nil_r. split; [exact Hlog | constructor].
Qed.

Lemma LoadsOnly_bind {A B : Type} (P : string -> Prop) (m : M A) (k : A -> M B) :
  LoadsOnly P m -> (forall a, LoadsOnly P (k a)) -> LoadsOnly P (bind m k).
Proof.
  intros Hm Hk s r s' H. apply bind_run in H.
  destruct H as [[a [s1 [H1 H2]]] | [e [H1 _]]].
  - destruct (Hm _ _ _ H1) as [new1 [Hlog1 Hall1]].
    destruct (Hk a _ _ _ H2) as [new2 [Hlog2 Hall2]].
    exists (new1 ++ new2). split.
    + now rewrite Hlog2, Hlog1, app_assoc.
    + apply Forall_app. now split.
  - exact (Hm _ _ _ H1).
Qed.

Lemma LoadsOnly_weaken {A : Type} (P Q : string -> Prop) (m : M A) :
  (forall u, P u -> Q u) -> LoadsOnly P m -> LoadsOnly Q m.
Proof.
  intros HPQ Hm s r s' H. destruct (Hm _ _ _ H) as [new [Hlog Hall]].
  exists new. split; [exact Hlog|].
  eapply Forall_impl; [|exact Hall]. intros ev. apply HPQ.
Qed.

Lemma LoadsOnly_delay (P : string -> Prop) (ms : nat) : LoadsOnly P (delay ms).
Proof.
  intros s r s' H. injection H as <- <-. exists []. cbn.
  rewrite app_nil_r. split; [reflexivity | constructor].
Qed.

Lemma LoadsOnly_forOf {A B : Type} (P : string -> Prop) (xs : list A)
      (step : B -> A -> M B) :
  (forall acc x, In x xs -> LoadsOnly P (step acc x)) ->
  forall acc, LoadsOnly P (forOf xs acc step).
Proof.
  induction xs as [|x xs IH]; intros Hstep acc; cbn [forOf].
  - apply Quiet_LoadsOnly, Quiet_ret.
  - apply LoadsOnly_bind.
    + apply Hstep. now left.
    + intros acc'. apply IH. intros acc0 y Hy. apply Hstep. now right.
Qed.

Section CrawlLoads.

Variable w : World.

Lemma LoadsOnly_navigateWithRetry (url : string) :
  LoadsOnly (eq url) (navigateWithRetry w url).
Proof.
  intros s r s' H. unfold navigateWithRetry in H.
  apply navigateLoop_loads in H; [|reflexivity|discriminate].
  destruct H as [new [last [Hlog [_ [Htarget _]]]]].
  exists new. split; [exact Hlog|].
  eapply Forall_impl; [|exact Htarget]. intros ev Hev. now symmetry.
Qed.

Lemma LoadsOnly_scrapePage (url : string) :
  LoadsOnly (eq url) (scrapePage w url).
Proof.
  intros s r s' H. rewrite scrapePage_readPage in H.
  destruct (String.eqb (pageUrl s) url).
  - exact (Quiet_LoadsOnly (eq url) (Quiet_readPage w url) _ H).
  - revert s r s' H. apply LoadsOnly_bind.
    + apply LoadsOnly_bind; [apply LoadsOnly_navigateWithRetry|].
      intros _. apply LoadsOnly_delay.
    + intros _. apply Quiet_LoadsOnly, Quiet_readPage.
Qed.

Lemma LoadsOnly_loadEntry (url : string) : LoadsOnly (eq url) (loadEntry w url).
Proof.
  unfold loadEntry, browser_newPage, page_setViewport.
  apply LoadsOnly_bind.
  { apply LoadsOnly_bind; [apply Quiet_LoadsOnly, Quiet_operation|].
    intros _ s r s' H. injection H as <- <-. exists []. cbn.
    rewrite app_nil_r. split; [reflexivity | constructor]. }
  intros _. apply LoadsOnly_bind.
  { apply LoadsOnly_bind; [apply Quiet_LoadsOnly, Quiet_operation|].
    intros _. apply Quiet_LoadsOnly, Quiet_ret. }
  intros _. apply LoadsOnly_bind; [apply LoadsOnly_navigateWithRetry|].
  intros _. apply LoadsOnly_delay.
Qed.

Lemma LoadsOnly_scrapeAll (url : string) (found : list string) :
  LoadsOnly (fun u => In u (uniqueRoutesOf url found)) (scrapeAll w url found).
Proof.
  unfold scrapeAll. apply LoadsOnly_bind.
  - apply LoadsOnly_forOf. intros acc route Hroute.
    apply LoadsOnly_bind.
    + eapply LoadsOnly_weaken; [|apply LoadsOnly_scrapePage].
      intros u <-. exact Hroute.
    + intros p. apply Quiet_LoadsOnly, Quiet_ret.
  - intros found'. apply LoadsOnly_bind.
    { apply Quiet_LoadsOnly. unfold extractNavigation. apply Quiet_page_evaluate. }
    intros nav. apply LoadsOnly_bind.
    { apply Quiet_LoadsOnly. unfold extractGlobalStyles. apply Quiet_page_evaluate. }
    intros styles. apply Quiet_LoadsOnly, Quiet_ret.
Qed.

(** X7. Whatever a crawl ends in, every load it made was of the entry URL
    or of a route discovered on the entry page: an href of that page that
    starts with the origin string of the entry URL. The crawler never
    navigates anywhere else. *)
Theorem crawl_loads_only_frontier (entry : string) (s s' : Browser)
        (r : Completion ScrapedApp) :
  scrapeLovableApp w entry s = (r, s') ->
  exists new,
    gotoLog s' = gotoLog s ++ new
    /\ forall ev,
         In ev new ->
         target ev = entry
         \/ exists s0 s1 discovered orig,
              loadEntry w entry (launched s) = (Normal tt, s0)
              /\ discoverRoutes w entry s0 = (Normal discovered, s1)
              /\ In (target ev) discovered
              /\ originOf w entry = Normal orig
              /\ Js.startsWith (target ev) orig = true
              /\ In (target ev) (anchors (render w (clock s0) (pageUrl s0))).
Proof.
  rewrite scrapeLovableApp_run.
  destruct (launch w _).
  { intros H. injection H as <- <-. exists []. rewrite app_nil_r.
    split; [reflexivity | intros ev []]. }
  destruct (tryBlock w entry (launched s)) as [r0 sb] eqn:Hbody. cbn [fst snd].
  intros H. injection H as <- <-. cbn [released gotoLog].
  change (gotoLog s) with (gotoLog (launched s)).
  unfold tryBlock, openEntry in Hbody.
  apply bind_run in Hbody.
  destruct Hbody as [[found [s1 [Hopen Hrest]]] | [e [Hopen _]]].
  - apply bind_run in Hopen.
    destruct Hopen as [[[] [s0 [Hload Hdisc]]] | [e [Hload Habs]]];
      [|discriminate Habs].
    destruct (LoadsOnly_loadEntry entry _ Hload) as [new1 [Hlog1 Hall1]].
    destruct (Quiet_discoverRoutes w entry _ Hdisc) as [Hlog2 _].
    destruct (LoadsOnly_scrapeAll entry found _ Hrest) as [new3 [Hlog3 Hall3]].
    exists (new1 ++ new3). split; [now rewrite Hlog3, Hlog2, Hlog1, app_assoc|].
    intros ev Hev. apply in_app_or in Hev. destruct Hev as [Hev | Hev].
    + left. rewrite Forall_forall in Hall1. symmetry. now apply Hall1.
    + rewrite Forall_forall in Hall3. specialize (Hall3 ev Hev).
      rewrite uniqueRoutesOf_entry_first in Hall3.
      destruct Hall3 as [Heq | Hin]; [now left | right].
      apply firsts_In in Hin. destruct Hin as [Hin _].
      destruct (discoverRoutes_normal _ _ _ Hdisc) as [orig [Horig Hfound]].
      exists s0, s1, found, orig.
      split; [exact Hload|]. split; [exact Hdisc|]. split; [exact Hin|].
      split; [exact Horig|].
      rewrite Hfound in Hin. apply firsts_In in Hin. destruct Hin as [Hin _].
      apply filter_In in Hin. destruct Hin as [Hanchor Hadm].
      unfold admitted in Hadm. apply andb_true_iff in Hadm. tauto.
  - apply bind_run in Hopen.
    destruct Hopen as [[[] [s0 [Hload Hdisc]]] | [e' [Hload _]]].
    + destruct (LoadsOnly_loadEntry entry _ Hload) as [new1 [Hlog1 Hall1]].
      destruct (Quiet_discoverRoutes w entry _ Hdisc) as [Hlog2 _].
      exists new1. split; [now rewrite Hlog2, Hlog1|].
      intros ev Hev. left. rewrite Forall_forall in Hall1. symmetry.
      now apply Hall1.
    + destruct (LoadsOnly_loadEntry entry _ Hload) as [new1 [Hlog1 Hall1]].
      exists new1. split; [exact Hlog1|].
      intros ev Hev. left. rewrite Forall_forall in Hall1. symmetry.
      now apply Hall1.
Qed.

End CrawlLoads.

Lemma crawl_loads_only_frontier_witness :
  exists r s',
    scrapeLovableApp (Sample.serving Sample.site) "http://a.com/" initial = (r, s')
    /\ map target (gotoLog s')
       = ["http://a.com/"; "http://a.com/about"; "http://a.com/pricing"]
    /\ forall ev, In ev (gotoLog s') ->
         target ev = "http://a.com/"
         \/ Js.startsWith (target ev) "http://a.com" = true.
Proof.
  destruct (scrapeLovableApp (Sample.serving Sample.site) "http://a.com/" initial)
    as [r s'] eqn:Hrun.
  exists r, s'. split; [reflexivity|].
  destruct (@crawl_loads_only_frontier _ _ _ _ _ Hrun) as [new [Hlog Hall]].
  cbn [initial gotoLog app] in Hlog. split.
  - vm_compute in Hrun. injection Hrun as <- <-. reflexivity.
  - intros ev Hev. rewrite Hlog in Hev.
    destruct (Hall ev Hev)
      as [Hentry | [s0 [s1 [found [orig [_ [_ [_ [Horig [Hstarts _]]]]]]]]]].
    + now left.
    + right. vm_compute in Horig. injection Horig as <-. exact Hstarts.
Defined.

(** X8. A crawl that returns has taken no URL twice: the URLs of its
    snapshots are pairwise distinct. It holds at least the snapshot of the
    entry, and at most one more than the entry page has anchors. *)
Theorem crawl_visits_each_url_once (w : World) (entry : string) (s s' : Browser)
        (app : ScrapedApp) :
  scrapeLovableApp w entry s = (Normal app, s') ->
  NoDup (map url (pages app))
  /\ 1 <= List.length (pages app)
  /\ exists s0,
       loadEntry w entry (launched s) = (Normal tt, s0)
       /\ List.length (pages app)
          <= 1 + List.length (anchors (render w (clock s0) (pageUrl s0))).
Proof.
  rewrite scrapeLovableApp_run.
  destruct (launch w _); [discriminate|].
  destruct (tryBlock w entry (launched s)) as [r sb] eqn:Hbody. cbn [fst snd].
  intros H. injection H as -> <-.
  destruct (tryBlock_normal _ _ _ Hbody)
    as [s0 [s1 [discovered [Hload [Hdisc [_ [Hmap _]]]]]]].
  destruct (discoverRoutes_normal _ _ _ Hdisc) as [orig [_ Hfound]].
  assert (Hlen : forall seen l, List.length (firsts seen l) <= List.length l).
  { intros seen l. revert seen. induction l as [|x l IH]; intros seen; cbn; [lia|].
    destruct (existsb (String.eqb x) seen); [specialize (IH seen) | specialize (IH (x :: seen))];
      cbn; lia. }
  split.
  { rewrite Hmap. unfold uniqueRoutesOf. rewrite spreadSet_first_occurrences.
    apply firsts_NoDup. }
  rewrite <- (length_map url), Hmap, uniqueRoutesOf_entry_first. cbn [List.length].
  split; [lia|]. exists s0. split; [exact Hload|].
  rewrite Hfound. unfold first_occurrences.
  pose proof (Hlen [entry] (firsts [] (filter (admitted orig)
                 (anchors (render w (clock s0) (pageUrl s0)))))) as H1.
  pose proof (Hlen [] (filter (admitted orig)
                 (anchors (render w (clock s0) (pageUrl s0))))) as H2.
  pose proof (filter_length_le (admitted orig)
                (anchors (render w (clock s0) (pageUrl s0)))) as H3.
  lia.
Qed.

Lemma crawl_visits_each_url_once_witness :
  exists app s',
    scrapeLovableApp (Sample.serving Gallery.site) "http://a.com/" initial
    = (Normal app, s')
    /\ NoDup (map url (pages app)) /\ List.length (pages app) = 2.
Proof.
  destruct (scrapeLovableApp (Sample.serving Gallery.site) "http://a.com/" initial)
    as [[app | e] s'] eqn:Hrun.
  - exists app, s'. split; [reflexivity|].
    split; [exact (proj1 (@crawl_visits_each_url_once _ _ _ _ _ Hrun))|].
    vm_compute in Hrun. injection Hrun as <- <-. reflexivity.
  - vm_compute in Hrun. discriminate Hrun.
Defined.

(** X9. The menu and the global styles of a result are read once, after
    the last snapshot, by the last two operations of the crawl, from the
    page the browser is then on: the menu first, the styles next. *)
Theorem crawl_reads_chrome_last (w : World) (entry : string) (s s' : Browser)
        (app : ScrapedApp) :
  scrapeLovableApp w entry s = (Normal app, s') ->
  2 <= clock s'
  /\ navigation app = navigationScript (render w (clock s' - 2) (pageUrl s'))
  /\ globalStyles app = globalStylesScript (render w (clock s' - 1) (pageUrl s'))
  /\ baseUrl app = entry.
Proof.
  rewrite scrapeLovableApp_run.
  destruct (launch w _); [discriminate|].
  destruct (tryBlock w entry (launched s)) as [r sb] eqn:Hbody. cbn [fst snd].
  intros H. injection H as -> <-.
  unfold tryBlock in Hbody. bind_inv Hbody. unfold scrapeAll in Hbody.
  do 3 bind_inv Hbody. unfold ret in Hbody. injection Hbody as <- <-.
  cbn [navigation globalStyles baseUrl released clock pageUrl].
  apply page_evaluate_normal in Hm1. apply page_evaluate_normal in Hm2.
  destruct Hm1 as [-> [_ [Hc1 [_ [Hu1 _]]]]].
  destruct Hm2 as [-> [_ [Hc2 [_ [Hu2 _]]]]].
  rewrite Hc2, Hc1, Hu2. cbn [Nat.sub]. rewrite Nat.sub_0_r, Hu1.
  repeat split; lia.
Qed.

Lemma crawl_reads_chrome_last_witness :
  exists app s',
    scrapeLovableApp (Sample.serving Gallery.site) "http://a.com/" initial
    = (Normal app, s')
    /\ pageUrl s' = "http://a.com/a"
    /\ navigation app = [ {| label := "Back"; href := "/" |} ]
    /\ globalStyles app = "".
Proof.
  destruct (scrapeLovableApp (Sample.serving Gallery.site) "http://a.com/" initial)
    as [[app | e] s'] eqn:Hrun.
  - exists app, s'. split; [reflexivity|].
    destruct (@crawl_reads_chrome_last _ _ _ _ _ Hrun) as [_ [Hnav [Hstyles _]]].
    rewrite Hnav, Hstyles.
    vm_compute in Hrun. injection Hrun as _ <-. repeat split.
  - vm_compute in Hrun. discriminate Hrun.
Defined.

(* ------------------------------------------------------------------ *)
(** ** Configuration *)
(* ------------------------------------------------------------------ *)

Lemma truthy_iff (s : string) : Config.truthy s = true <-> s <> "".
Proof.
  unfold Config.truthy. rewrite negb_true_iff. apply String.eqb_neq.
Qed.

Lemma orElse_truthy (env : Config.Env) (name : string) :
  Config.truthy (Config.orElse (env name) "") = true <-> Config.isSet env name.
Proof.
  rewrite truthy_iff. unfold Config.isSet, Config.orElse.
  destruct (env name) as [v|]; split.
  - intros H. now exists v.
  - intros [v' [E H]]. now injection E as ->.
  - intros H. now contradiction H.
  - intros [v' [E _]]. discriminate E.
Qed.

(** X10. The configuration loads exactly when [OPENAI_API_KEY] is set and
    not empty; otherwise the loader throws, naming the variable. A loaded
    configuration carries the key as set; its output directory is
    [./output] only when [OUTPUT_DIR] is unset: set to the empty string, it
    stays empty. *)
Theorem loadConfig_requires_key (env : Config.Env) :
  ((exists config, Config.loadConfig env = Normal config)
   <-> Config.isSet env "OPENAI_API_KEY")
  /\ (~ Config.isSet env "OPENAI_API_KEY" ->
      Config.loadConfig env = Throw Config.missingKey)
  /\ forall config,
       Config.loadConfig env = Normal config ->
       env "OPENAI_API_KEY" = Some (Config.openaiApiKey config)
       /\ (env "OUTPUT_DIR" = None -> Config.outputDir config = "./output")
       /\ (forall dir, env "OUTPUT_DIR" = Some dir -> Config.outputDir config = dir).
Proof.
  unfold Config.loadConfig, Config.isSet.
  destruct (env "OPENAI_API_KEY") as [k|] eqn:Hk.
  - destruct (Config.truthy k) eqn:Ht.
    + apply truthy_iff in Ht. split; [|split].
      * split; [intros _; now exists k | intros _; eauto].
      * intros H. contradiction H. now exists k.
      * intros config H. injection H as <-. cbn.
        split; [reflexivity|]. split; [intros ->; reflexivity|].
        intros dir ->. reflexivity.
    + assert (Hempty : k = "").
      { destruct (String.eqb_spec k ""); [assumption|].
        unfold Config.truthy in Ht. apply negb_false_iff, String.eqb_eq in Ht.
        assumption. }
      split; [|split].
      * split; [intros [c H]; discriminate H|].
        intros [v [E H]]. injection E as <-. contradiction.
      * reflexivity.
      * intros config H. discriminate H.
  - split; [|split].
    + split; [intros [c H]; discriminate H | intros [v [E _]]; discriminate E].
    + reflexivity.
    + intros config H. discriminate H.
Qed.

Lemma loadConfig_requires_key_witness :
  Config.loadConfig
    (Config.envOf [("OPENAI_API_KEY", "sk-1"); ("OUTPUT_DIR", "")])
  = Normal {| Config.openaiApiKey := "sk-1";
              Config.jira := Config.mkJiraConfig "" "" "" "";
              Config.outputDir := "" |}
  /\ Config.loadConfig (Config.envOf [("OPENAI_API_KEY", "")])
     = Throw Config.missingKey.
Proof.
  split.
  - destruct (proj2 (proj1 (loadConfig_requires_key
                (Config.envOf [("OPENAI_API_KEY", "sk-1"); ("OUTPUT_DIR", "")]))))
      as [config Hload].
    { exists "sk-1". split; [reflexivity | discriminate]. }
    rewrite Hload. cbn in Hload. injection Hload as <-. reflexivity.
  - apply (proj1 (proj2 (loadConfig_requires_key
                           (Config.envOf [("OPENAI_API_KEY", "")])))).
    intros [v [E H]]. cbn in E. injection E as <-. now apply H.
Defined.

(** X11. On a configuration loaded from the environment, the Jira check
    passes exactly when the four Jira variables are all set and none is
    empty; one variable missing or empty turns the integration off. *)
Theorem jira_enabled_iff_all_set (env : Config.Env) (config : Config.AppConfig) :
  Config.loadConfig env = Normal config ->
  (Config.validateJiraConfig config = true
   <-> Config.isSet env "JIRA_BASE_URL" /\ Config.isSet env "JIRA_EMAIL"
       /\ Config.isSet env "JIRA_API_TOKEN" /\ Config.isSet env "JIRA_PROJECT_KEY").
Proof.
  unfold Config.loadConfig.
  destruct (env "OPENAI_API_KEY") as [k|]; [|discriminate].
  destruct (Config.truthy k); [|discriminate].
  intros H. injection H as <-. unfold Config.validateJiraConfig. cbn.
  rewrite !andb_true_iff, !orElse_truthy. tauto.
Qed.

Lemma jira_enabled_iff_all_set_witness :
  (exists config,
     Config.loadConfig
       (Config.envOf [("OPENAI_API_KEY", "sk-1"); ("JIRA_BASE_URL", "https://x.atlassian.net");
                      ("JIRA_EMAIL", "a@x.io"); ("JIRA_API_TOKEN", "");
                      ("JIRA_PROJECT_KEY", "PG")]) = Normal config
     /\ Config.validateJiraConfig config = false).
Proof.
  eexists. split; [reflexivity|].
  apply not_true_is_false. intros Hvalid.
  apply (proj1 (@jira_enabled_iff_all_set
                  (Config.envOf [("OPENAI_API_KEY", "sk-1");
                                 ("JIRA_BASE_URL", "https://x.atlassian.net");
                                 ("JIRA_EMAIL", "a@x.io"); ("JIRA_API_TOKEN", "");
                                 ("JIRA_PROJECT_KEY", "PG")]) _ eq_refl)) in Hvalid.
  destruct Hvalid as [_ [_ [[v [E H]] _]]]. cbn in E. injection E as <-. now apply H.
Defined.

(* ------------------------------------------------------------------ *)
(** ** JSON objects *)
(* ------------------------------------------------------------------ *)

Lemma get_set_same (members : list (string * Json.t)) (k : string) (v : Json.t) :
  Json.get (Json.set members k v) k = Some v.
Proof.
  induction members as [|[k' v'] members IH]; cbn [Json.set Json.get].
  - now rewrite String.eqb_refl.
  - destruct (String.eqb_spec k k') as [-> | Hne]; cbn [Json.get].
    + now rewrite String.eqb_refl.
    + destruct (String.eqb_spec k k'); [contradiction | exact IH].
Qed.

Lemma get_set_other (members : list (string * Json.t)) (k k' : string) (v : Json.t) :
  k <> k' -> Json.get (Json.set members k v) k' = Json.get members k'.
Proof.
  intros Hne. induction members as [|[k0 v0] members IH]; cbn [Json.set Json.get].
  - destruct (String.eqb_spec k' k); [congruence | reflexivity].
  - destruct (String.eqb_spec k k0) as [-> | Hne0]; cbn [Json.get].
    + destruct (String.eqb_spec k' k0); [congruence | reflexivity].
    + now rewrite IH.
Qed.

Lemma set_keys (members : list (string * Json.t)) (k : string) (v : Json.t) :
  map fst (Json.set members k v)
  = if existsb (String.eqb k) (map fst members) then map fst members
    else map fst members ++ [k].
Proof.
  induction members as [|[k0 v0] members IH]; cbn [Json.set map fst existsb app].
  - reflexivity.
  - destruct (String.eqb_spec k k0) as [-> | Hne]; cbn [map fst orb].
    + reflexivity.
    + rewrite IH. now destruct (existsb (String.eqb k) (map fst members)).
Qed.

Lemma set_NoDup (members : list (string * Json.t)) (k : string) (v : Json.t) :
  NoDup (map fst members) -> NoDup (map fst (Json.set members k v)).
Proof.
  intros H. rewrite set_keys.
  destruct (existsb (String.eqb k) (map fst members)) eqn:E; [assumption|].
  apply NoDup_app; [assumption | repeat constructor; intros [] |].
  intros x Hx [Heq | []]. subst x.
  apply (has_In (map fst members) k) in Hx. unfold Js.has in Hx. congruence.
Qed.

Lemma setIfKnown_NoDup (fields : list (string * Json.t)) (id : option string)
      (v : Json.t) :
  NoDup (map fst fields) -> NoDup (map fst (Jira.setIfKnown fields id v)).
Proof.
  intros H. unfold Jira.setIfKnown. destruct id as [k|]; [|assumption].
  destruct (Config.truthy k); [now apply set_NoDup | assumption].
Qed.

Lemma setIfKnown_other (fields : list (string * Json.t)) (id : option string)
      (v : Json.t) (k : string) :
  id <> Some k -> Json.get (Jira.setIfKnown fields id v) k = Json.get fields k.
Proof.
  intros H. unfold Jira.setIfKnown. destruct id as [k0|]; [|reflexivity].
  destruct (Config.truthy k0); [|reflexivity].
  apply get_set_other. congruence.
Qed.

(** X12. Whatever custom fields were discovered, the fields of every issue
    the client creates hold today's date under [customfield_10015], also
    when a discovered field has that very id, and hold each key once. A
    discovered id changes no other key than its own: an epic keeps its
    issue type and a story its parent unless the id found is that key. *)
Theorem start_date_always_set (server : Jira.Server) (this : Jira.Client)
        (name description epicKey : string) (story : UserStory.t) :
  let today := Some (Json.Str (Jira.todayISO server)) in
  Json.get (Jira.epicFields server this name description) "customfield_10015" = today
  /\ Json.get (Jira.storyFields server this story epicKey) "customfield_10015" = today
  /\ Json.get (Jira.subtaskFields server this name description epicKey)
              "customfield_10015" = today
  /\ NoDup (map fst (Jira.epicFields server this name description))
  /\ NoDup (map fst (Jira.storyFields server this story epicKey))
  /\ (Jira.epicNameFieldId this <> Some "issuetype" ->
      Json.get (Jira.epicFields server this name description) "issuetype"
      = Some (Json.Object [("name", Json.Str "Epic")]))
  /\ (Jira.storyPointsFieldId this <> Some "parent" ->
      Json.get (Jira.storyFields server this story epicKey) "parent"
      = Some (Json.Object [("key", Json.Str epicKey)])).
Proof.
  cbv zeta. unfold Jira.epicFields, Jira.storyFields.
  split; [apply get_set_same|]. split; [apply get_set_same|].
  split; [reflexivity|].
  split.
  { apply set_NoDup, setIfKnown_NoDup. cbn.
    repeat constructor; cbn; intuition discriminate. }
  split.
  { apply set_NoDup, setIfKnown_NoDup. cbn.
    repeat constructor; cbn; intuition discriminate. }
  split.
  - intros H. rewrite get_set_other by discriminate.
    now rewrite setIfKnown_other.
  - intros H. rewrite get_set_other by discriminate.
    now rewrite setIfKnown_other.
Qed.

Lemma start_date_always_set_witness :
  let server :=
    {| Jira.base64 := fun s => s; Jira.todayISO := "2026-01-31";
       Jira.fieldsAnswer := fun _ _ => Jira.Ok [];
       Jira.issueAnswer := fun _ _ => Jira.Rejected (JsError "offline") |} in
  let this :=
    {| Jira.baseUrl := "https://x.atlassian.net"; Jira.auth := "a:b";
       Jira.projectKey := "PG";
       Jira.epicNameFieldId := Some "customfield_10015";
       Jira.storyPointsFieldId := None; Jira.sent := [] |} in
  map fst (Jira.epicFields server this "Checkout" "Pay for a cart")
  = ["project"; "summary"; "description"; "issuetype"; "customfield_10015"]
  /\ Json.get (Jira.epicFields server this "Checkout" "Pay for a cart") "issuetype"
     = Some (Json.Object [("name", Json.Str "Epic")]).
Proof.
  cbv zeta. split; [reflexivity|].
  refine (proj1 (proj2 (proj2 (proj2 (proj2 (proj2
            (start_date_always_set _ _ "Checkout" "Pay for a cart" ""
               (UserStory.mk "" "" "" "" "" "" "" [] medium 0%Z [] "" [])))))))
            _).
  discriminate.
Defined.

(* ------------------------------------------------------------------ *)
(** ** The Jira client *)
(* ------------------------------------------------------------------ *)

Lemma dropFinalSlash_app (s : string) : Jira.dropFinalSlash (s ++ "/") = s.
Proof.
  induction s as [|c s IH]; [reflexivity|].
  cbn [append Jira.dropFinalSlash]. rewrite IH.
  destruct s; reflexivity.
Qed.

Lemma dropFinalSlash_none (s : string) :
  JiraSpec.ends_with_slash s = false -> Jira.dropFinalSlash s = s.
Proof.
  unfold JiraSpec.ends_with_slash.
  induction s as [|c s IH]; [reflexivity|].
  cbn [list_ascii_of_string Jira.dropFinalSlash]. destruct s as [|d s].
  - cbn [list_ascii_of_string lastOf]. intros ->. reflexivity.
  - intros H. rewrite IH; [reflexivity|]. exact H.
Qed.

(** X13. The client keeps its base URL with one final slash taken off, so
    that a base URL given with or without it yields the same client and the
    same request URLs; a second final slash stays. *)
Theorem base_url_loses_one_slash (server : Jira.Server) (base email token key : string) :
  Jira.baseUrl (Jira.constructor server (Config.mkJiraConfig (base ++ "/") email token key))
  = base
  /\ (JiraSpec.ends_with_slash base = false ->
      Jira.constructor server (Config.mkJiraConfig (base ++ "/") email token key)
      = Jira.constructor server (Config.mkJiraConfig base email token key))
  /\ Jira.baseUrl
       (Jira.constructor server (Config.mkJiraConfig (base ++ "//") email token key))
     = (base ++ "/")%string.
Proof.
  unfold Jira.constructor. cbn [Config.baseUrl Config.email Config.apiToken
    Config.projectKey Jira.baseUrl].
  split; [apply dropFinalSlash_app|]. split.
  - intros H. now rewrite dropFinalSlash_app, dropFinalSlash_none.
  - replace (base ++ "//")%string with ((base ++ "/") ++ "/")%string
      by (now rewrite append_assoc).
    apply dropFinalSlash_app.
Qed.

Lemma base_url_loses_one_slash_witness :
  Jira.constructor Desk.obliging
    (Config.mkJiraConfig "https://x.atlassian.net/" "a@x.io" "t" "PG")
  = Jira.constructor Desk.obliging
      (Config.mkJiraConfig "https://x.atlassian.net" "a@x.io" "t" "PG").
Proof.
  exact (proj1 (proj2 (base_url_loses_one_slash Desk.obliging
                         "https://x.atlassian.net" "a@x.io" "t" "PG")) eq_refl).
Defined.

Lemma Eff_bind_run {S A B : Type} (m : Eff.t S A) (k : A -> Eff.t S B)
      (s s' : S) (r : Completion B) :
  Eff.bind m k s = (r, s') ->
  (exists a s1, m s = (Normal a, s1) /\ k a s1 = (r, s'))
  \/ (exists e, m s = (Throw e, s') /\ r = Throw e).
Proof.
  unfold Eff.bind. destruct (m s) as [[a | e] s1]; intros H.
  - left. now exists a, s1.
  - right. injection H as <- <-. now exists e.
Qed.

Lemma lastOf_None {A : Type} (l : list A) : lastOf l = None -> l = [].
Proof.
  induction l as [|x l IH]; [reflexivity|].
  destruct l as [|y l]; [discriminate|]. intros H.
  rewrite lastOf_cons in H by discriminate. specialize (IH H). discriminate IH.
Qed.

Lemma lastMatching_cons (test : Jira.Field.t -> bool) (field : Jira.Field.t)
      (fields : list Jira.Field.t) (before : option string) :
  JiraSpec.lastMatching test (field :: fields) before
  = JiraSpec.lastMatching test fields
      (if test field then Some (Jira.Field.id field) else before).
Proof.
  unfold JiraSpec.lastMatching. cbn [filter].
  destruct (test field); [|reflexivity].
  destruct (filter test fields) as [|f rest] eqn:E; [reflexivity|].
  rewrite lastOf_cons by discriminate.
  destruct (lastOf (f :: rest)) eqn:L; [reflexivity|].
  apply lastOf_None in L. discriminate L.
Qed.

Lemma fold_noteField (fields : list Jira.Field.t) (this : Jira.Client) :
  fold_left Jira.noteField fields this
  = {| Jira.baseUrl := Jira.baseUrl this; Jira.auth := Jira.auth this;
       Jira.projectKey := Jira.projectKey this;
       Jira.epicNameFieldId :=
         JiraSpec.lastMatching Jira.isEpicNameField fields (Jira.epicNameFieldId this);
       Jira.storyPointsFieldId :=
         JiraSpec.lastMatching Jira.isStoryPointsField fields
           (Jira.storyPointsFieldId this);
       Jira.sent := Jira.sent this |}.
Proof.
  revert this. induction fields as [|field fields IH]; intros this.
  - now destruct this.
  - cbn [fold_left]. rewrite IH, !lastMatching_cons. reflexivity.
Qed.

Lemma initialize_outcome (server : Jira.Server) (this this' : Jira.Client)
      (r : Completion unit) :
  Jira.initialize server this = (r, this') ->
  let req :=
    {| Jira.url := (Jira.baseUrl this ++ "/rest/api/3/field")%string;
       Jira.method := "GET";
       Jira.headers := [ ("Authorization", ("Basic " ++ Jira.auth this)%string);
                         ("Content-Type", "application/json");
                         ("Accept", "application/json") ];
       Jira.body := None |} in
  Jira.sent this' = Jira.sent this ++ [req]
  /\ match Jira.fieldsAnswer server (List.length (Jira.sent this)) req with
     | Jira.Ok fields => r = Normal tt
     | answer => exists e, r = Throw e /\ JiraSpec.thrownFor answer e
     end.
Proof.
  unfold Jira.initialize, Eff.bind, Jira.request. cbn [Config.orElse].
  intros Hrun. cbv zeta in *.
  destruct (Jira.fieldsAnswer server _ _) as [fields | status [text | e] | e].
  - rewrite fold_noteField in Hrun. injection Hrun as <- <-. cbn. now split.
  - injection Hrun as <- <-. cbn. split; [reflexivity|]. eexists; split; reflexivity.
  - injection Hrun as <- <-. cbn. split; [reflexivity|]. eexists; split; reflexivity.
  - injection Hrun as <- <-. cbn. split; [reflexivity|]. eexists; split; reflexivity.
Qed.

(** X14. [initialize] sends one request, a [GET] of the field list. When it
    is answered, the id kept for the epic name is that of the last field
    of the list named [Epic Name] or with a custom schema of the epic label
    kind, and likewise for the story points; an id stays as it was when no
    field matches. When it is not answered, the error is thrown and the
    ids are untouched. *)
Theorem initialize_last_field_wins (server : Jira.Server) (this this' : Jira.Client)
        (r : Completion unit) :
  Jira.initialize server this = (r, this') ->
  let req :=
    {| Jira.url := (Jira.baseUrl this ++ "/rest/api/3/field")%string;
       Jira.method := "GET";
       Jira.headers := [ ("Authorization", ("Basic " ++ Jira.auth this)%string);
                         ("Content-Type", "application/json");
                         ("Accept", "application/json") ];
       Jira.body := None |} in
  Jira.sent this' = Jira.sent this ++ [req]
  /\ match Jira.fieldsAnswer server (List.length (Jira.sent this)) req with
     | Jira.Ok fields =>
         r = Normal tt
         /\ Jira.epicNameFieldId this'
            = JiraSpec.lastMatching Jira.isEpicNameField fields
                (Jira.epicNameFieldId this)
         /\ Jira.storyPointsFieldId this'
            = JiraSpec.lastMatching Jira.isStoryPointsField fields
                (Jira.storyPointsFieldId this)
     | answer =>
         (exists e, r = Throw e /\ JiraSpec.thrownFor answer e)
         /\ Jira.epicNameFieldId this' = Jira.epicNameFieldId this
         /\ Jira.storyPointsFieldId this' = Jira.storyPointsFieldId this
     end.
Proof.
  unfold Jira.initialize, Eff.bind, Jira.request. cbn [Config.orElse].
  intros Hrun. cbv zeta in *.
  destruct (Jira.fieldsAnswer server _ _) as [fields | status [text | e] | e].
  - rewrite fold_noteField in Hrun. injection Hrun as <- <-. cbn. repeat split.
  - injection Hrun as <- <-. cbn.
    split; [reflexivity|]. split; [eexists; split; reflexivity | split; reflexivity].
  - injection Hrun as <- <-. cbn.
    split; [reflexivity|]. split; [eexists; split; reflexivity | split; reflexivity].
  - injection Hrun as <- <-. cbn.
    split; [reflexivity|]. split; [eexists; split; reflexivity | split; reflexivity].
Qed.

Lemma initialize_last_field_wins_witness :
  exists this',
    Jira.initialize Desk.obliging (Jira.constructor Desk.obliging Desk.config)
    = (Normal tt, this')
    /\ Jira.epicNameFieldId this' = Some "customfield_10099"
    /\ Jira.storyPointsFieldId this' = Some "customfield_10016".
Proof.
  destruct (Jira.initialize Desk.obliging (Jira.constructor Desk.obliging Desk.config))
    as [r this'] eqn:Hrun.
  destruct (@initialize_last_field_wins _ _ _ _ Hrun) as [_ Hanswer].
  cbn in Hanswer. destruct Hanswer as [-> [Hepic Hpoints]].
  exists this'. split; [reflexivity|]. split; assumption.
Defined.

(* ------------------------------------------------------------------ *)
(** ** Creating the issues of a backlog *)
(* ------------------------------------------------------------------ *)

Section Creating.

Variable server : Jira.Server.

Import JiraSpec.

Lemma sameSettings_refl (this : Jira.Client) : sameSettings this this.
Proof. unfold sameSettings. auto. Qed.

Lemma Grew_zero (P : Jira.Request -> Prop) (this : Jira.Client) : Grew P 0 this this.
Proof.
  split; [apply sameSettings_refl|]. exists []. rewrite app_nil_r.
  repeat split. constructor.
Qed.

Lemma Grew_trans (P : Jira.Request -> Prop) (n m : nat) (a b c : Jira.Client) :
  Grew P n a b -> Grew P m b c -> Grew P (n + m) a c.
Proof.
  intros [[A1 [A2 [A3 [A4 A5]]]] [new1 [L1 [N1 F1]]]]
         [[B1 [B2 [B3 [B4 B5]]]] [new2 [L2 [N2 F2]]]].
  split; [unfold sameSettings; repeat split; congruence|].
  exists (new1 ++ new2). split; [now rewrite L2, L1, app_assoc|].
  split; [rewrite length_app; congruence | now apply Forall_app].
Qed.

Lemma Grew_weaken (P Q : Jira.Request -> Prop) (n : nat) (b c : Jira.Client) :
  (forall req, P req -> Q req) -> Grew P n b c -> Grew Q n b c.
Proof.
  intros HPQ [Hs [new [L [N F]]]]. split; [exact Hs|].
  exists new. repeat split; try assumption. eapply Forall_impl; eauto.
Qed.

Lemma sameSettings_trans (a b c : Jira.Client) :
  sameSettings a b -> sameSettings b c -> sameSettings a c.
Proof.
  intros [A1 [A2 [A3 [A4 A5]]]] [B1 [B2 [B3 [B4 B5]]]].
  unfold sameSettings. repeat split; congruence.
Qed.

Lemma isIssuePost_settings (a b : Jira.Client) (req : Jira.Request) :
  sameSettings a b -> isIssuePost b req -> isIssuePost a req.
Proof.
  intros [A1 [A2 _]]. unfold isIssuePost. now rewrite A1, A2.
Qed.

Lemma postIssue_normal (fields : list (string * Json.t)) (this this' : Jira.Client)
      (issue : Jira.Issue.t) :
  Jira.postIssue server fields this = (Normal issue, this') ->
  Grew (isIssuePost this) 1 this this'.
Proof.
  unfold Jira.postIssue, Jira.request. cbn [Config.orElse].
  destruct (Jira.issueAnswer server _ _) as [payload | status [text | e] | e];
    intros H; try discriminate H.
  injection H as <- <-. split; [unfold sameSettings; cbn; auto 10|].
  eexists. split; [reflexivity|]. split; [reflexivity|].
  constructor; [|constructor]. unfold isIssuePost. cbn.
  repeat split; eauto.
Qed.

Lemma subtaskCount_cons (story : UserStory.t) (sts : list UserStory.t) :
  subtaskCount (story :: sts)
  = List.length (UserStory.subtasks story) + subtaskCount sts.
Proof. reflexivity. Qed.

Lemma storyCount_cons (epic : Epic.t) (eps : list Epic.t) :
  storyCount (epic :: eps) = List.length (Epic.stories epic) + storyCount eps.
Proof. reflexivity. Qed.

Lemma allSubtaskCount_cons (epic : Epic.t) (eps : list Epic.t) :
  allSubtaskCount (epic :: eps)
  = subtaskCount (Epic.stories epic) + allSubtaskCount eps.
Proof. reflexivity. Qed.

Lemma createSubtasks_normal (storyKey : string) (subs : list Subtask.t) :
  forall result this result' this',
    Jira.createSubtasks server storyKey result subs this = (Normal result', this') ->
    Jira.epics result' = Jira.epics result
    /\ Jira.stories result' = Jira.stories result
    /\ List.length (Jira.subtasks result')
       = List.length (Jira.subtasks result) + List.length subs
    /\ Grew (isIssuePost this) (List.length subs) this this'.
Proof.
  unfold Jira.createSubtasks.
  induction subs as [|sub subs IH]; intros result this result' this' H;
    cbn [Eff.forOf] in H.
  - injection H as <- <-. cbn. rewrite Nat.add_0_r.
    repeat split. apply Grew_zero.
  - apply Eff_bind_run in H. destruct H as [[acc [s1 [Hstep Hrest]]] | [e [_ Habs]]];
      [|discriminate Habs].
    apply Eff_bind_run in Hstep.
    destruct Hstep as [[issue [s2 [Hpost Hret]]] | [e [_ Habs]]];
      [|discriminate Habs].
    injection Hret as <- <-. unfold Jira.createSubtask in Hpost.
    apply postIssue_normal in Hpost.
    apply IH in Hrest. destruct Hrest as [He [Hs [Ht Hgrew]]].
    cbn [Jira.pushSubtask Jira.epics Jira.stories Jira.subtasks] in *.
    rewrite length_app in Ht. cbn [List.length] in *.
    split; [exact He|]. split; [exact Hs|]. split; [lia|].
    change (S (List.length subs)) with (1 + List.length subs).
    eapply Grew_trans; [exact Hpost|].
    eapply Grew_weaken; [|exact Hgrew].
    intros req. apply isIssuePost_settings. exact (proj1 Hpost).
Qed.

Lemma createStories_normal (epicKey : string) (sts : list UserStory.t) :
  forall result this result' this',
    Jira.createStories server epicKey result sts this = (Normal result', this') ->
    Jira.epics result' = Jira.epics result
    /\ List.length (Jira.stories result')
       = List.length (Jira.stories result) + List.length sts
    /\ List.length (Jira.subtasks result')
       = List.length (Jira.subtasks result) + subtaskCount sts
    /\ Grew (isIssuePost this) (List.length sts + subtaskCount sts) this this'.
Proof.
  unfold Jira.createStories.
  induction sts as [|story sts IH]; intros result this result' this' H;
    cbn [Eff.forOf] in H.
  - injection H as <- <-. cbn. rewrite !Nat.add_0_r.
    repeat split. apply Grew_zero.
  - apply Eff_bind_run in H. destruct H as [[acc [s1 [Hstep Hrest]]] | [e [_ Habs]]];
      [|discriminate Habs].
    apply Eff_bind_run in Hstep.
    destruct Hstep as [[issue [s2 [Hpost Hsubs]]] | [e [_ Habs]]];
      [|discriminate Habs].
    unfold Jira.createStory in Hpost. apply postIssue_normal in Hpost.
    apply createSubtasks_normal in Hsubs.
    destruct Hsubs as [He1 [Hs1 [Ht1 Hgrew1]]].
    apply IH in Hrest. destruct Hrest as [He [Hs [Ht Hgrew]]].
    cbn [Jira.pushStory Jira.epics Jira.stories Jira.subtasks] in *.
    rewrite Hs1, length_app in Hs. cbn [List.length] in Hs.
    rewrite subtaskCount_cons. cbn [List.length].
    split; [congruence|]. split; [lia|]. split; [lia|].
    replace (S (List.length sts)
             + (List.length (UserStory.subtasks story) + subtaskCount sts))
      with (1 + (List.length (UserStory.subtasks story)
                 + (List.length sts + subtaskCount sts)))
      by lia.
    eapply Grew_trans; [exact Hpost|].
    eapply Grew_trans.
    + eapply Grew_weaken; [|exact Hgrew1].
      intros req. apply isIssuePost_settings. exact (proj1 Hpost).
    + eapply Grew_weaken; [|exact Hgrew].
      intros req. apply isIssuePost_settings.
      eapply sameSettings_trans; [exact (proj1 Hpost) | exact (proj1 Hgrew1)].
Qed.

Lemma createEpics_normal (eps : list Epic.t) :
  forall result this result' this',
    Eff.forOf eps result
      (fun result epic =>
         epicIssue <~ Jira.createEpic server (Epic.name epic) (Epic.description epic) ;;
         Jira.createStories server (Jira.Issue.key epicIssue)
           (Jira.pushEpic result epicIssue) (Epic.stories epic)) this
    = (Normal result', this') ->
    List.length (Jira.epics result') = List.length (Jira.epics result) + List.length eps
    /\ List.length (Jira.stories result')
       = List.length (Jira.stories result) + storyCount eps
    /\ List.length (Jira.subtasks result')
       = List.length (Jira.subtasks result) + allSubtaskCount eps
    /\ Grew (isIssuePost this)
            (List.length eps + storyCount eps + allSubtaskCount eps) this this'.
Proof.
  induction eps as [|epic eps IH]; intros result this result' this' H;
    cbn [Eff.forOf] in H.
  - injection H as <- <-. cbn. rewrite !Nat.add_0_r.
    repeat split. apply Grew_zero.
  - apply Eff_bind_run in H. destruct H as [[acc [s1 [Hstep Hrest]]] | [e [_ Habs]]];
      [|discriminate Habs].
    apply Eff_bind_run in Hstep.
    destruct Hstep as [[issue [s2 [Hpost Hstories]]] | [e [_ Habs]]];
      [|discriminate Habs].
    unfold Jira.createEpic in Hpost. apply postIssue_normal in Hpost.
    apply createStories_normal in Hstories.
    destruct Hstories as [He1 [Hs1 [Ht1 Hgrew1]]].
    apply IH in Hrest. destruct Hrest as [He [Hs [Ht Hgrew]]].
    cbn [Jira.pushEpic Jira.epics Jira.stories Jira.subtasks] in *.
    rewrite He1, length_app in He. cbn [List.length] in He.
    rewrite storyCount_cons, allSubtaskCount_cons. cbn [List.length].
    split; [lia|]. split; [lia|]. split; [lia|].
    match goal with
    | |- Grew _ ?n _ _ =>
        replace n with
          (1 + ((List.length (Epic.stories epic) + subtaskCount (Epic.stories epic))
                + (List.length eps + storyCount eps + allSubtaskCount eps)))
          by lia
    end.
    eapply Grew_trans; [exact Hpost|].
    eapply Grew_trans.
    + eapply Grew_weaken; [|exact Hgrew1].
      intros req. apply isIssuePost_settings. exact (proj1 Hpost).
    + eapply Grew_weaken; [|exact Hgrew].
      intros req. apply isIssuePost_settings.
      eapply sameSettings_trans; [exact (proj1 Hpost) | exact (proj1 Hgrew1)].
Qed.

End Creating.

Lemma initialize_normal (server : Jira.Server) (this this' : Jira.Client) :
  Jira.initialize server this = (Normal tt, this') ->
  Jira.baseUrl this' = Jira.baseUrl this /\ Jira.auth this' = Jira.auth this
  /\ exists first,
       Jira.sent this' = Jira.sent this ++ [first]
       /\ Jira.method first = "GET"
       /\ Jira.url first = (Jira.baseUrl this ++ "/rest/api/3/field")%string
       /\ Jira.body first = None.
Proof.
  unfold Jira.initialize, Eff.bind, Jira.request. cbn [Config.orElse].
  destruct (Jira.fieldsAnswer server _ _) as [fields | status [text | e] | e];
    intros H; try discriminate H.
  rewrite fold_noteField in H. injection H as <-. cbn.
  split; [reflexivity|]. split; [reflexivity|].
  eexists. split; [reflexivity|]. cbn. auto.
Qed.

(** X15. When the whole backlog is created, the result holds one issue for
    each epic, one for each story and one for each subtask; the client has
    sent one [GET] of the field list and then exactly one [POST] of an
    issue for each of them, to the issue endpoint of its base URL and with
    its credentials. *)
Theorem createAll_creates_everything (server : Jira.Server) (eps : list Epic.t)
        (this this' : Jira.Client) (result : Jira.CreateResponse) :
  Jira.createAllFromEpics server eps this = (Normal result, this') ->
  List.length (Jira.epics result) = List.length eps
  /\ List.length (Jira.stories result) = JiraSpec.storyCount eps
  /\ List.length (Jira.subtasks result) = JiraSpec.allSubtaskCount eps
  /\ exists first rest,
       Jira.sent this' = Jira.sent this ++ first :: rest
       /\ Jira.method first = "GET"
       /\ Jira.url first = (Jira.baseUrl this ++ "/rest/api/3/field")%string
       /\ List.length rest
          = List.length eps + JiraSpec.storyCount eps + JiraSpec.allSubtaskCount eps
       /\ Forall (JiraSpec.isIssuePost this) rest.
Proof.
  unfold Jira.createAllFromEpics. intros H.
  apply Eff_bind_run in H. destruct H as [[[] [this1 [Hinit Hloop]]] | [e [_ Habs]]];
    [|discriminate Habs].
  apply initialize_normal in Hinit.
  destruct Hinit as [Hbase [Hauth [first [Hsent [Hmethod [Hurl _]]]]]].
  apply createEpics_normal in Hloop.
  destruct Hloop as [He [Hs [Ht [_ [rest [Hsent' [Hlen Hall]]]]]]].
  cbn [Jira.epics Jira.stories Jira.subtasks List.length] in *.
  split; [exact He|]. split; [exact Hs|]. split; [exact Ht|].
  exists first, rest. split; [rewrite Hsent', Hsent, <- app_assoc; reflexivity|].
  split; [exact Hmethod|]. split; [exact Hurl|]. split; [exact Hlen|].
  eapply Forall_impl; [|exact Hall].
  intros req. unfold JiraSpec.isIssuePost. now rewrite Hbase, Hauth.
Qed.

Lemma createAll_creates_everything_witness :
  exists result this',
    Jira.createAllFromEpics Desk.obliging Desk.backlog
      (Jira.constructor Desk.obliging Desk.config) = (Normal result, this')
    /\ List.length (Jira.epics result) = 2
    /\ List.length (Jira.stories result) = 2
    /\ List.length (Jira.subtasks result) = 2
    /\ List.length (Jira.sent this') = 7.
Proof.
  destruct (Jira.createAllFromEpics Desk.obliging Desk.backlog
              (Jira.constructor Desk.obliging Desk.config))
    as [[result | e] this'] eqn:Hrun.
  - destruct (@createAll_creates_everything _ _ _ _ _ Hrun)
      as [He [Hs [Ht [first [rest [Hsent [_ [_ [Hlen _]]]]]]]]].
    exists result, this'. split; [reflexivity|].
    split; [exact He|]. split; [exact Hs|]. split; [exact Ht|].
    rewrite Hsent. cbn [Jira.constructor Jira.sent app List.length].
    rewrite Hlen. reflexivity.
  - vm_compute in Hrun. discriminate Hrun.
Defined.

(* ------------------------------------------------------------------ *)
(** ** A request that is not answered *)
(* ------------------------------------------------------------------ *)

Section Refusals.

Variable server : Jira.Server.

Import JiraSpec.

Lemma Creates_ret {A : Type} (a : A) : Creates server (Eff.ret a).
Proof.
  intros this r this' H. injection H as <- <-. exists [].
  rewrite app_nil_r. split; [reflexivity|].
  intros i req Hi. destruct i; discriminate Hi.
Qed.

Lemma Creates_bind {A B : Type} (m : Eff.t Jira.Client A) (k : A -> Eff.t Jira.Client B) :
  Creates server m -> (forall a, Creates server (k a)) ->
  Creates server (Eff.bind m k).
Proof.
  intros Hm Hk this r this' H. apply Eff_bind_run in H.
  destruct H as [[a [s1 [H1 H2]]] | [e [H1 ->]]].
  - destruct (Hm _ _ _ H1) as [new1 [L1 Hok1]]. cbn beta iota in Hok1.
    destruct (Hk a _ _ _ H2) as [new2 [L2 Hcase]].
    exists (new1 ++ new2). split; [now rewrite L2, L1, app_assoc|].
    assert (Hlen : List.length (Jira.sent s1)
                   = List.length (Jira.sent this) + List.length new1).
    { now rewrite L1, length_app. }
    destruct r as [b | e].
    + intros i req Hi. destruct (Nat.lt_ge_cases i (List.length new1)) as [Hlt | Hge].
      * rewrite nth_error_app1 in Hi by assumption. now apply Hok1.
      * rewrite nth_error_app2 in Hi by assumption.
        specialize (Hcase _ _ Hi). rewrite Hlen in Hcase.
        replace (List.length (Jira.sent this) + i)
          with (List.length (Jira.sent this) + List.length new1
                + (i - List.length new1)) by lia.
        exact Hcase.
    + destruct Hcase as [before [last [-> [Hbefore Hlast]]]].
      exists (new1 ++ before), last. split; [now rewrite app_assoc|]. split.
      * intros i req Hi.
        destruct (Nat.lt_ge_cases i (List.length new1)) as [Hlt | Hge].
        -- rewrite nth_error_app1 in Hi by assumption. now apply Hok1.
        -- rewrite nth_error_app2 in Hi by assumption.
           specialize (Hbefore _ _ Hi). rewrite Hlen in Hbefore.
           replace (List.length (Jira.sent this) + i)
             with (List.length (Jira.sent this) + List.length new1
                   + (i - List.length new1)) by lia.
           exact Hbefore.
      * rewrite length_app, Nat.add_assoc, <- Hlen. exact Hlast.
  - exact (Hm _ _ _ H1).
Qed.

Lemma Creates_forOf {A B : Type} (xs : list A) (step : B -> A -> Eff.t Jira.Client B) :
  (forall acc x, Creates server (step acc x)) ->
  forall acc, Creates server (Eff.forOf xs acc step).
Proof.
  intros Hstep. induction xs as [|x xs IH]; intros acc; cbn [Eff.forOf].
  - apply Creates_ret.
  - apply Creates_bind; [apply Hstep | exact IH].
Qed.

Lemma request_run {T : Type} (answer : nat -> Jira.Request -> Jira.Answer T)
      (path : string) (method : option string) (body : option Json.t)
      (this this' : Jira.Client) (r : Completion T) :
  Jira.request answer path method body this = (r, this') ->
  exists req,
    Jira.sent this' = Jira.sent this ++ [req]
    /\ match answer (List.length (Jira.sent this)) req with
       | Jira.Ok payload => r = Normal payload
       | other => exists e, r = Throw e /\ thrownFor other e
       end.
Proof.
  unfold Jira.request. intros H.
  match type of H with
  | context [answer ?n ?req] =>
      exists req; destruct (answer n req) as [payload | status [text | e] | e]
  end; injection H as <- <-; (split; [reflexivity|]);
    first [reflexivity | eexists; split; reflexivity].
Qed.

Lemma Creates_postIssue (fields : Jira.Client -> list (string * Json.t)) :
  Creates server (fun this => Jira.postIssue server (fields this) this).
Proof.
  intros this r this' H. unfold Jira.postIssue in H.
  apply request_run in H. destruct H as [req [Hsent Hanswer]].
  exists [req]. split; [exact Hsent|].
  destruct r as [issue | e].
  - intros i req' Hi. destruct i as [|i]; [|destruct i; discriminate Hi].
    injection Hi as <-. rewrite Nat.add_0_r.
    destruct (Jira.issueAnswer server _ req); [exact I | |];
      destruct Hanswer as [err [Habs _]]; discriminate Habs.
  - exists [], req. split; [reflexivity|]. split.
    + intros i req' Hi. destruct i; discriminate Hi.
    + cbn [List.length]. rewrite Nat.add_0_r.
      destruct (Jira.issueAnswer server _ req); [discriminate Hanswer | |];
        destruct Hanswer as [err [Herr Hthrown]]; injection Herr as <-; exact Hthrown.
Qed.

Lemma Creates_epics (eps : list Epic.t) (result : Jira.CreateResponse) :
  Creates server
    (Eff.forOf eps result
       (fun result epic =>
          epicIssue <~ Jira.createEpic server (Epic.name epic) (Epic.description epic) ;;
          Jira.createStories server (Jira.Issue.key epicIssue)
            (Jira.pushEpic result epicIssue) (Epic.stories epic))).
Proof.
  apply Creates_forOf. intros acc epic. apply Creates_bind.
  { exact (Creates_postIssue
             (fun this => Jira.epicFields server this (Epic.name epic)
                            (Epic.description epic))). }
  intros epicIssue. unfold Jira.createStories.
  apply Creates_forOf. intros acc' story. apply Creates_bind.
  { exact (Creates_postIssue
             (fun this => Jira.storyFields server this story (Jira.Issue.key epicIssue))). }
  intros storyIssue. unfold Jira.createSubtasks.
  apply Creates_forOf. intros acc'' subtask. apply Creates_bind.
  { exact (Creates_postIssue
             (fun this => Jira.subtaskFields server this (Subtask.title subtask)
                            (Subtask.description subtask)
                            (Jira.Issue.key storyIssue))). }
  intros subtaskIssue. apply Creates_ret.
Qed.

(** X16. When the creation of a backlog throws, the request that was not
    answered is the last one the client sent: nothing is sent after it,
    and every request before it had been answered. The error thrown is the
    one of that request: for a response that is not ok, a message with its
    status and its text. No result is returned for the issues created up
    to there. *)
Theorem createAll_stops_at_first_refusal (eps : list Epic.t)
        (this this' : Jira.Client) (e : JsThrown) :
  Jira.createAllFromEpics server eps this = (Throw e, this') ->
  let n := List.length (Jira.sent this) in
  exists before last,
    Jira.sent this' = Jira.sent this ++ before ++ [last]
    /\ match before with
       | [] => thrownFor (Jira.fieldsAnswer server n last) e
       | first :: posts =>
           isOk (Jira.fieldsAnswer server n first)
           /\ (forall i req, nth_error posts i = Some req ->
                 isOk (Jira.issueAnswer server (n + 1 + i) req))
           /\ thrownFor (Jira.issueAnswer server (n + 1 + List.length posts) last) e
       end.
Proof.
  unfold Jira.createAllFromEpics. intros H. cbv zeta.
  apply Eff_bind_run in H. destruct H as [[[] [this1 [Hinit Hloop]]] | [e' [Hinit He]]].
  - pose proof (@initialize_outcome _ _ _ _ Hinit) as [Hsent Hanswer].
    cbv zeta in Hsent, Hanswer.
    match type of Hsent with
    | _ = _ ++ [?req] => set (first := req) in *
    end.
    destruct (@Creates_epics eps _ this1 (Throw e) this' Hloop)
      as [new [Hnew [posts [last [-> [Hposts Hlast]]]]]].
    assert (Hlen : List.length (Jira.sent this1) = List.length (Jira.sent this) + 1).
    { now rewrite Hsent, length_app. }
    exists (first :: posts), last.
    split; [rewrite Hnew, Hsent, <- !app_assoc; reflexivity|].
    split; [|split].
    + destruct (Jira.fieldsAnswer server _ first); [exact I | |];
        destruct Hanswer as [err [Habs _]]; discriminate Habs.
    + intros i req Hi. rewrite <- Hlen. now apply Hposts.
    + rewrite <- Hlen. exact Hlast.
  - injection He as <-.
    pose proof (@initialize_outcome _ _ _ _ Hinit) as [Hsent Hanswer].
    cbv zeta in Hsent, Hanswer.
    match type of Hsent with
    | _ = _ ++ [?req] => set (first := req) in *
    end.
    exists [], first. split; [exact Hsent|]. cbn [app].
    destruct (Jira.fieldsAnswer server _ first) as [fields | status text | e1].
    + discriminate Hanswer.
    + destruct Hanswer as [err [Herr Hthrown]]. injection Herr as <-. exact Hthrown.
    + destruct Hanswer as [err [Herr Hthrown]]. injection Herr as <-. exact Hthrown.
Qed.

End Refusals.

Lemma createAll_stops_at_first_refusal_witness :
  exists this',
    Jira.createAllFromEpics Desk.refusingFourth Desk.backlog
      (Jira.constructor Desk.refusingFourth Desk.config)
    = (Throw (JsError "Jira API error (400): project is required"), this')
    /\ List.length (Jira.sent this') = 4.
Proof.
  destruct (Jira.createAllFromEpics Desk.refusingFourth Desk.backlog
              (Jira.constructor Desk.refusingFourth Desk.config))
    as [[result | e] this'] eqn:Hrun.
  - vm_compute in Hrun. discriminate Hrun.
  - destruct (@createAll_stops_at_first_refusal _ _ _ _ _ Hrun)
      as [before [last [Hsent _]]].
    exists this'. vm_compute in Hrun. injection Hrun as <- <-.
    split; reflexivity.
Defined.

(* ------------------------------------------------------------------ *)
(** ** The generated project *)
(* ------------------------------------------------------------------ *)

(** The scaffold merge: the files provided, then the scaffold files whose
    path none of them has. *)
Lemma merge_filter (given scaffold : list GeneratedFile.t) :
  fold_left (fun files sf =>
               if negb (Js.has (Js.spreadSet (map GeneratedFile.path given))
                               (GeneratedFile.path sf))
               then files ++ [sf] else files)
            scaffold given
  = given
    ++ filter (fun sf => negb (Js.has (Js.spreadSet (map GeneratedFile.path given))
                                      (GeneratedFile.path sf)))
              scaffold.
Proof.
  pose proof (fold_push
                (fun sf => negb (Js.has (Js.spreadSet (map GeneratedFile.path given))
                                        (GeneratedFile.path sf)))
                (fun sf : GeneratedFile.t => sf) scaffold given) as H.
  cbn beta in H. rewrite H. now rewrite map_id.
Qed.

Lemma has_spreadSet (xs : list string) (x : string) :
  Js.has (Js.spreadSet xs) x = true <-> In x xs.
Proof.
  rewrite has_In, spreadSet_first_occurrences. unfold first_occurrences.
  rewrite firsts_In. simpl. tauto.
Qed.

Section CodeFacts.

Variable JSON_parse : string -> option (list GeneratedFile.t).
Variable join : string -> string -> string.
Variable dirname : string -> string.
Variable disk : Code.Disk.

Lemma perform_run (op : Code.FsOp) (asked asked' : list Code.FsOp)
      (r : Completion unit) :
  Code.perform disk op asked = (r, asked') ->
  asked' = asked ++ [op]
  /\ match r with
     | Normal _ => disk (List.length asked) op = None
     | Throw e => disk (List.length asked) op = Some e
     end.
Proof.
  unfold Code.perform. destruct (disk (List.length asked) op) as [e|] eqn:E;
    intros H; injection H as <- <-; now split.
Qed.

Lemma forOf_files (codeDir : string) (files : list GeneratedFile.t)
      (asked asked' : list Code.FsOp) (r : Completion unit) :
  Eff.forOf files tt
    (fun _ file =>
       _ <~ Code.mkdir disk (dirname (join codeDir (GeneratedFile.path file))) ;;
       Code.writeFile disk (join codeDir (GeneratedFile.path file))
                      (GeneratedFile.content file)) asked = (r, asked') ->
  match r with
  | Normal _ => asked' = asked ++ flat_map (CodeSpec.fileOps join dirname codeDir) files
  | Throw e =>
      exists before op rest,
        asked' = asked ++ before ++ [op]
        /\ before ++ op :: rest = flat_map (CodeSpec.fileOps join dirname codeDir) files
        /\ CodeSpec.refusedAt disk asked before op e
  end.
Proof.
  revert asked. induction files as [|f files IH]; intros asked; cbn [Eff.forOf flat_map].
  - unfold Eff.ret. intros H. injection H as <- <-. now rewrite app_nil_r.
  - unfold Eff.bind at 1. unfold Eff.bind at 1. unfold Code.mkdir, Code.writeFile.
    destruct (Code.perform disk (Code.Mkdir _) asked) as [r1 a1] eqn:E1.
    apply perform_run in E1. destruct E1 as [-> H1].
    destruct r1 as [[]|e1].
    + destruct (Code.perform disk (Code.WriteFile _ _) _) as [r2 a2] eqn:E2.
      apply perform_run in E2. destruct E2 as [-> H2].
      destruct r2 as [[]|e2].
      * intros H. apply IH in H. destruct r as [[]|e].
        -- rewrite H. unfold CodeSpec.fileOps at 2. cbn [app].
           now rewrite <- !app_assoc.
        -- destruct H as [before [op [rest [-> [Hplan Href]]]]].
           exists (CodeSpec.fileOps join dirname codeDir f ++ before), op, rest.
           split; [unfold CodeSpec.fileOps; cbn [app]; now rewrite <- !app_assoc|].
           split; [now rewrite <- app_assoc, Hplan|].
           unfold CodeSpec.refusedAt in *. unfold CodeSpec.fileOps. cbn [app].
           now rewrite <- !app_assoc in Href.
      * intros H. injection H as <- <-.
        exists [Code.Mkdir (dirname (join codeDir (GeneratedFile.path f)))],
               (Code.WriteFile (join codeDir (GeneratedFile.path f))
                               (GeneratedFile.content f)),
               (flat_map (CodeSpec.fileOps join dirname codeDir) files).
        split; [now rewrite <- app_assoc|]. split; [reflexivity|exact H2].
    + intros H. injection H as <- <-.
      exists [], (Code.Mkdir (dirname (join codeDir (GeneratedFile.path f)))),
             (Code.WriteFile (join codeDir (GeneratedFile.path f))
                             (GeneratedFile.content f)
              :: flat_map (CodeSpec.fileOps join dirname codeDir) files).
      split; [reflexivity|]. split; [reflexivity|].
      unfold CodeSpec.refusedAt. now rewrite app_nil_r.
Qed.

(** One run of [writeGeneratedProject], taken apart. *)
Lemma writeGeneratedProject_run (filesJson outputDir : string)
      (asked asked' : list Code.FsOp) (r : Completion GeneratedProject.t) :
  Code.writeGeneratedProject JSON_parse join dirname disk filesJson outputDir asked
  = (r, asked') ->
  exists project,
    GeneratedProject.files project
    = CodeSpec.provided JSON_parse filesJson
      ++ filter (fun sf =>
                   negb (Js.has (Js.spreadSet
                                   (map GeneratedFile.path
                                        (CodeSpec.provided JSON_parse filesJson)))
                                (GeneratedFile.path sf)))
                Code.getScaffoldFiles
    /\ match r with
       | Normal p => p = project /\ asked' = asked ++ CodeSpec.plan join dirname outputDir project
       | Throw e =>
           exists before op rest,
             asked' = asked ++ before ++ [op]
             /\ before ++ op :: rest = CodeSpec.plan join dirname outputDir project
             /\ CodeSpec.refusedAt disk asked before op e
       end.
Proof.
  unfold Code.writeGeneratedProject. fold (CodeSpec.provided JSON_parse filesJson).
  rewrite merge_filter.
  set (files := CodeSpec.provided JSON_parse filesJson ++ filter _ Code.getScaffoldFiles).
  set (codeDir := join outputDir "code").
  set (setupInstructions := Js.join JsonText.nl _).
  intros Hrun.
  exists (GeneratedProject.mk files setupInstructions).
  split; [reflexivity|].
  unfold Eff.bind at 1 in Hrun. unfold Code.mkdir at 1 in Hrun.
  destruct (Code.perform disk (Code.Mkdir codeDir) asked) as [r1 a1] eqn:E1.
  apply perform_run in E1. destruct E1 as [-> H1].
  unfold CodeSpec.plan. cbn [GeneratedProject.files GeneratedProject.setupInstructions].
  fold codeDir.
  destruct r1 as [[]|e1].
  - unfold Eff.bind at 1 in Hrun.
    destruct (Eff.forOf files tt _ (asked ++ [Code.Mkdir codeDir])) as [r2 a2] eqn:E2.
    apply forOf_files in E2. destruct r2 as [[]|e2].
    + subst a2. unfold Eff.bind, Code.writeFile in Hrun.
      destruct (Code.perform disk (Code.WriteFile _ _) _) as [r3 a3] eqn:E3.
      apply perform_run in E3. destruct E3 as [-> H3].
      destruct r3 as [[]|e3].
      * unfold Eff.ret in Hrun. injection Hrun as <- <-.
        split; [reflexivity|]. cbn [app]. now rewrite <- !app_assoc.
      * injection Hrun as <- <-.
        exists (Code.Mkdir codeDir
                :: flat_map (CodeSpec.fileOps join dirname codeDir) files),
               (Code.WriteFile (join codeDir "README.md") setupInstructions), [].
        split; [cbn [app]; now rewrite <- !app_assoc|]. split; [reflexivity|].
        unfold CodeSpec.refusedAt. cbn [app].
        now rewrite <- !app_assoc in H3.
    + injection Hrun as <- <-.
      destruct E2 as [before [op [rest [-> [Hplan Href]]]]].
      exists (Code.Mkdir codeDir :: before), op,
             (rest ++ [Code.WriteFile (join codeDir "README.md") setupInstructions]).
      split; [cbn [app]; now rewrite <- !app_assoc|].
      split; [cbn [app]; rewrite <- Hplan; now rewrite <- app_assoc|].
      unfold CodeSpec.refusedAt in *. cbn [app]. now rewrite <- !app_assoc in Href.
  - injection Hrun as <- <-.
    exists [], (Code.Mkdir codeDir),
           (flat_map (CodeSpec.fileOps join dirname codeDir) files
            ++ [Code.WriteFile (join codeDir "README.md") setupInstructions]).
    split; [reflexivity|]. split; [reflexivity|].
    unfold CodeSpec.refusedAt. now rewrite app_nil_r.
Qed.

End CodeFacts.

Lemma NoDup_map_filter {A B : Type} (f : A -> B) (keep : A -> bool) (l : list A) :
  NoDup (map f l) -> NoDup (map f (filter keep l)).
Proof.
  induction l as [|x l IH]; cbn [map filter]; intros H; [constructor|].
  inversion H as [|y ys Hnot Hrest]; subst.
  destruct (keep x); cbn [map]; [|now apply IH].
  constructor; [|now apply IH].
  intros Hin. apply Hnot. apply in_map_iff in Hin. destruct Hin as [z [Hz Hin]].
  apply filter_In in Hin. apply in_map_iff. exists z. tauto.
Qed.

Lemma scaffold_paths_NoDup : NoDup (CodeSpec.paths Code.getScaffoldFiles).
Proof.
  unfold CodeSpec.paths. cbn [Code.getScaffoldFiles map GeneratedFile.path].
  repeat (constructor; [cbn [In]; intros H;
                        repeat (destruct H as [H | H]; [discriminate H|]); exact H|]).
  constructor.
Qed.

Section CodeTheorems.

Variable JSON_parse : string -> option (list GeneratedFile.t).
Variable join : string -> string -> string.
Variable dirname : string -> string.
Variable disk : Code.Disk.

(** X17. When the reply parses, the project returned holds the parsed
    files first, unchanged and in their order, followed by exactly those
    scaffold files whose path no parsed file has. So every scaffold path is
    in the project, a parsed file is never replaced by the scaffold file of
    the same path, at most six files are added, and the paths of the project
    are distinct whenever those of the parsed files are. *)
Theorem scaffold_fills_missing_paths (filesJson outputDir : string)
        (given : list GeneratedFile.t) (asked asked' : list Code.FsOp)
        (project : GeneratedProject.t) :
  JSON_parse filesJson = Some given ->
  Code.writeGeneratedProject JSON_parse join dirname disk filesJson outputDir asked
  = (Normal project, asked') ->
  exists added,
    GeneratedProject.files project = given ++ added
    /\ (forall sf, In sf added <->
                   In sf Code.getScaffoldFiles
                   /\ ~ In (GeneratedFile.path sf) (CodeSpec.paths given))
    /\ (forall sf, In sf Code.getScaffoldFiles ->
                   In (GeneratedFile.path sf)
                      (CodeSpec.paths (GeneratedProject.files project)))
    /\ List.length added <= 6
    /\ (NoDup (CodeSpec.paths given) ->
        NoDup (CodeSpec.paths (GeneratedProject.files project))).
Proof.
  intros Hparse Hrun. apply writeGeneratedProject_run in Hrun.
  destruct Hrun as [p [Hfiles Hr]]. cbn beta iota in Hr. destruct Hr as [<- _].
  unfold CodeSpec.provided in Hfiles. rewrite Hparse in Hfiles.
  set (keep := fun sf => negb (Js.has (Js.spreadSet (map GeneratedFile.path given))
                                      (GeneratedFile.path sf))) in Hfiles.
  assert (Hkeep : forall sf, keep sf = true
                             <-> ~ In (GeneratedFile.path sf) (CodeSpec.paths given)).
  { intros sf. unfold keep, CodeSpec.paths. rewrite negb_true_iff.
    rewrite <- has_spreadSet.
    split.
    - intros H Hin. rewrite Hin in H. discriminate H.
    - intros H. destruct (Js.has _ _); [exfalso; now apply H | reflexivity]. }
  exists (filter keep Code.getScaffoldFiles).
  split; [exact Hfiles|]. split.
  { intros sf. rewrite filter_In, Hkeep. tauto. }
  split.
  { intros sf Hin. rewrite Hfiles. unfold CodeSpec.paths. rewrite map_app, in_app_iff.
    destruct (keep sf) eqn:E.
    - right. apply in_map. apply filter_In. now split.
    - left. destruct (in_dec string_dec (GeneratedFile.path sf) (CodeSpec.paths given))
        as [Hyes | Hno]; [exact Hyes|].
      apply Hkeep in Hno. congruence. }
  split.
  { change 6 with (List.length Code.getScaffoldFiles). apply filter_length_le. }
  intros Hnodup. rewrite Hfiles. unfold CodeSpec.paths. rewrite map_app.
  apply NoDup_app; [exact Hnodup | |].
  - apply NoDup_map_filter. exact scaffold_paths_NoDup.
  - intros x Hx Hin. apply in_map_iff in Hin. destruct Hin as [sf [<- Hin]].
    apply filter_In in Hin. destruct Hin as [_ Hk]. apply Hkeep in Hk. now apply Hk.
Qed.

Lemma unparsable_files (filesJson outputDir : string)
      (asked asked' : list Code.FsOp) (project : GeneratedProject.t) :
  JSON_parse filesJson = None ->
  Code.writeGeneratedProject JSON_parse join dirname disk filesJson outputDir asked
  = (Normal project, asked') ->
  GeneratedProject.files project
  = GeneratedFile.mk "src/App.vue" filesJson "Generated application code"
    :: Code.getScaffoldFiles.
Proof.
  intros Hparse Hrun. apply writeGeneratedProject_run in Hrun.
  destruct Hrun as [p [Hfiles Hr]]. cbn beta iota in Hr. destruct Hr as [<- _].
  unfold CodeSpec.provided in Hfiles. rewrite Hparse in Hfiles.
  cbn [map GeneratedFile.path] in Hfiles.
  assert (Hall : filter (fun sf => negb (Js.has (Js.spreadSet ["src/App.vue"])
                                                (GeneratedFile.path sf)))
                        Code.getScaffoldFiles = Code.getScaffoldFiles).
  { unfold Code.getScaffoldFiles. cbn [filter GeneratedFile.path].
    repeat match goal with
           | |- context [Js.has ?s ?x] =>
               let b := eval vm_compute in (Js.has s x) in
               change (Js.has s x) with b
           end.
    reflexivity. }
  rewrite Hall in Hfiles. exact Hfiles.
Qed.

(** X18. A reply that is not JSON is no error: it becomes the content of
    one file, [src/App.vue], and the whole scaffold is added after it, so
    the project has seven files; the raw reply is what is written to
    [src/App.vue] under the code directory. *)
Theorem unparsable_reply_becomes_App_vue (filesJson outputDir : string)
        (asked asked' : list Code.FsOp) (project : GeneratedProject.t) :
  JSON_parse filesJson = None ->
  Code.writeGeneratedProject JSON_parse join dirname disk filesJson outputDir asked
  = (Normal project, asked') ->
  GeneratedProject.files project
  = GeneratedFile.mk "src/App.vue" filesJson "Generated application code"
    :: Code.getScaffoldFiles
  /\ List.length (GeneratedProject.files project) = 7
  /\ In (Code.WriteFile (join (join outputDir "code") "src/App.vue") filesJson) asked'.
Proof.
  intros Hparse Hrun.
  pose proof (@unparsable_files _ _ _ _ _ Hparse Hrun) as Hfiles.
  apply writeGeneratedProject_run in Hrun.
  destruct Hrun as [p [_ Hr]]. cbn beta iota in Hr. destruct Hr as [<- Hasked].
  split; [exact Hfiles|]. split; [now rewrite Hfiles|].
  rewrite Hasked. apply in_or_app. right. unfold CodeSpec.plan. rewrite Hfiles.
  cbn [flat_map CodeSpec.fileOps GeneratedFile.path GeneratedFile.content app].
  right. right. now left.
Qed.


End CodeTheorems.

Lemma scaffold_fills_missing_paths_witness :
  exists project asked',
    Code.writeGeneratedProject Studio.parse Studio.join Studio.dirname Studio.sound
      "[two files]" "out" [] = (Normal project, asked')
    /\ CodeSpec.paths (GeneratedProject.files project)
       = [ "src/App.vue"; "index.html"; "package.json"; "vite.config.ts";
           "tsconfig.json"; "src/main.ts"; "env.d.ts" ]
    /\ NoDup (CodeSpec.paths (GeneratedProject.files project)).
Proof.
  destruct (Code.writeGeneratedProject Studio.parse Studio.join Studio.dirname
              Studio.sound "[two files]" "out" [])
    as [[project | e] asked'] eqn:Hrun.
  - destruct (@scaffold_fills_missing_paths Studio.parse Studio.join Studio.dirname
                Studio.sound "[two files]" "out" [Studio.appVue; Studio.ownIndex]
                [] asked' project eq_refl Hrun)
      as [added [Hfiles [_ [_ [_ Hnodup]]]]].
    exists project, asked'. split; [reflexivity|]. split.
    + vm_compute in Hrun. injection Hrun as <- _. reflexivity.
    + apply Hnodup. unfold CodeSpec.paths, Studio.appVue, Studio.ownIndex.
      cbn [map GeneratedFile.path].
      constructor; [cbn [In]; intros [H | []]; discriminate H|].
      constructor; [cbn [In]; intros []|constructor].
  - vm_compute in Hrun. discriminate Hrun.
Defined.

Lemma unparsable_reply_becomes_App_vue_witness :
  exists project asked',
    Code.writeGeneratedProject Studio.parse Studio.join Studio.dirname Studio.sound
      "Here is your app!" "out" [] = (Normal project, asked')
    /\ List.length (GeneratedProject.files project) = 7
    /\ In (Code.WriteFile "out/code/src/App.vue" "Here is your app!") asked'.
Proof.
  destruct (Code.writeGeneratedProject Studio.parse Studio.join Studio.dirname
              Studio.sound "Here is your app!" "out" [])
    as [[project | e] asked'] eqn:Hrun.
  - destruct (@unparsable_reply_becomes_App_vue Studio.parse Studio.join
                Studio.dirname Studio.sound "Here is your app!" "out"
                [] asked' project eq_refl Hrun) as [_ [Hlen Hin]].
    exists project, asked'. split; [reflexivity|]. split; [exact Hlen|exact Hin].
  - vm_compute in Hrun. discriminate Hrun.
Defined.


(* ------------------------------------------------------------------ *)
(** ** The analyzer's requests *)
(* ------------------------------------------------------------------ *)








Lemma length_append (a b : string) :
  String.length (a ++ b)%string = String.length a + String.length b.
Proof. induction a as [|c a IH]; cbn [String.append String.length]; [reflexivity|]. now rewrite IH. Qed.

Section AnalyzerTheorems.

Variable client : Anthropic.Service.
Variable JSON_parse : string -> Completion Json.t.


(** X21. Of the pages, [generateVueCode] lets through the titles and the
    first 2000 code units of each text, and nothing else of the scraped
    application: two applications that agree on these get the same request
    sent and the same outcome. The part of the prompt made for one page is
    never longer than its title and 2009 code units more. *)
Theorem page_text_beyond_2000_is_not_sent (prd : Json.t) (app app' : ScrapedApp)
        (sent : list Anthropic.Params) :
  AnalyzerSpec.digest app = AnalyzerSpec.digest app' ->
  Analyzer.generateVueCode client prd app sent
  = Analyzer.generateVueCode client prd app' sent
  /\ forall p, In p (pages app) ->
       String.length (Analyzer.pageContext p) <= String.length (title p) + 2009.
Proof.
  intros Hdigest. split.
  - assert (Hctx : map Analyzer.pageContext (pages app)
                   = map Analyzer.pageContext (pages app')).
    { unfold AnalyzerSpec.digest in Hdigest.
      apply (f_equal (map (fun tx : string * string =>
                             ("Page " ++ JsonText.dq ++ fst tx ++ JsonText.dq
                              ++ ": " ++ snd tx)%string))) in Hdigest.
      rewrite !map_map in Hdigest. exact Hdigest. }
    unfold Analyzer.generateVueCode, Analyzer.codePrompt. now rewrite Hctx.
  - intros p _. unfold Analyzer.pageContext.
    rewrite !length_append.
    pose proof (slice0_length 2000 (textContent p)) as Hcut.
    change (String.length "Page ") with 5.
    change (String.length JsonText.dq) with 1.
    change (String.length ": ") with 2. lia.
Qed.

End AnalyzerTheorems.

(** X22. A reply to [generateVueCode] whose first block is no text is taken
    for the empty string, without an error. Given to [writeGeneratedProject],
    the empty string is not JSON, so on a disk that refuses nothing the
    project written is an empty [src/App.vue] and the scaffold. *)
Theorem non_text_reply_yields_empty_component
        (client : Anthropic.Service)
        (JSON_parse : string -> option (list GeneratedFile.t))
        (join : string -> string -> string) (dirname : string -> string)
        (disk : Code.Disk) (prd : Json.t) (app : ScrapedApp)
        (sent : list Anthropic.Params) (reply : Anthropic.Message)
        (type : string) (rest : list Anthropic.ContentBlock)
        (outputDir : string) (asked : list Code.FsOp) :
  client (List.length sent)
         (AnalyzerSpec.userMessage (Anthropic.Plain (Analyzer.codePrompt prd app)))
  = Normal reply ->
  Anthropic.replyContent reply = Anthropic.OtherBlock type :: rest ->
  JSON_parse "" = None ->
  (forall n op, disk n op = None) ->
  exists project asked',
    Analyzer.generateVueCode client prd app sent
    = (Normal "",
       sent ++ [ AnalyzerSpec.userMessage
                   (Anthropic.Plain (Analyzer.codePrompt prd app)) ])
    /\ Code.writeGeneratedProject JSON_parse join dirname disk "" outputDir asked
       = (Normal project, asked')
    /\ GeneratedProject.files project
       = GeneratedFile.mk "src/App.vue" "" "Generated application code"
         :: Code.getScaffoldFiles.
Proof.
  intros Hreply Hfirst Hparse Hsound.
  destruct (Code.writeGeneratedProject JSON_parse join dirname disk "" outputDir asked)
    as [r asked'] eqn:Hrun.
  pose proof (@writeGeneratedProject_run JSON_parse join dirname disk _ _ _ _ _ Hrun) as [p [_ Hr]].
  destruct r as [project | e].
  - exists project, asked'. split.
    + unfold Analyzer.generateVueCode, Eff.bind, Anthropic.create.
      fold (AnalyzerSpec.userMessage (Anthropic.Plain (Analyzer.codePrompt prd app))).
      rewrite Hreply. unfold Analyzer.firstText. rewrite Hfirst. reflexivity.
    + split; [reflexivity|].
      exact (@unparsable_files JSON_parse join dirname disk _ outputDir asked asked' project Hparse Hrun).
  - destruct Hr as [before [op [rest' [_ [_ Href]]]]].
    unfold CodeSpec.refusedAt in Href. rewrite Hsound in Href. discriminate Href.
Qed.


Lemma page_text_beyond_2000_is_not_sent_witness :
  Booth.wordy 2500 <> Booth.wordy 3000
  /\ Analyzer.generateVueCode Booth.chatty Booth.prd (Booth.wordy 2500) []
     = Analyzer.generateVueCode Booth.chatty Booth.prd (Booth.wordy 3000) [].
Proof.
  split.
  - intros H.
    apply (f_equal (fun a => map (fun p => String.length (textContent p)) (pages a)))
      in H.
    cbn [Booth.wordy pages map textContent] in H.
    rewrite !replicate_length in H.
    apply (f_equal (fun l => Nat.leb (hd 0 l) 2500)) in H.
    vm_compute in H. discriminate H.
  - apply (@page_text_beyond_2000_is_not_sent Booth.chatty Booth.prd
             (Booth.wordy 2500) (Booth.wordy 3000) []).
    vm_compute. reflexivity.
Defined.

Lemma non_text_reply_yields_empty_component_witness :
  exists project asked',
    Analyzer.generateVueCode Booth.curt Booth.prd Booth.sevenPages []
    = (Normal "",
       [ AnalyzerSpec.userMessage
           (Anthropic.Plain (Analyzer.codePrompt Booth.prd Booth.sevenPages)) ])
    /\ Code.writeGeneratedProject Studio.parse Studio.join Studio.dirname Studio.sound
         "" "out" [] = (Normal project, asked')
    /\ List.length (GeneratedProject.files project) = 7.
Proof.
  destruct (@non_text_reply_yields_empty_component Booth.curt Studio.parse Studio.join
              Studio.dirname Studio.sound Booth.prd Booth.sevenPages []
              (Anthropic.mkMessage [ Anthropic.OtherBlock "tool_use" ])
              "tool_use" [] "out" [] eq_refl eq_refl eq_refl (fun _ _ => eq_refl))
    as [project [asked' [Hcode [Hwrite Hfiles]]]].
  exists project, asked'. split; [exact Hcode|]. split; [exact Hwrite|].
  now rewrite Hfiles.
Defined.

(* ------------------------------------------------------------------ *)
(** ** The component tree against the DOM tree *)
(* ------------------------------------------------------------------ *)





(* ------------------------------------------------------------------ *)
(** ** Parents and children *)
(* ------------------------------------------------------------------ *)

Section Links.

Variable server : Jira.Server.

Import JiraLinks.

Lemma returned_app (n : nat) (a b : list Jira.Request) :
  returned server n (a ++ b)
  = returned server n a ++ returned server (n + List.length a) b.
Proof.
  revert n. induction a as [|req a IH]; intros n; cbn [app returned List.length].
  - now rewrite Nat.add_0_r.
  - rewrite IH. replace (S n + List.length a) with (n + S (List.length a)) by lia.
    destruct (Jira.issueAnswer server n req); reflexivity.
Qed.

Lemma linkedFrom_mono (reqs : list Jira.Request) :
  forall n known known',
    incl known known' ->
    linkedFrom server n known reqs -> linkedFrom server n known' reqs.
Proof.
  induction reqs as [|req reqs IH]; intros n known known' Hincl; cbn [linkedFrom];
    [trivial|].
  intros [Hreq Hrest]. split.
  - intros k Hk. apply Hincl. now apply Hreq.
  - eapply IH; [|exact Hrest]. apply incl_app; [apply incl_appl; exact Hincl|].
    apply incl_appr. apply incl_refl.
Qed.

Lemma linkedFrom_app (a b : list Jira.Request) :
  forall n known,
    linkedFrom server n known a ->
    linkedFrom server (n + List.length a) (known ++ returned server n a) b ->
    linkedFrom server n known (a ++ b).
Proof.
  induction a as [|req a IH]; intros n known; cbn [app linkedFrom List.length].
  - intros _. rewrite Nat.add_0_r. cbn [returned]. now rewrite app_nil_r.
  - intros [Hreq Hrest] Hb. split; [exact Hreq|].
    apply IH; [exact Hrest|].
    replace (S n + List.length a) with (n + S (List.length a)) by lia.
    eapply linkedFrom_mono; [|exact Hb].
    change (req :: a) with ([req] ++ a). rewrite returned_app, app_assoc.
    cbn [List.length]. replace (n + 1) with (S n) by lia. apply incl_refl.
Qed.

Lemma linkedFrom_split (reqs : list Jira.Request) :
  forall n known,
    linkedFrom server n known reqs ->
    forall before req after k,
      reqs = before ++ req :: after ->
      parentKeyOf req = Some k ->
      In k (known ++ returned server n before).
Proof.
  induction reqs as [|first reqs IH]; intros n known Hlinked before req after k Hsplit Hk.
  - destruct before; discriminate Hsplit.
  - cbn [linkedFrom] in Hlinked. destruct Hlinked as [Hfirst Hrest].
    destruct before as [|b before]; cbn [app] in Hsplit; injection Hsplit as -> ->.
    + cbn [returned]. rewrite app_nil_r. now apply Hfirst.
    + specialize (IH _ _ Hrest before req after k eq_refl Hk).
      change (b :: before) with ([b] ++ before). rewrite returned_app.
      cbn [List.length]. replace (n + 1) with (S n) by lia.
      now rewrite app_assoc.
Qed.

Lemma postIssue_sent (fields : list (string * Json.t)) (this this' : Jira.Client)
      (r : Completion Jira.Issue.t) :
  Jira.postIssue server fields this = (r, this') ->
  exists req,
    Jira.sent this' = Jira.sent this ++ [req]
    /\ parentKeyOf req = parentIn fields
    /\ forall issue, r = Normal issue ->
         returned server (List.length (Jira.sent this)) [req] = [Jira.Issue.key issue].
Proof.
  unfold Jira.postIssue, Jira.request. cbn [Config.orElse]. intros H.
  match type of H with
  | context [Jira.issueAnswer server ?n ?req] =>
      exists req; destruct (Jira.issueAnswer server n req)
        as [payload | status [text | e] | e] eqn:Hanswer
  end; injection H as <- <-; (split; [reflexivity|]); (split; [reflexivity|]);
    intros issue Hissue; try discriminate Hissue.
  injection Hissue as <-. cbn [returned]. now rewrite Hanswer.
Qed.

Lemma subtask_names_parent (this : Jira.Client) (title description parentKey : string) :
  parentIn (Jira.subtaskFields server this title description parentKey)
  = Some parentKey.
Proof. reflexivity. Qed.

Lemma epic_names_no_parent (this : Jira.Client) (name description : string) :
  parentIn (Jira.epicFields server this name description) = None.
Proof.
  unfold parentIn, Jira.epicFields.
  rewrite get_set_other by (apply String.eqb_neq; reflexivity).
  unfold Jira.setIfKnown. destruct (Jira.epicNameFieldId this) as [id|]; [|reflexivity].
  destruct (Config.truthy id); [|reflexivity].
  destruct (String.eqb_spec id "parent") as [-> | Hne].
  - now rewrite get_set_same.
  - now rewrite get_set_other.
Qed.

Lemma story_names_its_epic (this : Jira.Client) (story : UserStory.t)
      (epicKey k : string) :
  parentIn (Jira.storyFields server this story epicKey) = Some k -> k = epicKey.
Proof.
  unfold parentIn, Jira.storyFields.
  rewrite get_set_other by (apply String.eqb_neq; reflexivity).
  unfold Jira.setIfKnown. destruct (Jira.storyPointsFieldId this) as [id|].
  - destruct (Config.truthy id).
    + destruct (String.eqb_spec id "parent") as [-> | Hne].
      * rewrite get_set_same. discriminate.
      * rewrite get_set_other by exact Hne. cbn. intros H. now injection H as <-.
    + cbn. intros H. now injection H as <-.
  - cbn. intros H. now injection H as <-.
Qed.

Lemma createSubtasks_linked (storyKey : string) (subs : list Subtask.t) :
  forall result this r this',
    Jira.createSubtasks server storyKey result subs this = (r, this') ->
    exists new,
      Jira.sent this' = Jira.sent this ++ new
      /\ forall n known, In storyKey known -> linkedFrom server n known new.
Proof.
  unfold Jira.createSubtasks.
  induction subs as [|sub subs IH]; intros result this r this' H; cbn [Eff.forOf] in H.
  - injection H as <- <-. exists []. split; [now rewrite app_nil_r|].
    intros n known _. exact I.
  - apply Eff_bind_run in H.
    assert (Hone : forall r1 s1,
               Jira.createSubtask server (Subtask.title sub) (Subtask.description sub)
                                  storyKey this = (r1, s1) ->
               exists req, Jira.sent s1 = Jira.sent this ++ [req]
                           /\ parentKeyOf req = Some storyKey).
    { intros r1 s1 Hpost. unfold Jira.createSubtask in Hpost.
      apply postIssue_sent in Hpost. destruct Hpost as [req [Hsent [Hparent _]]].
      exists req. split; [exact Hsent|]. now rewrite Hparent. }
    destruct H as [[acc [s1 [Hstep Hrest]]] | [e [Hstep ->]]].
    + apply Eff_bind_run in Hstep.
      destruct Hstep as [[issue [s2 [Hpost Hret]]] | [e [_ Habs]]];
        [|discriminate Habs].
      injection Hret as <- <-. destruct (Hone _ _ Hpost) as [req [Hsent Hparent]].
      apply IH in Hrest. destruct Hrest as [new [Hnew Hlinked]].
      exists (req :: new). split; [rewrite Hnew, Hsent, <- app_assoc; reflexivity|].
      intros n known Hin. cbn [linkedFrom]. split.
      * intros k Hk. rewrite Hparent in Hk. now injection Hk as <-.
      * apply Hlinked. apply in_or_app. now left.
    + apply Eff_bind_run in Hstep.
      destruct Hstep as [[issue [s2 [_ Habs]]] | [e' [Hpost _]]];
        [discriminate Habs|].
      destruct (Hone _ _ Hpost) as [req [Hsent Hparent]].
      exists [req]. split; [exact Hsent|].
      intros n known Hin. cbn [linkedFrom]. split; [|exact I].
      intros k Hk. rewrite Hparent in Hk. now injection Hk as <-.
Qed.

Lemma createStories_linked (epicKey : string) (sts : list UserStory.t) :
  forall result this r this',
    Jira.createStories server epicKey result sts this = (r, this') ->
    exists new,
      Jira.sent this' = Jira.sent this ++ new
      /\ forall known, In epicKey known ->
           linkedFrom server (List.length (Jira.sent this)) known new.
Proof.
  unfold Jira.createStories.
  induction sts as [|story sts IH]; intros result this r this' H; cbn [Eff.forOf] in H.
  - injection H as <- <-. exists []. split; [now rewrite app_nil_r|].
    intros known _. exact I.
  - apply Eff_bind_run in H.
    destruct H as [[acc [s1 [Hstep Hrest]]] | [e [Hstep ->]]].
    + apply Eff_bind_run in Hstep.
      destruct Hstep as [[issue [s2 [Hpost Hsubs]]] | [e [_ Habs]]];
        [|discriminate Habs].
      unfold Jira.createStory in Hpost. apply postIssue_sent in Hpost.
      destruct Hpost as [req [Hsent [Hparent Hkey]]].
      specialize (Hkey issue eq_refl).
      apply createSubtasks_linked in Hsubs. destruct Hsubs as [new2 [Hnew2 Hlinked2]].
      apply IH in Hrest. destruct Hrest as [new3 [Hnew3 Hlinked3]].
      exists (req :: new2 ++ new3).
      split; [rewrite Hnew3, Hnew2, Hsent, <- !app_assoc; reflexivity|].
      intros known Hin. cbn [linkedFrom]. split.
      * intros k Hk. rewrite Hparent in Hk. apply story_names_its_epic in Hk.
        now subst k.
      * rewrite Hkey. apply linkedFrom_app.
        -- apply Hlinked2. apply in_or_app. right. now left.
        -- replace (S (List.length (Jira.sent this)) + List.length new2)
             with (List.length (Jira.sent s1))
             by (rewrite Hnew2, Hsent, !length_app; cbn [List.length]; lia).
           apply Hlinked3. apply in_or_app. left. apply in_or_app. now left.
    + apply Eff_bind_run in Hstep.
      destruct Hstep as [[issue [s2 [Hpost Hsubs]]] | [e' [Hpost _]]].
      * unfold Jira.createStory in Hpost. apply postIssue_sent in Hpost.
        destruct Hpost as [req [Hsent [Hparent Hkey]]].
        specialize (Hkey issue eq_refl).
        apply createSubtasks_linked in Hsubs. destruct Hsubs as [new2 [Hnew2 Hlinked2]].
        exists (req :: new2).
        split; [rewrite Hnew2, Hsent, <- !app_assoc; reflexivity|].
        intros known Hin. cbn [linkedFrom]. split.
        -- intros k Hk. rewrite Hparent in Hk. apply story_names_its_epic in Hk.
           now subst k.
        -- rewrite Hkey. apply Hlinked2. apply in_or_app. right. now left.
      * unfold Jira.createStory in Hpost. apply postIssue_sent in Hpost.
        destruct Hpost as [req [Hsent [Hparent _]]].
        exists [req]. split; [exact Hsent|].
        intros known Hin. cbn [linkedFrom]. split; [|exact I].
        intros k Hk. rewrite Hparent in Hk. apply story_names_its_epic in Hk.
        now subst k.
Qed.

Lemma createEpics_linked (eps : list Epic.t) :
  forall result this r this',
    Eff.forOf eps result
      (fun result epic =>
         epicIssue <~ Jira.createEpic server (Epic.name epic) (Epic.description epic) ;;
         Jira.createStories server (Jira.Issue.key epicIssue)
           (Jira.pushEpic result epicIssue) (Epic.stories epic)) this
    = (r, this') ->
    exists new,
      Jira.sent this' = Jira.sent this ++ new
      /\ forall known, linkedFrom server (List.length (Jira.sent this)) known new.
Proof.
  induction eps as [|epic eps IH]; intros result this r this' H; cbn [Eff.forOf] in H.
  - injection H as <- <-. exists []. split; [now rewrite app_nil_r|].
    intros known. exact I.
  - apply Eff_bind_run in H.
    destruct H as [[acc [s1 [Hstep Hrest]]] | [e [Hstep ->]]].
    + apply Eff_bind_run in Hstep.
      destruct Hstep as [[issue [s2 [Hpost Hstories]]] | [e [_ Habs]]];
        [|discriminate Habs].
      unfold Jira.createEpic in Hpost. apply postIssue_sent in Hpost.
      destruct Hpost as [req [Hsent [Hparent Hkey]]].
      specialize (Hkey issue eq_refl). rewrite epic_names_no_parent in Hparent.
      apply createStories_linked in Hstories.
      destruct Hstories as [new2 [Hnew2 Hlinked2]].
      apply IH in Hrest. destruct Hrest as [new3 [Hnew3 Hlinked3]].
      exists (req :: new2 ++ new3).
      split; [rewrite Hnew3, Hnew2, Hsent, <- !app_assoc; reflexivity|].
      intros known. cbn [linkedFrom]. split.
      * intros k Hk. rewrite Hparent in Hk. discriminate Hk.
      * rewrite Hkey. apply linkedFrom_app.
        -- replace (S (List.length (Jira.sent this)))
             with (List.length (Jira.sent s2))
             by (rewrite Hsent, length_app; cbn [List.length]; lia).
           apply Hlinked2. apply in_or_app. right. now left.
        -- replace (S (List.length (Jira.sent this)) + List.length new2)
             with (List.length (Jira.sent s1))
             by (rewrite Hnew2, Hsent, !length_app; cbn [List.length]; lia).
           apply Hlinked3.
    + apply Eff_bind_run in Hstep.
      destruct Hstep as [[issue [s2 [Hpost Hstories]]] | [e' [Hpost _]]].
      * unfold Jira.createEpic in Hpost. apply postIssue_sent in Hpost.
        destruct Hpost as [req [Hsent [Hparent Hkey]]].
        specialize (Hkey issue eq_refl). rewrite epic_names_no_parent in Hparent.
        apply createStories_linked in Hstories.
        destruct Hstories as [new2 [Hnew2 Hlinked2]].
        exists (req :: new2).
        split; [rewrite Hnew2, Hsent, <- !app_assoc; reflexivity|].
        intros known. cbn [linkedFrom]. split.
        -- intros k Hk. rewrite Hparent in Hk. discriminate Hk.
        -- rewrite Hkey.
           replace (S (List.length (Jira.sent this)))
             with (List.length (Jira.sent s2))
             by (rewrite Hsent, length_app; cbn [List.length]; lia).
           apply Hlinked2. apply in_or_app. right. now left.
      * unfold Jira.createEpic in Hpost. apply postIssue_sent in Hpost.
        destruct Hpost as [req [Hsent [Hparent _]]].
        rewrite epic_names_no_parent in Hparent.
        exists [req]. split; [exact Hsent|].
        intros known. cbn [linkedFrom]. split; [|exact I].
        intros k Hk. rewrite Hparent in Hk. discriminate Hk.
Qed.

(** X24. No issue is created under a parent that does not exist yet. Of the
    requests [createAllFromEpics] sends after the one for the field list,
    whatever the run ends in, each one that names a parent
    ([fields.parent.key]) names the key of an issue that the server made of
    an earlier one of these requests; in particular the first names none. *)
Theorem parents_are_created_first (eps : list Epic.t) (this this' : Jira.Client)
        (r : Completion Jira.CreateResponse) :
  Jira.createAllFromEpics server eps this = (r, this') ->
  exists first posts,
    Jira.sent this' = Jira.sent this ++ first :: posts
    /\ forall before req after k,
         posts = before ++ req :: after ->
         parentKeyOf req = Some k ->
         In k (returned server (List.length (Jira.sent this) + 1) before).
Proof.
  unfold Jira.createAllFromEpics. intros H.
  apply Eff_bind_run in H. destruct H as [[[] [this1 [Hinit Hloop]]] | [e [Hinit _]]].
  - pose proof (@initialize_outcome _ _ _ _ Hinit) as [Hsent _]. cbv zeta in Hsent.
    apply createEpics_linked in Hloop. destruct Hloop as [posts [Hposts Hlinked]].
    eexists. exists posts.
    split; [rewrite Hposts, Hsent, <- app_assoc; reflexivity|].
    intros before req after k Hsplit Hk.
    specialize (Hlinked []).
    replace (List.length (Jira.sent this1)) with (List.length (Jira.sent this) + 1)
      in Hlinked by (rewrite Hsent, length_app; reflexivity).
    exact (@linkedFrom_split posts _ [] Hlinked before req after k Hsplit Hk).
  - pose proof (@initialize_outcome _ _ _ _ Hinit) as [Hsent _]. cbv zeta in Hsent.
    eexists. exists []. split; [exact Hsent|].
    intros before req after k Hsplit. destruct before; discriminate Hsplit.
Qed.

End Links.

Lemma parents_are_created_first_witness :
  exists r this',
    Jira.createAllFromEpics Desk.obliging Desk.backlog
      (Jira.constructor Desk.obliging Desk.config) = (r, this')
    /\ map JiraLinks.parentKeyOf (tl (Jira.sent this'))
       = [ None; Some "PG-1"; Some "PG-2"; Some "PG-2"; Some "PG-1"; None ]
    /\ exists first posts,
         Jira.sent this' = first :: posts
         /\ forall before req after k,
              posts = before ++ req :: after ->
              JiraLinks.parentKeyOf req = Some k ->
              In k (JiraLinks.returned Desk.obliging 1 before).
Proof.
  destruct (Jira.createAllFromEpics Desk.obliging Desk.backlog
              (Jira.constructor Desk.obliging Desk.config)) as [r this'] eqn:Hrun.
  destruct (@parents_are_created_first Desk.obliging _ _ _ _ Hrun)
    as [first [posts [Hsent Hlinked]]].
  exists r, this'. split; [reflexivity|]. split.
  - vm_compute in Hrun. injection Hrun as _ <-. reflexivity.
  - exists first, posts. split; [exact Hsent | exact Hlinked].
Defined.
